(** * Railnode storage adapter layer: a shallow embedding and its properties

    The development follows the TypeScript sources of the storage layer:
    - [crud/internal/store.ts]         (memory store),
    - [crud/internal/jsonFileStore.ts] (file store),
    - [db/postgresAdapter.ts]          (relational adapter),
    - [db/mongoAdapter.ts]             (document adapter),
    - [db/adapter.ts]                  (adapter factory).

    JavaScript objects used as records are finite maps from property names
    to values ([gmap string JsValue]); a JavaScript [Map] keeps insertion
    order and is an association list; the wall clock, the random source and
    the file system are explicit inputs and explicit state. *)

From Stdlib Require Import ZArith NArith String Ascii List Lia Permutation.
From stdpp Require Import gmap strings list fin_maps pretty sorting.

Open Scope string_scope.

(* ================================================================== *)
(** * JavaScript values *)
(* ================================================================== *)

(** The values a payload of type [unknown] ranges over.  Numbers are
    integers here (no fractions, no NaN); functions, symbols and boxed
    primitives are left out. *)
#[warnings="-register-all"]
Inductive JsValue : Type :=
  | JUndefined
  | JNull
  | JBool (b : bool)
  | JNum (n : Z)
  | JStr (s : string)
  | JArr (items : list JsValue)
  | JObj (fields : gmap string JsValue).

(** A plain object: own enumerable string-keyed properties. *)
Abbreviation JsObject := (gmap string JsValue).

(** [!!v] in JavaScript. *)
Definition truthy (v : JsValue) : bool :=
  match v with
  | JUndefined | JNull => false
  | JBool b => b
  | JNum n => negb (n =? 0)%Z
  | JStr s => negb (String.eqb s "")
  | JArr _ | JObj _ => true
  end.

(** [typeof v === "object"]; note that [typeof null] is ["object"]. *)
Definition typeof_object (v : JsValue) : bool :=
  match v with
  | JNull | JArr _ | JObj _ => true
  | _ => false
  end.

(** The own enumerable properties seen by a rest pattern [{...rest} = v]:
    the fields of an object, the indices of an array. *)
Definition own_props (v : JsValue) : JsObject :=
  match v with
  | JObj fields => fields
  | JArr items => list_to_map (imap (fun i x => (pretty i, x)) items)
  | _ => ∅
  end.

(** [obj[key]]: a missing property reads as [undefined]. *)
Definition js_get (obj : JsObject) (key : string) : JsValue :=
  default JUndefined (obj !! key).

(** [{ ...a, ...b }]: the later spread wins. *)
Definition spread (a b : JsObject) : JsObject := b ∪ a.

(** The three keys every adapter strips from client payloads. *)
Definition reserved (key : string) : Prop :=
  key = "id" ∨ key = "createdAt" ∨ key = "updatedAt".

#[global] Instance reserved_dec key : Decision (reserved key).
Proof. unfold reserved. apply _. Defined.

(** [sanitizeClientPayload], the same text in store.ts, jsonFileStore.ts,
    postgresAdapter.ts and mongoAdapter.ts:
<<
    if (!payload || typeof payload !== "object") return {};
    const { id: _id, createdAt: _createdAt, updatedAt: _updatedAt, ...rest } = payload;
    return rest;
>> *)
Definition sanitizeClientPayload (payload : JsValue) : JsObject :=
  if negb (truthy payload) || negb (typeof_object payload) then ∅
  else delete "id" (delete "createdAt" (delete "updatedAt" (own_props payload))).

(** U+0000 occurs in the text. *)
Fixpoint has_nul (s : string) : bool :=
  match s with
  | EmptyString => false
  | String c rest => Ascii.eqb c (ascii_of_nat 0) || has_nul rest
  end.

(** The payloads the source calls "not an object". *)
Definition non_object (v : JsValue) : Prop :=
  match v with
  | JUndefined | JNull | JBool _ | JNum _ | JStr _ => True
  | JArr _ | JObj _ => False
  end.

(* ================================================================== *)
(** * Wall clock and identifiers *)
(* ================================================================== *)

Module Iso.

(** Zero-padded decimal rendering of a non-negative number. *)
Definition pad (width : nat) (n : Z) : string :=
  let digits := pretty (Z.to_N n) in
  String.concat "" (replicate (width - String.length digits) "0") ++ digits.

(** Proleptic Gregorian date of a day count since 1970-01-01. *)
Definition civil_from_days (days : Z) : Z * Z * Z :=
  let z := (days + 719468)%Z in
  let era := (z / 146097)%Z in
  let doe := (z - era * 146097)%Z in
  let yoe := ((doe - doe / 1460 + doe / 36524 - doe / 146096) / 365)%Z in
  let doy := (doe - (365 * yoe + yoe / 4 - yoe / 100))%Z in
  let mp := ((5 * doy + 2) / 153)%Z in
  let d := (doy - (153 * mp + 2) / 5 + 1)%Z in
  let m := (if (mp <? 10)%Z then mp + 3 else mp - 9)%Z in
  let y := (yoe + era * 400 + (if (m <=? 2)%Z then 1 else 0))%Z in
  (y, m, d).

Definition year_string (y : Z) : string :=
  if ((0 <=? y) && (y <=? 9999))%Z then pad 4 y
  else if (y <? 0)%Z then "-" ++ pad 6 (- y)
  else "+" ++ pad 6 y.

(** [Date.prototype.toISOString] of the instant [ms] milliseconds after
    the epoch (UTC, millisecond resolution). *)
Definition toISOString (ms : Z) : string :=
  let days := (ms / 86400000)%Z in
  let rest := (ms mod 86400000)%Z in
  let '(y, m, d) := civil_from_days days in
  year_string y ++ "-" ++ pad 2 m ++ "-" ++ pad 2 d ++ "T"
    ++ pad 2 (rest / 3600000) ++ ":" ++ pad 2 (rest / 60000 mod 60) ++ ":"
    ++ pad 2 (rest / 1000 mod 60) ++ "." ++ pad 3 (rest mod 1000) ++ "Z".

(** [nowIso()] of store.ts and jsonFileStore.ts; [clock] is what
    [new Date()] reads at the call. *)
Definition nowIso (clock : Z) : string := toISOString clock.


End Iso.

Module Uuid.

Definition hex_digit (n : N) : ascii :=
  match n with
  | 0 => "0" | 1 => "1" | 2 => "2" | 3 => "3" | 4 => "4" | 5 => "5"
  | 6 => "6" | 7 => "7" | 8 => "8" | 9 => "9" | 10 => "a" | 11 => "b"
  | 12 => "c" | 13 => "d" | 14 => "e" | _ => "f"
  end%N%char.

(** Two lower-case hex digits of the low byte of [b]. *)
Definition hex_byte (b : N) : string :=
  String (hex_digit (N.land (N.shiftr b 4) 15))
    (String (hex_digit (N.land b 15)) EmptyString).

(** Byte [i] (0 is the most significant) of a [len]-byte big-endian
    number. *)
Definition byte_at (len : nat) (n : N) (i : nat) : N :=
  N.land (N.shiftr n (8 * N.of_nat (len - 1 - i))) 255.

Definition hex_bytes (bytes : list N) : string :=
  String.concat "" (hex_byte <$> bytes).

(** Version and variant bits of an RFC 4122 version-4 identifier. *)
Definition stamp_v4 (i : nat) (b : N) : N :=
  match i with
  | 6%nat => N.lor 64 (N.land b 15)
  | 8%nat => N.lor 128 (N.land b 63)
  | _ => b
  end.

(** [crypto.randomUUID()]: 128 random bits [entropy], formatted as
    8-4-4-4-12 lower-case hex digits. *)
Definition randomUUID (entropy : N) : string :=
  let bytes := (fun i => stamp_v4 i (byte_at 16 entropy i)) <$> seq 0 16 in
  hex_bytes (take 4 bytes) ++ "-" ++
  hex_bytes (take 2 (drop 4 bytes)) ++ "-" ++
  hex_bytes (take 2 (drop 6 bytes)) ++ "-" ++
  hex_bytes (take 2 (drop 8 bytes)) ++ "-" ++
  hex_bytes (drop 10 bytes).

End Uuid.

(* ================================================================== *)
(** * JavaScript [Map]: insertion-ordered finite map *)
(* ================================================================== *)

Module JsMap.
Section JsMap.
Context {V : Type}.

Definition t := list (string * V).

(** [m.get(k)] *)
Fixpoint get (k : string) (m : list (string * V)) : option V :=
  match m with
  | [] => None
  | (k', v) :: rest => if String.eqb k k' then Some v else get k rest
  end.

(** [m.set(k, v)]: an existing key keeps its position, a new key goes to
    the end. *)
Fixpoint set (k : string) (v : V) (m : list (string * V)) : list (string * V) :=
  match m with
  | [] => [(k, v)]
  | (k', v') :: rest =>
      if String.eqb k k' then (k', v) :: rest else (k', v') :: set k v rest
  end.

(** The entries left by [m.delete(k)]. *)
Definition remove (k : string) (m : list (string * V)) : list (string * V) :=
  List.filter (fun kv => negb (String.eqb k (fst kv))) m.

(** [m.has(k)], which is also what [m.delete(k)] returns. *)
Definition has (k : string) (m : list (string * V)) : bool :=
  match get k m with Some _ => true | None => false end.

(** [[...m.values()]] *)
Definition values (m : list (string * V)) : list V := snd <$> m.

Definition keys (m : list (string * V)) : list string := fst <$> m.

(** [new Map(entries)] *)
Definition of_entries (entries : list (string * V)) : list (string * V) :=
  fold_left (fun m kv => set (fst kv) (snd kv) m) entries [].

End JsMap.
End JsMap.

(* ================================================================== *)
(** * Records shared by all stores *)
(* ================================================================== *)

(** [CrudItem]: an object with [id], [createdAt], [updatedAt] and any
    further fields. *)
Abbreviation CrudItem := (gmap string JsValue).

(** [item.id] read as a string key. *)
Definition item_id (item : CrudItem) : string :=
  match item !! "id" with
  | Some (JStr s) => s
  | _ => ""
  end.

(** The fields of a record other than [id], [createdAt], [updatedAt]. *)
Definition data_fields (item : CrudItem) : JsObject :=
  filter (fun kv => ¬ reserved (fst kv)) item.

(** [{ id, createdAt, updatedAt }] *)
Definition header (id createdAt updatedAt : string) : CrudItem :=
  <["id" := JStr id]>
    (<["createdAt" := JStr createdAt]> (<["updatedAt" := JStr updatedAt]> ∅)).

(* ================================================================== *)
(** * Memory store (crud/internal/store.ts) *)
(* ================================================================== *)

Module MemoryStore.

(** [const items = new Map<string, CrudItem>()] *)
Definition Store := list (string * CrudItem).

Definition empty : Store := [].

Definition getAll (items : Store) : list CrudItem := JsMap.values items.

(** [items.get(id) ?? null]; [None] is [null]. *)
Definition getById (id : string) (items : Store) : option CrudItem :=
  JsMap.get id items.

(** [create]: [clock] is the reading of [new Date()], [entropy] the bits
    drawn by [randomUUID()]. *)
Definition create (payload : JsValue) (clock : Z) (entropy : N)
    (items : Store) : CrudItem * Store :=
  let now := Iso.nowIso clock in
  let item := spread (header (Uuid.randomUUID entropy) now now)
                     (sanitizeClientPayload payload) in
  (item, JsMap.set (item_id item) item items).

Definition update (id : string) (payload : JsValue) (clock : Z)
    (items : Store) : option CrudItem * Store :=
  match JsMap.get id items with
  | None => (None, items)
  | Some existing =>
      let updated :=
        <["updatedAt" := JStr (Iso.nowIso clock)]>
          (spread existing (sanitizeClientPayload payload)) in
      (Some updated, JsMap.set id updated items)
  end.

(** [delete] is a keyword-free name in Rocq as well, kept as in the
    source. *)
Definition delete (id : string) (items : Store) : bool * Store :=
  (JsMap.has id items, JsMap.remove id items).

(** One call made against a store. *)
Inductive Call :=
  | CallCreate (payload : JsValue) (clock : Z) (entropy : N)
  | CallUpdate (id : string) (payload : JsValue) (clock : Z)
  | CallDelete (id : string).

Definition step (items : Store) (c : Call) : Store :=
  match c with
  | CallCreate payload clock entropy => snd (create payload clock entropy items)
  | CallUpdate id payload clock => snd (update id payload clock items)
  | CallDelete id => snd (delete id items)
  end.

(** The store after a sequence of calls on a fresh store. *)
Definition run (calls : list Call) : Store := fold_left step calls empty.

End MemoryStore.

(* ================================================================== *)
(** * File system and JSON text *)
(* ================================================================== *)

Module Json.

Definition is_undefined (v : JsValue) : bool :=
  match v with JUndefined => true | _ => false end.

(** What [JSON.parse(JSON.stringify(v))] yields: properties holding
    [undefined] are dropped, [undefined] array elements become [null]. *)
Fixpoint normalize (v : JsValue) : JsValue :=
  match v with
  | JArr items =>
      JArr (List.map (fun x => if is_undefined x then JNull else normalize x) items)
  | JObj fields =>
      JObj (filter (fun kv => is_undefined (snd kv) = false) (normalize <$> fields))
  | _ => v
  end.

(** [JSON.stringify(v)] holds the escape of U+0000: the character occurs
    in a string or in a property name of [v]. *)
Fixpoint escapes_nul (v : JsValue) : bool :=
  match v with
  | JStr s => has_nul s
  | JArr items => existsb escapes_nul items
  | JObj fields =>
      existsb (fun kb => has_nul (fst kb) || snd kb)
        (map_to_list (escapes_nul <$> fields))
  | _ => false
  end.

(** The text of a file, up to what [JSON.parse] makes of it: either the
    serialisation of a value or text that does not parse. *)
Inductive Text :=
  | Parseable (v : JsValue)
  | Corrupt (raw : string).

(** [JSON.parse(text)]; [None] is the thrown [SyntaxError]. *)
Definition parse (text : Text) : option JsValue :=
  match text with
  | Parseable v => Some v
  | Corrupt _ => None
  end.

(** [JSON.stringify(v, null, 2)] *)
Definition stringify (v : JsValue) : Text := Parseable (normalize v).

End Json.

Module Fs.

Inductive Node :=
  | File (content : Json.Text)
  | Dir.

(** A file system: what lives at each path. *)
Abbreviation t := (gmap string Node).

(** A computation on the file system; [None] is a thrown exception, the
    file system it leaves behind is returned either way. *)
Definition IO (A : Type) : Type := gmap string Node → option A * gmap string Node.

Definition ret {A} (x : A) : IO A := fun fs => (Some x, fs).

Definition bind {A B} (m : IO A) (k : A → IO B) : IO B :=
  fun fs => match m fs with
            | (Some x, fs') => k x fs'
            | (None, fs') => (None, fs')
            end.

(** [try { m } catch { h }] *)
Definition try_catch {A} (m : IO A) (h : IO A) : IO A :=
  fun fs => match m fs with
            | (Some x, fs') => (Some x, fs')
            | (None, fs') => h fs'
            end.

Definition throw {A} : IO A := fun fs => (None, fs).

Definition existsSync (path : string) : IO bool :=
  fun fs => (Some (bool_decide (is_Some (fs !! path))), fs).

(** Reading a missing path or a directory throws. *)
Definition readFileSync (path : string) : IO Json.Text :=
  fun fs => match fs !! path with
            | Some (File content) => (Some content, fs)
            | _ => (None, fs)
            end.

(** [mkdirSync(dir, { recursive: true })]: no error when the directory
    exists, an error when a file is in the way. *)
Definition mkdirSync (dir : string) : IO unit :=
  fun fs => match fs !! dir with
            | Some (File _) => (None, fs)
            | Some Dir => (Some tt, fs)
            | None => (Some tt, <[dir := Dir]> fs)
            end.

(** Writing onto a directory throws. *)
Definition writeFileSync (path : string) (data : Json.Text) : IO unit :=
  fun fs => match fs !! path with
            | Some Dir => (None, fs)
            | _ => (Some tt, <[path := File data]> fs)
            end.

(** [renameSync(src, dst)]: one atomic step; a missing source throws, a
    file cannot replace a directory nor a directory a file. *)
Definition renameSync (src dst : string) : IO unit :=
  fun fs => match fs !! src, fs !! dst with
            | None, _ => (None, fs)
            | Some (File _), Some Dir => (None, fs)
            | Some Dir, Some (File _) => (None, fs)
            | Some node, _ => (Some tt, <[dst := node]> (base.delete src fs))
            end.

End Fs.

(** stdpp's [x ← m; k] and [mret] for file-system computations. *)
#[global] Instance io_ret : MRet Fs.IO := @Fs.ret.
#[global] Instance io_bind : MBind Fs.IO := fun A B k m => Fs.bind m k.

(* ================================================================== *)
(** * File store (crud/internal/jsonFileStore.ts) *)
(* ================================================================== *)

Module Path.

(** The loop of Node's POSIX [path.dirname]: [rev_chars] holds
    [path[i], path[i-1], ...]; the result is the index [end], if any. *)
Fixpoint scan (rev_chars : list ascii) (i : nat) (matchedSlash : bool)
    : option nat :=
  match rev_chars, i with
  | c :: rest, S i' =>
      if Ascii.eqb c "/"
      then (if matchedSlash then scan rest i' true else Some i)
      else scan rest i' false
  | _, _ => None
  end.

(** [path.dirname(path)] on POSIX. *)
Definition dirname (path : string) : string :=
  let chars := list_ascii_of_string path in
  match chars with
  | [] => "."
  | first :: _ =>
      let hasRoot := Ascii.eqb first "/" in
      match scan (rev chars) (List.length chars - 1) true with
      | None => if hasRoot then "/" else "."
      | Some e => if hasRoot && (e =? 1)%nat then "//"
                  else String.substring 0 e path
      end
  end.

End Path.

Module JsonFileStore.

(** [isRecord] of jsonFileStore.ts: [!!value && typeof value === "object"] *)
Definition isRecord (value : JsValue) : bool :=
  truthy value && typeof_object value.

Definition typeof_string (v : JsValue) : bool :=
  match v with JStr _ => true | _ => false end.

Definition isCrudItem (value : JsValue) : bool :=
  if negb (isRecord value) then false
  else typeof_string (js_get (own_props value) "id")
       && typeof_string (js_get (own_props value) "createdAt")
       && typeof_string (js_get (own_props value) "updatedAt").

Definition isArray (v : JsValue) : bool :=
  match v with JArr _ => true | _ => false end.

Definition array_items (v : JsValue) : list JsValue :=
  match v with JArr items => items | _ => [] end.

(** The name the corrupt file is moved to; [clock] is [Date.now()]. *)
Definition backupPath (filePath : string) (clock : Z) : string :=
  filePath ++ ".corrupt-" ++ pretty clock.

(** [loadPersistedData(filePath)]: the items of [{ items }]. *)
Definition loadPersistedData (filePath : string) (clock : Z)
    : Fs.IO (list JsValue) :=
  present ← Fs.existsSync filePath;
  if negb present then mret []
  else
    raw ← Fs.try_catch (content ← Fs.readFileSync filePath; mret (Some content))
                       (mret None);
    match raw with
    | None => mret []
    | Some raw =>
        match Json.parse raw with
        | None =>
            (* Backup corrupt JSON to help debugging. *)
            _ ← Fs.try_catch (Fs.renameSync filePath (backupPath filePath clock))
                             (mret tt);
            mret []
        | Some parsed =>
            if negb (isRecord parsed) then mret []
            else
              let rawItems := js_get (own_props parsed) "items" in
              let itemsRaw := if isArray rawItems then array_items rawItems else [] in
              mret (List.filter isCrudItem itemsRaw)
        end
    end.

(** The temporary file of one write; [pid] is [process.pid], [clock] is
    [Date.now()]. *)
Definition tempPath (filePath : string) (pid : nat) (clock : Z) : string :=
  filePath ++ ".tmp-" ++ pretty pid ++ "-" ++ pretty clock.

Definition atomicWriteJson (filePath : string) (data : JsValue)
    (pid : nat) (clock : Z) : Fs.IO unit :=
  let dir := Path.dirname filePath in
  _ ← Fs.mkdirSync dir;
  let tempPath := tempPath filePath pid clock in
  let json := Json.stringify data in
  _ ← Fs.writeFileSync tempPath json;
  Fs.renameSync tempPath filePath.

(** The closure state of one store: its path and its index. *)
Record Store := mkStore {
  filePath : string;
  items : list (string * CrudItem);
}.

(** [createJsonFileStore(opts)]: loads the file into the index. *)
Definition createJsonFileStore (path : string) (clock : Z)
    (fs : gmap string Fs.Node) : Store * gmap string Fs.Node :=
  match loadPersistedData path clock fs with
  | (Some persisted, fs') =>
      (mkStore path
         (JsMap.of_entries ((fun item => (item_id (own_props item), own_props item))
                              <$> persisted)), fs')
  | (None, fs') => (mkStore path [], fs')
  end.

(** [{ items: [...items.values()] }] *)
Definition persisted_data (index : list (string * CrudItem)) : JsValue :=
  JObj {[ "items" := JArr (JObj <$> JsMap.values index) ]}.

Definition flush (st : Store) (pid : nat) (clock : Z) : Fs.IO unit :=
  atomicWriteJson (filePath st) (persisted_data (items st)) pid clock.

Definition getAll (st : Store) : list CrudItem := JsMap.values (items st).

Definition getById (id : string) (st : Store) : option CrudItem :=
  JsMap.get id (items st).

(** The mutating calls return the call's result ([None] when [flush]
    threw), the store and the file system. [clock] is read by [nowIso()],
    [wclock] by [Date.now()] inside [atomicWriteJson]. *)
Definition create (payload : JsValue) (clock : Z) (entropy : N)
    (pid : nat) (wclock : Z) (st : Store) (fs : gmap string Fs.Node)
    : option CrudItem * Store * gmap string Fs.Node :=
  let now := Iso.nowIso clock in
  let item := spread (header (Uuid.randomUUID entropy) now now)
                     (sanitizeClientPayload payload) in
  let st' := mkStore (filePath st) (JsMap.set (item_id item) item (items st)) in
  match flush st' pid wclock fs with
  | (Some _, fs') => (Some item, st', fs')
  | (None, fs') => (None, st', fs')
  end.

Definition update (id : string) (payload : JsValue) (clock : Z)
    (pid : nat) (wclock : Z) (st : Store) (fs : gmap string Fs.Node)
    : option (option CrudItem) * Store * gmap string Fs.Node :=
  match JsMap.get id (items st) with
  | None => (Some None, st, fs)
  | Some existing =>
      let updated :=
        <["updatedAt" := JStr (Iso.nowIso clock)]>
          (spread existing (sanitizeClientPayload payload)) in
      let st' := mkStore (filePath st) (JsMap.set id updated (items st)) in
      match flush st' pid wclock fs with
      | (Some _, fs') => (Some (Some updated), st', fs')
      | (None, fs') => (None, st', fs')
      end
  end.

Definition delete (id : string) (pid : nat) (wclock : Z) (st : Store)
    (fs : gmap string Fs.Node)
    : option bool * Store * gmap string Fs.Node :=
  let didDelete := JsMap.has id (items st) in
  let st' := mkStore (filePath st) (JsMap.remove id (items st)) in
  if didDelete then
    match flush st' pid wclock fs with
    | (Some _, fs') => (Some true, st', fs')
    | (None, fs') => (None, st', fs')
    end
  else (Some false, st', fs).

End JsonFileStore.

(* ================================================================== *)
(** * Entity schemas (model/fields.ts, model/registry.ts) *)
(* ================================================================== *)

Inductive FieldType := TString | TNumber | TBoolean.

Record FieldDefinition := mkField {
  type : FieldType;
  isOptional : bool;
}.

(** [ModelSchema]: field name to definition, in declaration order. *)
Abbreviation ModelSchema := (list (string * FieldDefinition)).

Record ModelDefinition := mkModel {
  name : string;
  schema : ModelSchema;
}.

(** What [for (const key in schema)] iterates over. *)
Definition schema_keys (s : ModelSchema) : list string := fst <$> s.

(** A result or a thrown [Error] with its message. *)
Inductive Result (A : Type) :=
  | Ok (value : A)
  | Err (message : string).
Arguments Ok {A} value.
Arguments Err {A} message.

(** The text order on identifiers used by [ORDER BY id ASC] and by
    [sort({ _id: 1 })] on hex-rendered object ids. *)
Definition str_le (a b : string) : Prop := String.leb a b = true.

#[global] Instance str_le_dec a b : Decision (str_le a b).
Proof. unfold str_le. apply _. Defined.

(* ================================================================== *)
(** * BSON as the driver writes it *)
(* ================================================================== *)

Module Bson.

(** A value as it is read back after the driver has serialised it:
    [undefined] inside an array or an object is written as [null] (the
    client is constructed without [ignoreUndefined]). *)
Fixpoint normalize (v : JsValue) : JsValue :=
  match v with
  | JUndefined => JNull
  | JArr items => JArr (List.map normalize items)
  | JObj fields => JObj (normalize <$> fields)
  | _ => v
  end.

(** A property name of the value holds U+0000: the serialiser throws. *)
Fixpoint key_has_nul (v : JsValue) : bool :=
  match v with
  | JArr items => existsb key_has_nul items
  | JObj fields =>
      existsb (fun kb => has_nul (fst kb) || snd kb)
        (map_to_list (key_has_nul <$> fields))
  | _ => false
  end.

Definition key_error : string := "key must not contain null bytes".

End Bson.

(* ================================================================== *)
(** * Document adapter (db/mongoAdapter.ts) *)
(* ================================================================== *)

Module Mongo.

(** An [ObjectId] is kept as its canonical rendering, 24 lower-case hex
    digits; [toHexString] is then the identity. *)
Definition ObjectId := string.

Definition toHexString (oid : ObjectId) : string := oid.

(** [new ObjectId()]: twelve fresh bytes. *)
Definition generate (entropy : N) : ObjectId :=
  Uuid.hex_bytes (Uuid.byte_at 12 entropy <$> seq 0 12).

Definition is_hex (c : ascii) : bool :=
  let n := nat_of_ascii c in
  ((48 <=? n) && (n <=? 57) || (97 <=? n) && (n <=? 102)
   || (65 <=? n) && (n <=? 70))%nat.

Definition lower (c : ascii) : ascii :=
  let n := nat_of_ascii c in
  if ((65 <=? n) && (n <=? 70))%nat then ascii_of_nat (n + 32) else c.

Fixpoint all_hex (s : string) : bool :=
  match s with
  | EmptyString => true
  | String c rest => is_hex c && all_hex rest
  end.

Fixpoint lower_string (s : string) : string :=
  match s with
  | EmptyString => EmptyString
  | String c rest => String (lower c) (lower_string rest)
  end.

(** [tryParseObjectId(raw)]: [new ObjectId(raw)] accepts a string of 24
    hex digits and throws on any other string. *)
Definition tryParseObjectId (raw : string) : option ObjectId :=
  if (String.length raw =? 24)%nat && all_hex raw
  then Some (lower_string raw) else None.

(** [modelToCollectionName]: lower-cased name plus "s", every character
    outside [a-z0-9_] replaced by "_". *)
Definition to_lower (c : ascii) : ascii :=
  let n := nat_of_ascii c in
  if ((65 <=? n) && (n <=? 90))%nat then ascii_of_nat (n + 32) else c.

Definition keep_lower_ident (c : ascii) : ascii :=
  let n := nat_of_ascii c in
  if ((97 <=? n) && (n <=? 122) || (48 <=? n) && (n <=? 57) || (n =? 95))%nat
  then c else "_"%char.

Fixpoint map_chars (f : ascii → ascii) (s : string) : string :=
  match s with
  | EmptyString => EmptyString
  | String c rest => String (f c) (map_chars f rest)
  end.

Definition modelToCollectionName (model : ModelDefinition) : string :=
  let base := map_chars to_lower (name model) ++ "s" in
  map_chars keep_lower_ident base.

(** [asMongoOpError(op, modelName, err)], as the message of the error. *)
Definition asMongoOpError (op : string) (modelName : option string)
    (msg : string) : string :=
  let prefix := match modelName with
                | Some n => if String.eqb n "" then "MongoDB"
                            else "MongoDB (" ++ n ++ ")"
                | None => "MongoDB"
                end in
  prefix ++ " " ++ op ++ " failed: " ++ msg.

(** [StoredDoc]: [_id], two dates (milliseconds since the epoch) and the
    schema fields as first-class document fields. The adapter functions
    below are the source's for schemas whose field names are names of
    one document field each: a schema field called [_id], a name with a
    dot or a leading [$], and a name that the payload inherits from
    [Object.prototype] are outside this model (see [ordinary_name]). *)
Record StoredDoc := mkDoc {
  _id : option ObjectId;
  createdAt : Z;
  updatedAt : Z;
  rest : JsObject;
}.

(** [splitStructuredPatch(schema, payload)]: [$set] and [$unset].
    [raw[key]] is read on the sanitized payload itself, as it is for
    every key that [Object.prototype] does not define. *)
Definition splitStructuredPatch (schema : ModelSchema) (payload : JsValue)
    : JsObject * gmap string string :=
  let raw := sanitizeClientPayload payload in
  fold_left
    (fun acc key =>
       let '(set, unset) := acc in
       match js_get raw key with
       | JUndefined => (set, unset)
       | JNull => (set, <[key := ""]> unset)
       | value => (<[key := value]> set, unset)
       end)
    (schema_keys schema) (∅, ∅).

(** [pickStructuredInsert(schema, payload)]; [raw[key]] is read on the
    sanitized payload itself, as it is for every key that
    [Object.prototype] does not define. *)
Definition pickStructuredInsert (schema : ModelSchema) (payload : JsValue)
    : JsObject :=
  let raw := sanitizeClientPayload payload in
  fold_left
    (fun picked key =>
       match js_get raw key with
       | JUndefined | JNull => picked
       | value => <[key := value]> picked
       end)
    (schema_keys schema) ∅.

(** The [bsonType] constraints [schemaToJsonSchema] emits. *)
Inductive BsonType := BObjectId | BDate | BString | BNumeric | BBool.

Record JsonSchema := mkJsonSchema {
  required : list string;
  properties : gmap string BsonType;
}.

Definition bson_of_field (f : FieldDefinition) : BsonType :=
  match type f with
  | TString => BString
  | TNumber => BNumeric
  | TBoolean => BBool
  end.

(** [schemaToJsonSchema(schema)]; [additionalProperties] is [true]. *)
Definition schemaToJsonSchema (schema : ModelSchema) : JsonSchema :=
  fold_left
    (fun js kf =>
       mkJsonSchema
         (if isOptional (snd kf) then required js else required js ++ [fst kf])
         (<[fst kf := bson_of_field (snd kf)]> (properties js)))
    schema
    (mkJsonSchema ["_id"; "createdAt"; "updatedAt"]
       (<["_id" := BObjectId]>
          (<["createdAt" := BDate]> (<["updatedAt" := BDate]> ∅)))).

(** [docToCrudItem(doc)] *)
Definition docToCrudItem (doc : StoredDoc) : Result CrudItem :=
  match _id doc with
  | None => Err "MongoDB document is missing _id"
  | Some oid =>
      Ok (spread (header (toHexString oid) (Iso.toISOString (createdAt doc))
                    (Iso.toISOString (updatedAt doc)))
            (rest doc))
  end.

(** ** The collection as the server keeps it *)

(** The kinds of value a validator distinguishes. *)
Inductive BsonValue := VObjectId | VDate | VJs (v : JsValue).

Definition doc_field (doc : StoredDoc) (key : string) : option BsonValue :=
  if String.eqb key "_id" then (fun _ => VObjectId) <$> _id doc
  else if String.eqb key "createdAt" then Some VDate
  else if String.eqb key "updatedAt" then Some VDate
  else VJs <$> (rest doc !! key).

Definition bson_matches (ty : BsonType) (v : BsonValue) : bool :=
  match ty, v with
  | BObjectId, VObjectId => true
  | BDate, VDate => true
  | BString, VJs (JStr _) => true
  | BNumeric, VJs (JNum _) => true
  | BBool, VJs (JBool _) => true
  | _, _ => false
  end.

(** A document satisfies [{ $jsonSchema }]: every required field is
    present and every constrained field that is present has its type. *)
Definition satisfies (js : JsonSchema) (doc : StoredDoc) : bool :=
  forallb (fun key => bool_decide (is_Some (doc_field doc key))) (required js)
  && forallb (fun kt => match doc_field doc (fst kt) with
                        | Some v => bson_matches (snd kt) v
                        | None => true
                        end)
             (map_to_list (properties js)).

(** A collection: the validator installed at bootstrap, if that
    succeeded, the documents in storage order, and whether the driver
    wraps [findOneAndUpdate] results in [{ value, ok }]. *)
Record Collection := mkCollection {
  validator : option JsonSchema;
  docs : list StoredDoc;
  wraps_result : bool;
}.

Definition with_docs (c : Collection) (ds : list StoredDoc) : Collection :=
  mkCollection (validator c) ds (wraps_result c).

Definition has_id (oid : ObjectId) (doc : StoredDoc) : bool :=
  match _id doc with
  | Some o => String.eqb o oid
  | None => false
  end.

(** [col.findOne({ _id })] *)
Definition findOne (oid : ObjectId) (c : Collection) : option StoredDoc :=
  List.find (has_id oid) (docs c).

Definition id_le (a b : StoredDoc) : Prop :=
  str_le (default "" (_id a)) (default "" (_id b)).

#[global] Instance id_le_dec a b : Decision (id_le a b).
Proof. unfold id_le. apply _. Defined.

(** [col.find({}).sort({ _id: 1 }).toArray()] *)
Definition find_sorted (c : Collection) : list StoredDoc :=
  merge_sort id_le (docs c).

Definition admits (c : Collection) (doc : StoredDoc) : bool :=
  match validator c with
  | Some js => satisfies js doc
  | None => true
  end.

(** The document as the serialiser writes it. *)
Definition serialize (doc : StoredDoc) : StoredDoc :=
  mkDoc (_id doc) (createdAt doc) (updatedAt doc) (Bson.normalize <$> rest doc).

(** [col.insertOne(doc)]: the serialiser can throw, and the unique index
    on [_id] and the validator can reject the document; what is stored is
    the document as serialised. *)
Definition insertOne (doc : StoredDoc) (c : Collection)
    : Result ObjectId * Collection :=
  match _id doc with
  | None => (Err "document has no _id", c)
  | Some oid =>
      if Bson.key_has_nul (JObj (rest doc)) then (Err Bson.key_error, c)
      else if existsb (has_id oid) (docs c)
      then (Err "E11000 duplicate key error", c)
      else if negb (admits c (serialize doc))
      then (Err "Document failed validation", c)
      else (Ok oid, with_docs c (docs c ++ [serialize doc]))
  end.

(** The update document built by [update]. *)
Record UpdateSpec := mkUpdate {
  set_fields : JsObject;
  set_updatedAt : Z;
  unset_fields : option (gmap string string);
}.

(** The document after [$set] and [$unset]; the values set are the
    serialised ones. *)
Definition apply_update (u : UpdateSpec) (doc : StoredDoc) : StoredDoc :=
  let after_set := spread (rest doc) (Bson.normalize <$> set_fields u) in
  let after_unset :=
    match unset_fields u with
    | Some unset => filter (fun kv => unset !! fst kv = None) after_set
    | None => after_set
    end in
  mkDoc (_id doc) (createdAt doc) (set_updatedAt u) after_unset.

Fixpoint replace_doc (oid : ObjectId) (new : StoredDoc) (ds : list StoredDoc)
    : list StoredDoc :=
  match ds with
  | [] => []
  | d :: ds' => if has_id oid d then new :: ds' else d :: replace_doc oid new ds'
  end.

(** What the driver hands back from [findOneAndUpdate]. *)
Inductive DriverResult :=
  | ResNull
  | ResWrapped (value : option StoredDoc)
  | ResPlain (doc : StoredDoc).

Definition driver_result (c : Collection) (doc : option StoredDoc)
    : DriverResult :=
  if wraps_result c then ResWrapped doc
  else match doc with Some d => ResPlain d | None => ResNull end.

(** The serialiser takes the update document: no property name in it
    holds U+0000. *)
Definition serializable (u : UpdateSpec) : bool :=
  negb (Bson.key_has_nul (JObj (set_fields u)))
  && match unset_fields u with
     | Some unset => negb (existsb (fun kv => has_nul (fst kv)) (map_to_list unset))
     | None => true
     end.

(** [col.findOneAndUpdate(lookup, update, { returnDocument: "after" })]
    under [validationLevel: "moderate"]: a document that satisfied the
    validator must still satisfy it. The serialiser throws before
    anything is sent. *)
Definition findOneAndUpdate (oid : ObjectId) (u : UpdateSpec) (c : Collection)
    : Result DriverResult * Collection :=
  if negb (serializable u) then (Err Bson.key_error, c)
  else
    match findOne oid c with
    | None => (Ok (driver_result c None), c)
    | Some old =>
        let new := apply_update u old in
        if admits c old && negb (admits c new)
        then (Err "Document failed validation", c)
        else (Ok (driver_result c (Some new)),
              with_docs c (replace_doc oid new (docs c)))
    end.

(** [col.deleteOne(lookup)] and its [deletedCount > 0]. *)
Fixpoint remove_first (oid : ObjectId) (ds : list StoredDoc) : list StoredDoc :=
  match ds with
  | [] => []
  | d :: ds' => if has_id oid d then ds' else d :: remove_first oid ds'
  end.

Definition deleteOne (oid : ObjectId) (c : Collection) : bool * Collection :=
  (existsb (has_id oid) (docs c), with_docs c (remove_first oid (docs c))).

(** ** The store *)

(** What [unwrapFindOneAndUpdateResult] returns: nothing, a document, or
    the [value] property of a plain document that has one. *)
Inductive Unwrapped :=
  | UNull
  | UDoc (doc : StoredDoc)
  | UValue (v : JsValue).

Definition unwrapFindOneAndUpdateResult (result : DriverResult) : Unwrapped :=
  match result with
  | ResNull => UNull
  | ResWrapped (Some d) => UDoc d
  | ResWrapped None => UNull
  | ResPlain d =>
      match rest d !! "value" with
      | Some JUndefined | Some JNull => UNull
      | Some v => UValue v
      | None => UDoc d
      end
  end.

(** [buildLookup(id)]: [None] is [{ _id: null }]. *)
Definition buildLookup (id : string) : option ObjectId := tryParseObjectId id.

Definition wrap {A} (op : string) (model : ModelDefinition) (r : Result A)
    : Result A :=
  match r with
  | Ok v => Ok v
  | Err msg => Err (asMongoOpError op (Some (name model)) msg)
  end.

Fixpoint sequence_results {A} (rs : list (Result A)) : Result (list A) :=
  match rs with
  | [] => Ok []
  | Ok v :: rs' => match sequence_results rs' with
                   | Ok vs => Ok (v :: vs)
                   | Err m => Err m
                   end
  | Err m :: _ => Err m
  end.

Definition getAll (model : ModelDefinition) (c : Collection)
    : Result (list CrudItem) :=
  wrap "getAll" model (sequence_results (docToCrudItem <$> find_sorted c)).

Definition getById (model : ModelDefinition) (id : string) (c : Collection)
    : Result (option CrudItem) :=
  wrap ("getById(" ++ id ++ ")") model
    match buildLookup id with
    | None => Ok None
    | Some oid =>
        match findOne oid c with
        | Some doc => match docToCrudItem doc with
                      | Ok item => Ok (Some item)
                      | Err m => Err m
                      end
        | None => Ok None
        end
    end.

(** [clock] is the reading of [now()], [entropy] feeds [new ObjectId()]. *)
Definition create (model : ModelDefinition) (payload : JsValue) (clock : Z)
    (entropy : N) (c : Collection) : Result CrudItem * Collection :=
  let timestamp := clock in
  let structured := pickStructuredInsert (schema model) payload in
  let oid := generate entropy in
  let doc := mkDoc (Some oid) timestamp timestamp structured in
  match insertOne doc c with
  | (Ok insertedId, c') =>
      (wrap "create" model
         (docToCrudItem (mkDoc (Some insertedId) (createdAt doc)
                           (updatedAt doc) (rest doc))), c')
  | (Err m, c') => (wrap "create" model (Err m), c')
  end.

Definition update (model : ModelDefinition) (id : string) (payload : JsValue)
    (clock : Z) (c : Collection) : Result (option CrudItem) * Collection :=
  let op := "update(" ++ id ++ ")" in
  match buildLookup id with
  | None => (Ok None, c)
  | Some oid =>
      let '(set, unset) := splitStructuredPatch (schema model) payload in
      let u := mkUpdate set clock
                 (if bool_decide (unset = ∅) then None else Some unset) in
      match findOneAndUpdate oid u c with
      | (Err m, c') => (wrap op model (Err m), c')
      | (Ok result, c') =>
          (wrap op model
             match unwrapFindOneAndUpdateResult result with
             | UNull => Ok None
             | UDoc doc => match docToCrudItem doc with
                           | Ok item => Ok (Some item)
                           | Err m => Err m
                           end
             | UValue v =>
                 if truthy v
                 then (if truthy (js_get (own_props v) "_id")
                       then Err "_id.toHexString is not a function"
                       else Err "MongoDB document is missing _id")
                 else Ok None
             end, c')
      end
  end.

Definition delete (model : ModelDefinition) (id : string) (c : Collection)
    : Result bool * Collection :=
  match buildLookup id with
  | None => (Ok false, c)
  | Some oid => let '(found, c') := deleteOne oid c in (Ok found, c')
  end.

End Mongo.

(* ================================================================== *)
(** * Relational adapter (db/postgresAdapter.ts) *)
(* ================================================================== *)

Module Postgres.

Definition asPostgresOpError (op : string) (modelName : option string)
    (msg : string) : string :=
  let prefix := match modelName with
                | Some n => if String.eqb n "" then "Postgres"
                            else "Postgres (" ++ n ++ ")"
                | None => "Postgres"
                end in
  prefix ++ " " ++ op ++ " failed: " ++ msg.

Definition is_ident_start (c : ascii) : bool :=
  let n := nat_of_ascii c in
  ((65 <=? n) && (n <=? 90) || (97 <=? n) && (n <=? 122) || (n =? 95))%nat.

Definition is_ident_char (c : ascii) : bool :=
  let n := nat_of_ascii c in
  (is_ident_start c || (48 <=? n) && (n <=? 57))%nat.

Fixpoint all_chars (p : ascii → bool) (s : string) : bool :=
  match s with
  | EmptyString => true
  | String c rest => p c && all_chars p rest
  end.

Definition quote : string := String (ascii_of_nat 34) EmptyString.

(** [safeIdentifier(name)]: the pattern [^[A-Za-z_][A-Za-z0-9_]*$]. *)
Definition safeIdentifier (ident : string) : Result string :=
  match ident with
  | String c rest =>
      if is_ident_start c && all_chars is_ident_char rest
      then Ok (quote ++ ident ++ quote)
      else Err ("Invalid SQL identifier: " ++ ident ++
                ". Use letters, numbers, and underscores only (must not start with a number).")
  | EmptyString =>
      Err ("Invalid SQL identifier: " ++ ident ++
           ". Use letters, numbers, and underscores only (must not start with a number).")
  end.

Definition keep_ident (c : ascii) : ascii :=
  if is_ident_char c then c else "_"%char.

(** [modelToTableName(model)] *)
Definition modelToTableName (model : ModelDefinition) : string :=
  let base := Mongo.map_chars Mongo.to_lower (name model) ++ "s" in
  Mongo.map_chars keep_ident base.

(** [CrudRow]; the driver hands [timestamptz] columns over as dates
    (milliseconds since the epoch). *)
Record CrudRow := mkRow {
  id : string;
  created_at : Z;
  updated_at : Z;
  data : JsObject;
}.

Definition nowIsoFromPg (value : Z) : string := Iso.toISOString value.

Definition rowToCrudItem (row : CrudRow) : CrudItem :=
  spread (header (id row) (nowIsoFromPg (created_at row))
            (nowIsoFromPg (updated_at row)))
         (data row).

(** ** The table as the server keeps it *)

(** Rows in storage order; [id] is the primary key. *)
Definition Table := list CrudRow.

(** [$2::jsonb] of [JSON.stringify(obj)] *)
Definition to_jsonb (obj : JsObject) : JsObject :=
  match Json.normalize (JObj obj) with
  | JObj fields => fields
  | _ => ∅
  end.

Definition has_id (key : string) (row : CrudRow) : bool := String.eqb (id row) key.

Definition row_le (a b : CrudRow) : Prop := str_le (id a) (id b).

#[global] Instance row_le_dec a b : Decision (row_le a b).
Proof. unfold row_le. apply _. Defined.

(** [SELECT ... ORDER BY id ASC] *)
Definition select_all (t : Table) : list CrudRow := merge_sort row_le t.

(** The server holds no U+0000 in text: it refuses a text parameter with
    the character, and [$2::jsonb] refuses JSON text that escapes it. The
    parameters are read before the statement runs, whether or not a row
    matches. *)
Definition text_error : string := "invalid byte sequence for encoding UTF8: 0x00".

Definition jsonb_error : string := "unsupported Unicode escape sequence".

Definition bind_text (key : string) : Result unit :=
  if has_nul key then Err text_error else Ok tt.

(** [json] is what [JSON.stringify] wrote, as [to_jsonb] gives it. *)
Definition bind_jsonb (json : JsObject) : Result unit :=
  if Json.escapes_nul (JObj json) then Err jsonb_error else Ok tt.

(** [SELECT ... WHERE id = $1] *)
Definition select_by_id (key : string) (t : Table) : Result (list CrudRow) :=
  match bind_text key with
  | Err m => Err m
  | Ok _ => Ok (List.filter (has_id key) t)
  end.

(** [INSERT INTO ... (id, data) VALUES ($1, $2::jsonb) RETURNING ...];
    both timestamps default to [NOW()], read as [dbnow]. *)
Definition insert (key : string) (json : JsObject) (dbnow : Z) (t : Table)
    : Result (list CrudRow) * Table :=
  match bind_text key, bind_jsonb json with
  | Err m, _ | Ok _, Err m => (Err m, t)
  | Ok _, Ok _ =>
      if existsb (has_id key) t
      then (Err "duplicate key value violates unique constraint", t)
      else let row := mkRow key dbnow dbnow json in (Ok [row], (t ++ [row])%list)
  end.

(** [UPDATE ... SET data = COALESCE(data, '{}') || $2::jsonb,
    updated_at = NOW() WHERE id = $1 RETURNING ...] *)
Definition merge_row (patch : JsObject) (dbnow : Z) (row : CrudRow) : CrudRow :=
  mkRow (id row) (created_at row) dbnow (spread (data row) patch).

Definition update_merge (key : string) (patch : JsObject) (dbnow : Z)
    (t : Table) : Result (list CrudRow) * Table :=
  match bind_text key, bind_jsonb patch with
  | Err m, _ | Ok _, Err m => (Err m, t)
  | Ok _, Ok _ =>
      (Ok (merge_row patch dbnow <$> List.filter (has_id key) t),
       (fun row => if has_id key row then merge_row patch dbnow row else row) <$> t)
  end.

(** [DELETE FROM ... WHERE id = $1] and its [rowCount]. *)
Definition delete_by_id (key : string) (t : Table) : Result nat * Table :=
  match bind_text key with
  | Err m => (Err m, t)
  | Ok _ =>
      (Ok (List.length (List.filter (has_id key) t)),
       List.filter (fun row => negb (has_id key row)) t)
  end.

(** ** The store *)

Definition wrap {A} (op : string) (model : ModelDefinition) (r : Result A)
    : Result A :=
  match r with
  | Ok v => Ok v
  | Err msg => Err (asPostgresOpError op (Some (name model)) msg)
  end.

Definition getAll (model : ModelDefinition) (t : Table) : Result (list CrudItem) :=
  wrap "getAll" model (Ok (rowToCrudItem <$> select_all t)).

Definition getById (model : ModelDefinition) (key : string) (t : Table)
    : Result (option CrudItem) :=
  wrap ("getById(" ++ key ++ ")") model
    match select_by_id key t with
    | Ok (row :: _) => Ok (Some (rowToCrudItem row))
    | Ok [] => Ok None
    | Err m => Err m
    end.

Definition create (model : ModelDefinition) (payload : JsValue)
    (entropy : N) (dbnow : Z) (t : Table) : Result CrudItem * Table :=
  let data := sanitizeClientPayload payload in
  let key := Uuid.randomUUID entropy in
  match insert key (to_jsonb data) dbnow t with
  | (Ok (row :: _), t') => (wrap "create" model (Ok (rowToCrudItem row)), t')
  | (Ok [], t') => (wrap "create" model (Err "Postgres insert returned no row."), t')
  | (Err m, t') => (wrap "create" model (Err m), t')
  end.

Definition update (model : ModelDefinition) (key : string) (payload : JsValue)
    (dbnow : Z) (t : Table) : Result (option CrudItem) * Table :=
  let patch := sanitizeClientPayload payload in
  let '(rows, t') := update_merge key (to_jsonb patch) dbnow t in
  (wrap ("update(" ++ key ++ ")") model
     match rows with
     | Ok (row :: _) => Ok (Some (rowToCrudItem row))
     | Ok [] => Ok None
     | Err m => Err m
     end, t').

Definition delete (model : ModelDefinition) (key : string) (t : Table)
    : Result bool * Table :=
  let '(rowCount, t') := delete_by_id key t in
  (wrap ("delete(" ++ key ++ ")") model
     match rowCount with
     | Ok n => Ok (0 <? n)%nat
     | Err m => Err m
     end, t').

End Postgres.

(* ================================================================== *)
(** * Adapter factory (db/adapter.ts) *)
(* ================================================================== *)

Module Factory.

Record JsonSection := mkJson { json_dir : option string }.

Record PostgresSection := mkPg {
  pg_connectionString : option string;
  pg_schema : option string;
}.

Record MongoSection := mkMg {
  mg_connectionString : option string;
  mg_dbName : option string;
  mg_collectionPrefix : option string;
}.

(** [DbConfig]; [adapter] is whatever value the configuration file put
    there, [JUndefined] when the key is missing. *)
Record DbConfig := mkConfig {
  adapter : JsValue;
  json : option JsonSection;
  postgres : option PostgresSection;
  mongodb : option MongoSection;
}.

Record PostgresDbConfig := mkPgCfg {
  pgc_connectionString : string;
  pgc_schema : option string;
}.

Record MongoDbConfig := mkMgCfg {
  mgc_connectionString : string;
  mgc_dbName : string;
  mgc_collectionPrefix : option string;
}.

(** Which adapter was constructed, with what it was given. *)
Inductive DbAdapter :=
  | MemoryDbAdapter
  | JsonFileDbAdapter (projectRoot : string) (dir : string)
  | PostgresDbAdapter (cfg : PostgresDbConfig)
  | MongoDbAdapter (cfg : MongoDbConfig).

Definition kind (a : DbAdapter) : string :=
  match a with
  | MemoryDbAdapter => "memory"
  | JsonFileDbAdapter _ _ => "json-file"
  | PostgresDbAdapter _ => "postgres"
  | MongoDbAdapter _ => "mongodb"
  end.

(** [process.env] *)
Abbreviation Env := (gmap string string).

(** [a ?? b] *)
Definition coalesce {A} (a b : option A) : option A :=
  match a with Some x => Some x | None => b end.

(** [!s] for an optional string. *)
Definition falsy (s : option string) : bool :=
  match s with
  | None => true
  | Some x => String.eqb x ""
  end.

Definition createMemoryDbAdapter : DbAdapter := MemoryDbAdapter.

(** [createJsonFileDbAdapter(projectRoot, dirOverride)]; the directory is
    kept as given, its resolution against [projectRoot] is left to the
    adapter. *)
Definition createJsonFileDbAdapter (projectRoot : string)
    (dirOverride : option string) : DbAdapter :=
  JsonFileDbAdapter projectRoot (default ".railnode/db" dirOverride).

Definition pg_missing : string :=
  "Postgres db adapter requires a connection string. Set db.postgres.connectionString in backend.config.*, or set DATABASE_URL.".

Definition mongo_uri_missing : string :=
  "MongoDB db adapter requires a connection string. Set db.mongodb.connectionString in backend.config.*, or set MONGODB_URI.".

Definition mongo_db_missing : string :=
  "MongoDB db adapter requires a database name. Set db.mongodb.dbName in backend.config.*, or set MONGODB_DB.".

(** [v === s], as the [case] labels of a [switch] compare. *)
Definition strict_eq (v : JsValue) (s : string) : bool :=
  match v with
  | JStr x => String.eqb x s
  | _ => false
  end.

(** [createDbAdapter(projectRoot, config)]; [Err] is the thrown error. *)
Definition createDbAdapter (projectRoot : string) (config : option DbConfig)
    (env : gmap string string) : Result DbAdapter :=
  let adapter :=
    match adapter <$> config with
    | None | Some JUndefined | Some JNull => JStr "memory"
    | Some v => v
    end in
  if strict_eq adapter "memory" then Ok createMemoryDbAdapter
  else if strict_eq adapter "json" then
    Ok (createJsonFileDbAdapter projectRoot ((config ≫= json) ≫= json_dir))
  else if strict_eq adapter "postgres" then
    let connectionString :=
      coalesce ((config ≫= postgres) ≫= pg_connectionString)
               (env !! "DATABASE_URL") in
    if falsy connectionString then Err pg_missing
    else Ok (PostgresDbAdapter
               (mkPgCfg (default "" connectionString)
                        ((config ≫= postgres) ≫= pg_schema)))
  else if strict_eq adapter "mongodb" then
    let connectionString :=
      coalesce ((config ≫= mongodb) ≫= mg_connectionString)
               (env !! "MONGODB_URI") in
    let dbName :=
      coalesce ((config ≫= mongodb) ≫= mg_dbName) (env !! "MONGODB_DB") in
    if falsy connectionString then Err mongo_uri_missing
    else if falsy dbName then Err mongo_db_missing
    else Ok (MongoDbAdapter
               (mkMgCfg (default "" connectionString) (default "" dbName)
                        ((config ≫= mongodb) ≫= mg_collectionPrefix)))
  else
    (* If config is provided from JS (not JSON), keep runtime safe. *)
    Ok createMemoryDbAdapter.

(** [needle] occurs in [text]. *)
Fixpoint contains (needle text : string) : bool :=
  String.prefix needle text ||
  match text with
  | EmptyString => false
  | String _ rest => contains needle rest
  end.

End Factory.

(* ================================================================== *)
(** * Bootstrap memoization ([ensureTable], [ensureCollection]) *)
(* ================================================================== *)

Module Bootstrap.

Inductive Outcome := Pending | Fulfilled | Rejected.

(** One promise created by a bootstrap attempt for the cache key
    [key_of]. *)
Record Promise := mkPromise {
  key_of : string;
  outcome : Outcome;
}.

(** [tableReady] / [collectionCache] and every promise created so far;
    a promise is named by its index in [promises]. *)
Record State := mkState {
  cache : gmap string nat;
  promises : list Promise;
}.

Definition init : State := mkState ∅ [].

(** The cache key of [ensureTable]: [`${schema}.${table}`]. *)
Definition table_key (pg_schema : string) (model : ModelDefinition) : string :=
  pg_schema ++ "." ++ Postgres.modelToTableName model.

(** The cache key of [ensureCollection]:
    [`${cfg.collectionPrefix ?? ""}${baseName}`]. *)
Definition collection_key (prefix : option string) (model : ModelDefinition)
    : string :=
  default "" prefix ++ Mongo.modelToCollectionName model.

(** The synchronous part of [ensureTable] / [ensureCollection]: return
    the cached promise, or start the bootstrap, cache its guarded
    promise and return it. *)
Definition ensure (key : string) (st : State) : nat * State :=
  match cache st !! key with
  | Some existing => (existing, st)
  | None =>
      let guarded := List.length (promises st) in
      (guarded,
       mkState (<[key := guarded]> (cache st))
               (promises st ++ [mkPromise key Pending])%list)
  end.

(** [ensureTable(model)] of the relational adapter with schema
    [pg_schema]. *)
Definition ensureTable (pg_schema : string) (model : ModelDefinition)
    (st : State) : nat * State :=
  ensure (table_key pg_schema model) st.

(** [ensureCollection(model)] of the document adapter with prefix
    [prefix]. *)
Definition ensureCollection (prefix : option string) (model : ModelDefinition)
    (st : State) : nat * State :=
  ensure (collection_key prefix model) st.

(** The bootstrap behind promise [p] finishes. On failure the [catch]
    handler deletes the key from the cache and rethrows. A promise
    settles once. *)
Definition settle (p : nat) (ok : bool) (st : State) : State :=
  match promises st !! p with
  | Some (mkPromise key Pending) =>
      if ok
      then mkState (cache st) (<[p := mkPromise key Fulfilled]> (promises st))
      else mkState (base.delete key (cache st))
                   (<[p := mkPromise key Rejected]> (promises st))
  | _ => st
  end.

(** What can happen to an adapter: a request needs the resource named by
    a key, or a running bootstrap finishes. *)
Inductive Event :=
  | Request (key : string)
  | Finish (p : nat) (ok : bool).

Definition step (st : State) (e : Event) : State :=
  match e with
  | Request key => snd (ensure key st)
  | Finish p ok => settle p ok st
  end.

Definition run (events : list Event) : State := fold_left step events init.

(** Bootstraps started so far for [key]. *)
Definition attempts (key : string) (st : State) : nat :=
  List.length (List.filter (fun pr => String.eqb (key_of pr) key) (promises st)).

(** Bootstraps for [key] that have failed so far. *)
Definition failures (key : string) (st : State) : nat :=
  List.length
    (List.filter (fun pr => String.eqb (key_of pr) key
                            && match outcome pr with Rejected => true | _ => false end)
                 (promises st)).

End Bootstrap.


(* ================================================================== *)
(** * The store contract ([CrudStore]) and its four implementations *)
(* ================================================================== *)

Module Store.

(** What a call reads from its environment: the wall clock at the call,
    the random bits of the identifier generator, the process id and the
    clock reading taken while writing a file. *)
Record Oracle := mkOracle {
  clock : Z;
  entropy : N;
  pid : nat;
  wclock : Z;
}.

(** [CrudStore]: the five operations, over the state [S] they act on.
    [Err] is a thrown error. *)
Record CrudStore (S : Type) := mkCrudStore {
  getAll : S → Result (list CrudItem);
  getById : string → S → Result (option CrudItem);
  create : JsValue → Oracle → S → Result CrudItem * S;
  update : string → JsValue → Oracle → S → Result (option CrudItem) * S;
  delete : string → Oracle → S → Result bool * S;
}.
Arguments getAll {S} _ _.
Arguments getById {S} _ _ _.
Arguments create {S} _ _ _ _.
Arguments update {S} _ _ _ _ _.
Arguments delete {S} _ _ _ _.

End Store.

(** The error of a file-system call that threw. *)
Definition fs_error : string := "file system call failed".

Definition of_flush {A} (r : option A) : Result A :=
  match r with
  | Some v => Ok v
  | None => Err fs_error
  end.

Definition memory_store : Store.CrudStore MemoryStore.Store :=
  Store.mkCrudStore _
    (fun s => Ok (MemoryStore.getAll s))
    (fun id s => Ok (MemoryStore.getById id s))
    (fun payload o s =>
       let '(item, s') := MemoryStore.create payload (Store.clock o) (Store.entropy o) s in
       (Ok item, s'))
    (fun id payload o s =>
       let '(item, s') := MemoryStore.update id payload (Store.clock o) s in
       (Ok item, s'))
    (fun id _ s =>
       let '(found, s') := MemoryStore.delete id s in (Ok found, s')).

Definition file_store
    : Store.CrudStore (JsonFileStore.Store * gmap string Fs.Node) :=
  Store.mkCrudStore _
    (fun s => Ok (JsonFileStore.getAll (fst s)))
    (fun id s => Ok (JsonFileStore.getById id (fst s)))
    (fun payload o s =>
       let '(r, st, fs) :=
         JsonFileStore.create payload (Store.clock o) (Store.entropy o) (Store.pid o) (Store.wclock o)
           (fst s) (snd s) in
       (of_flush r, (st, fs)))
    (fun id payload o s =>
       let '(r, st, fs) :=
         JsonFileStore.update id payload (Store.clock o) (Store.pid o) (Store.wclock o)
           (fst s) (snd s) in
       (of_flush r, (st, fs)))
    (fun id o s =>
       let '(r, st, fs) :=
         JsonFileStore.delete id (Store.pid o) (Store.wclock o) (fst s) (snd s) in
       (of_flush r, (st, fs))).

Definition relational_store (model : ModelDefinition)
    : Store.CrudStore Postgres.Table :=
  Store.mkCrudStore _
    (Postgres.getAll model)
    (Postgres.getById model)
    (fun payload o t => Postgres.create model payload (Store.entropy o) (Store.clock o) t)
    (fun id payload o t => Postgres.update model id payload (Store.clock o) t)
    (fun id _ t => Postgres.delete model id t).

Definition document_store (model : ModelDefinition)
    : Store.CrudStore Mongo.Collection :=
  Store.mkCrudStore _
    (Mongo.getAll model)
    (Mongo.getById model)
    (fun payload o c => Mongo.create model payload (Store.clock o) (Store.entropy o) c)
    (fun id payload o c => Mongo.update model id payload (Store.clock o) c)
    (fun id _ c => Mongo.delete model id c).

(** The closed set of backends the factory can select. *)
Inductive Backend :=
  | Memory
  | File
  | Relational (model : ModelDefinition)
  | Document (model : ModelDefinition).

Definition state (b : Backend) : Type :=
  match b with
  | Memory => MemoryStore.Store
  | File => (JsonFileStore.Store * gmap string Fs.Node)%type
  | Relational _ => Postgres.Table
  | Document _ => Mongo.Collection
  end.

Definition store_of (b : Backend) : Store.CrudStore (state b) :=
  match b with
  | Memory => memory_store
  | File => file_store
  | Relational model => relational_store model
  | Document model => document_store model
  end.

(* ================================================================== *)
(** * Input validation (model/validator.ts) *)
(* ================================================================== *)

Module Validator.

Definition typeof_string (v : JsValue) : bool :=
  match v with JStr _ => true | _ => false end.

Definition typeof_number (v : JsValue) : bool :=
  match v with JNum _ => true | _ => false end.

Definition typeof_boolean (v : JsValue) : bool :=
  match v with JBool _ => true | _ => false end.

(** [value === undefined || value === null] *)
Definition nullish (v : JsValue) : bool :=
  match v with JUndefined | JNull => true | _ => false end.

(** [record[key]] read on the input itself: an array also answers to
    [length]. Properties inherited from a prototype are not modelled:
    this is the source's read for an object and a key that
    [Object.prototype] does not define (see [own_reading]). *)
Definition read (record : JsValue) (key : string) : JsValue :=
  match record with
  | JArr items =>
      if String.eqb key "length" then JNum (Z.of_nat (List.length items))
      else js_get (own_props record) key
  | _ => js_get (own_props record) key
  end.

(** One turn of the loop over the schema: the messages pushed for [key]. *)
Definition field_errors (record : JsValue) (key : string)
    (field : FieldDefinition) : list string :=
  let value := read record key in
  if nullish value then
    (if isOptional field then [] else [key ++ " is required"])
  else
    ((match type field with
      | TString => if typeof_string value then [] else [(key ++ " must be a string")%string]
      | _ => []
      end)
     ++ (match type field with
         | TNumber => if typeof_number value then [] else [(key ++ " must be a number")%string]
         | _ => []
         end)
     ++ (match type field with
         | TBoolean => if typeof_boolean value then [] else [(key ++ " must be a boolean")%string]
         | _ => []
         end))%list.

(** [validateInput(schema, input)]: the error messages, in schema
    order. *)
Definition validateInput (schema : ModelSchema) (input : JsValue)
    : list string :=
  if negb (truthy input) || negb (typeof_object input)
  then ["body must be an object"]
  else fold_left
         (fun errors kf => (errors ++ field_errors input (fst kf) (snd kf))%list)
         schema [].

End Validator.

(* ================================================================== *)
(** * CRUD routes (crud/internal/router.ts) *)
(* ================================================================== *)

Module JsString.

(** White space as [String.prototype.trim] sees it in ASCII text: tab,
    line feed, vertical tab, form feed, carriage return and space. *)
Definition is_space (c : ascii) : bool :=
  let n := nat_of_ascii c in
  ((9 <=? n) && (n <=? 13) || (n =? 32))%nat.

Fixpoint trimStart (s : string) : string :=
  match s with
  | EmptyString => EmptyString
  | String c rest => if is_space c then trimStart rest else s
  end.

Fixpoint trimEnd (s : string) : string :=
  match s with
  | EmptyString => EmptyString
  | String c rest =>
      match trimEnd rest with
      | EmptyString => if is_space c then EmptyString else String c EmptyString
      | kept => String c kept
      end
  end.

(** [s.trim()] *)
Definition trim (s : string) : string := trimEnd (trimStart s).

(** [s.startsWith(prefix)] *)
Definition startsWith (prefix s : string) : bool := String.prefix prefix s.

(** [s.endsWith(suffix)] *)
Definition endsWith (suffix s : string) : bool :=
  let n := String.length s in
  let k := String.length suffix in
  (k <=? n)%nat && String.eqb (String.substring (n - k) k s) suffix.

(** [s.slice(from, to)] for [0 <= from] and [0 <= to <= s.length]. *)
Definition slice (from to : nat) (s : string) : string :=
  String.substring from (to - from) s.

(** [s.slice(from)] *)
Definition sliceFrom (from : nat) (s : string) : string :=
  slice from (String.length s) s.

(** [s.indexOf(c)] for a needle of one character; [None] is [-1]. *)
Fixpoint indexOf (c : ascii) (s : string) : option nat :=
  match s with
  | EmptyString => None
  | String c' rest => if Ascii.eqb c c' then Some 0%nat else S <$> indexOf c rest
  end.


End JsString.

Module Router.

(** What a handler reads from the request: [req.params["id"]] and
    [req.body]. *)
Record Request := mkRequest {
  param_id : JsValue;
  body : JsValue;
}.

(** What a handler sends: the status and the value handed to
    [res.json], if any. *)
Record Response := mkResponse {
  status : nat;
  sent : option JsValue;
}.

Definition parseId (raw : string) : option string :=
  let id := JsString.trim raw in
  if (0 <? String.length id)%nat then Some id else None.

Definition extractIdFromRequest (req : Request) : option string :=
  match param_id req with
  | JStr rawId => parseId rawId
  | _ => None
  end.

(** [res.status(400).json({ message: "Invalid id" })] *)
Definition handleInvalidId : Response :=
  mkResponse 400 (Some (JObj {[ "message" := JStr "Invalid id" ]})).

(** [res.status(404).json({ message: "Not found" })] *)
Definition notFound : Response :=
  mkResponse 404 (Some (JObj {[ "message" := JStr "Not found" ]})).

(** [getCrudBasePath(modelName)] *)
Definition getCrudBasePath (modelName : string) : string :=
  "/" ++ Mongo.map_chars Mongo.to_lower modelName ++ "s".

(** The five routes [createCrudRoutes] registers. *)
Inductive Route :=
  | GetAll      (* GET / *)
  | GetById     (* GET /:id *)
  | Post        (* POST / *)
  | Put         (* PUT /:id *)
  | Delete.     (* DELETE /:id *)

Section Routes.
Context {S : Type} (model : ModelDefinition) (store : Store.CrudStore S).

(** A handler answers or rejects with the error the store threw, and
    leaves the store in a new state. *)
Definition get_all (s : S) : Result Response * S :=
  match Store.getAll store s with
  | Ok items => (Ok (mkResponse 200 (Some (JArr (JObj <$> items)))), s)
  | Err m => (Err m, s)
  end.

Definition get_by_id (req : Request) (s : S) : Result Response * S :=
  match extractIdFromRequest req with
  | None => (Ok handleInvalidId, s)
  | Some id =>
      match Store.getById store id s with
      | Ok (Some item) => (Ok (mkResponse 200 (Some (JObj item))), s)
      | Ok None => (Ok notFound, s)
      | Err m => (Err m, s)
      end
  end.

Definition errors_response (errors : list string) : Response :=
  mkResponse 400 (Some (JObj {[ "errors" := JArr (JStr <$> errors) ]})).

Definition post (req : Request) (o : Store.Oracle) (s : S)
    : Result Response * S :=
  let errors := Validator.validateInput (schema model) (body req) in
  if (0 <? List.length errors)%nat then (Ok (errors_response errors), s)
  else
    match Store.create store (body req) o s with
    | (Ok newItem, s') => (Ok (mkResponse 201 (Some (JObj newItem))), s')
    | (Err m, s') => (Err m, s')
    end.

Definition put (req : Request) (o : Store.Oracle) (s : S)
    : Result Response * S :=
  match extractIdFromRequest req with
  | None => (Ok handleInvalidId, s)
  | Some id =>
      let errors := Validator.validateInput (schema model) (body req) in
      if (0 <? List.length errors)%nat then (Ok (errors_response errors), s)
      else
        match Store.update store id (body req) o s with
        | (Ok (Some updatedItem), s') =>
            (Ok (mkResponse 200 (Some (JObj updatedItem))), s')
        | (Ok None, s') => (Ok notFound, s')
        | (Err m, s') => (Err m, s')
        end
  end.

Definition delete (req : Request) (o : Store.Oracle) (s : S)
    : Result Response * S :=
  match extractIdFromRequest req with
  | None => (Ok handleInvalidId, s)
  | Some id =>
      match Store.delete store id o s with
      | (Ok true, s') => (Ok (mkResponse 204 None), s')
      | (Ok false, s') => (Ok notFound, s')
      | (Err m, s') => (Err m, s')
      end
  end.

(** The handler of a route. *)
Definition handle (route : Route) (req : Request) (o : Store.Oracle) (s : S)
    : Result Response * S :=
  match route with
  | GetAll => get_all s
  | GetById => get_by_id req s
  | Post => post req o s
  | Put => put req o s
  | Delete => delete req o s
  end.

End Routes.

End Router.

(* ================================================================== *)
(** * Table names of the relational adapter (db/postgresAdapter.ts) *)
(* ================================================================== *)

Module PostgresAdapter.

(** [cfg.schema ?? "public"] *)
Definition schema_of (cfg : Factory.PostgresDbConfig) : string :=
  default "public" (Factory.pgc_schema cfg).

(** The synchronous part of [storeForModel(model)], run by
    [getCrudStore]: [fullName], the name every statement of the store
    uses, or the error [safeIdentifier] throws. *)
Definition storeForModel (cfg : Factory.PostgresDbConfig)
    (model : ModelDefinition) : Result string :=
  let table := Postgres.modelToTableName model in
  match Postgres.safeIdentifier (schema_of cfg) with
  | Err m => Err m
  | Ok schemaIdent =>
      match Postgres.safeIdentifier table with
      | Err m => Err m
      | Ok tableIdent => Ok (schemaIdent ++ "." ++ tableIdent)
      end
  end.

End PostgresAdapter.

(* ================================================================== *)
(** * The model registry (model/registry.ts, model/defineModel.ts) and
      route generation (crud/crudGenerator.ts) *)
(* ================================================================== *)

Module Registry.

(** [modelsByName] *)
Definition State := list (string * ModelDefinition).

Definition empty : State := [].

Definition registerModel (model : ModelDefinition) (st : State) : State :=
  JsMap.set (name model) model st.

Definition getModels (st : State) : list ModelDefinition := JsMap.values st.

(** [defineModel(name, schema)]: registers the model and returns it. *)
Definition defineModel (name : string) (schema : ModelSchema) (st : State)
    : ModelDefinition * State :=
  (mkModel name schema, registerModel (mkModel name schema) st).

(** The registry after the models of a list were registered in order. *)
Definition register_all (models : list ModelDefinition) : State :=
  fold_left (fun st model => registerModel model st) models empty.

End Registry.

Module CrudGenerator.

(** What [generateCrudRoutes] mounts: for every registered model, in
    registry order, a router at the model's base path. *)
Definition generateCrudRoutes (registry : Registry.State)
    : list (string * ModelDefinition) :=
  (fun model => (Router.getCrudBasePath (name model), model))
    <$> Registry.getModels registry.

End CrudGenerator.

(* ================================================================== *)
(** * The memory adapter (db/adapter.ts) *)
(* ================================================================== *)

Module MemoryDbAdapter.

(** [stores]: the stores handed out so far, each with the records it
    holds. A store is named by its key in this map. *)
Definition State := list (string * MemoryStore.Store).

Definition init : State := [].

(** [model.name.toLowerCase()] *)
Definition store_key (model : ModelDefinition) : string :=
  Mongo.map_chars Mongo.to_lower (name model).

(** [getCrudStore(model)]: the store cached under the key, or a new one
    that is cached first. *)
Definition getCrudStore (model : ModelDefinition) (st : State)
    : string * State :=
  let key := store_key model in
  match JsMap.get key st with
  | Some _ => (key, st)
  | None => (key, JsMap.set key MemoryStore.empty st)
  end.

(** A call made on the store that [handle] names; [None] when no such
    store was handed out. *)
Definition on_store {A} (handle : string)
    (call : MemoryStore.Store → A * MemoryStore.Store) (st : State)
    : option A * State :=
  match JsMap.get handle st with
  | Some s => let '(r, s') := call s in (Some r, JsMap.set handle s' st)
  | None => (None, st)
  end.

(** The records of the store that [handle] names. *)
Definition records (handle : string) (st : State) : list CrudItem :=
  match JsMap.get handle st with
  | Some s => MemoryStore.getAll s
  | None => []
  end.

End MemoryDbAdapter.

(* ================================================================== *)
(** * Loading [.env] (utils/env.ts) *)
(* ================================================================== *)

Module Env.

Definition dquote : ascii := ascii_of_nat 34.

(** [s.startsWith(q) && s.endsWith(q)] for a quote character [q]. *)
Definition wrapped_in (q : ascii) (s : string) : bool :=
  JsString.startsWith (String q EmptyString) s
  && JsString.endsWith (String q EmptyString) s.

Definition stripQuotes (value : string) : string :=
  let trimmed := JsString.trim value in
  if wrapped_in dquote trimmed || wrapped_in "'" trimmed
  then JsString.slice 1 (String.length trimmed - 1) trimmed
  else trimmed.

(** [parseEnvLine(line)]; [None] is [null]. *)
Definition parseEnvLine (line : string) : option (string * string) :=
  let trimmed := JsString.trim line in
  if String.eqb trimmed "" || JsString.startsWith "#" trimmed then None
  else
    let withoutExport :=
      if JsString.startsWith "export " trimmed
      then JsString.sliceFrom (String.length "export ") trimmed
      else trimmed in
    match JsString.indexOf "=" withoutExport with
    | None | Some O => None
    | Some eqIndex =>
        let key := JsString.trim (JsString.slice 0 eqIndex withoutExport) in
        if String.eqb key "" then None
        else
          (* Value can contain '=' so take the rest. *)
          let rawValue := JsString.sliceFrom (eqIndex + 1) withoutExport in
          Some (key, stripQuotes rawValue)
    end.




End Env.

(* ================================================================== *)
(** * Vocabulary of the properties *)
(* ================================================================== *)

(** The fields a payload carries: those of an object (or the indices of an
    array), none for anything else. *)
Definition payload_fields (payload : JsValue) : JsObject :=
  if truthy payload && typeof_object payload then own_props payload else ∅.

(** The schema-declared fields present in a payload. *)
Definition declared_fields (s : ModelSchema) (payload : JsValue) : JsObject :=
  filter (fun kv => fst kv ∈ schema_keys s) (payload_fields payload).

(** A document or row that this adapter wrote: no field shadows the
    record header. *)
Definition plain_fields (fields : JsObject) : Prop :=
  ∀ key, reserved key → fields !! key = None.

(** The ids under which a backend holds records. *)
Definition stored_ids (b : Backend) : state b → list string :=
  match b with
  | Memory => fun s => JsMap.keys s
  | File => fun s => JsMap.keys (JsonFileStore.items (fst s))
  | Relational _ => fun t => Postgres.id <$> t
  | Document _ => fun c => (fun d => default "" (Mongo._id d)) <$> Mongo.docs c
  end.

(** The key a backend looks a request id up under: the id itself, or for
    the document adapter the object id it parses to, if any. *)
Definition lookup_key (b : Backend) (id : string) : option string :=
  match b with
  | Document _ => Mongo.tryParseObjectId id
  | _ => Some id
  end.

(** No record is stored for the request id [id]. *)
Definition no_record (b : Backend) (id : string) (s : state b) : Prop :=
  ∀ key, lookup_key b id = Some key → key ∉ stored_ids b s.

(** States the adapters themselves produce: a primary key is unique, every
    document has its [_id], and no stored field shadows the header. *)
Definition well_formed (b : Backend) : state b → Prop :=
  match b with
  | Memory => fun _ => True
  | File => fun _ => True
  | Relational _ => fun t =>
      NoDup (Postgres.id <$> t) ∧ ∀ row, row ∈ t → plain_fields (Postgres.data row)
  | Document _ => fun c =>
      NoDup ((fun d => default "" (Mongo._id d)) <$> Mongo.docs c)
      ∧ ∀ d, d ∈ Mongo.docs c → is_Some (Mongo._id d) ∧ plain_fields (Mongo.rest d)
  end.


(** The record [{ id, createdAt: now, updatedAt: now, ...sanitized }] that
    [create] builds in store.ts and jsonFileStore.ts. *)
Definition fresh_item (id now : string) (payload : JsValue) : CrudItem :=
  spread (header id now now) (sanitizeClientPayload payload).

(** The record [{ ...existing, ...sanitized, updatedAt: now }] that
    [update] builds in store.ts and jsonFileStore.ts. *)
Definition merged_item (existing : CrudItem) (now : string) (payload : JsValue)
    : CrudItem :=
  <["updatedAt" := JStr now]> (spread existing (sanitizeClientPayload payload)).

(** Whether a target file can be rewritten: whether [atomicWriteJson]
    runs to its end on this file system. *)
Definition writable (path : string) (o : Store.Oracle)
    (fs : gmap string Fs.Node) : Prop :=
  fst (JsonFileStore.atomicWriteJson path JNull (Store.pid o) (Store.wclock o) fs)
  = Some tt.

(** The document [create] hands to [insertOne]. *)
Definition new_doc (model : ModelDefinition) (payload : JsValue)
    (o : Store.Oracle) : Mongo.StoredDoc :=
  Mongo.mkDoc (Some (Mongo.generate (Store.entropy o))) (Store.clock o)
    (Store.clock o) (Mongo.pickStructuredInsert (schema model) payload).

(** The names every plain object inherits from [Object.prototype]. *)
Definition object_prototype : list string :=
  ["constructor"; "__proto__"; "hasOwnProperty"; "isPrototypeOf";
   "propertyIsEnumerable"; "toLocaleString"; "toString"; "valueOf";
   "__defineGetter__"; "__defineSetter__"; "__lookupGetter__";
   "__lookupSetter__"].

(** A name the server reads as a path or as an operator: it has a dot
    in it or starts with [$]. *)
Definition is_path (key : string) : bool :=
  existsb (Ascii.eqb ".") (list_ascii_of_string key) || String.prefix "$" key.

(** A field name that the document adapter and the server both take for
    the name of one field: not empty, not [_id], no path, and no name
    that the sanitized payload inherits from [Object.prototype]. *)
Definition ordinary_name (key : string) : bool :=
  negb (String.eqb key "") && negb (String.eqb key "_id")
  && negb (is_path key) && negb (bool_decide (key ∈ object_prototype)).

(** The schema behind a document backend declares ordinary names only;
    the other backends read no schema. *)
Definition ordinary (b : Backend) : Prop :=
  match b with
  | Document model => forallb ordinary_name (schema_keys (schema model)) = true
  | _ => True
  end.



(** The JSON text of the payload's fields holds no escape of U+0000. *)
Definition nul_free (payload : JsValue) : Prop :=
  Json.escapes_nul (JObj (Postgres.to_jsonb (sanitizeClientPayload payload))) = false.

(** The backend takes the write of [create]: the file can be rewritten;
    the generated key is not taken and the server takes the JSON text;
    the generated key is not taken, the serialiser takes the fields and
    the validator admits the document. *)
Definition accepts (b : Backend) (payload : JsValue) (o : Store.Oracle)
    : state b → Prop :=
  match b with
  | Memory => fun _ => True
  | File => fun s => writable (JsonFileStore.filePath (fst s)) o (snd s)
  | Relational _ => fun t =>
      (Uuid.randomUUID (Store.entropy o) ∉ Postgres.id <$> t)
      ∧ nul_free payload
  | Document model => fun c =>
      (Mongo.generate (Store.entropy o) ∉ stored_ids (Document model) c)
      ∧ Mongo.admits c (new_doc model payload o) = true
      ∧ Bson.key_has_nul (JObj (Mongo.pickStructuredInsert (schema model) payload))
        = false
  end.



(** The server takes the request id as a parameter: on the relational
    adapter it holds no U+0000. *)
Definition takes_id (b : Backend) (id : string) : Prop :=
  match b with
  | Relational _ => has_nul id = false
  | _ => True
  end.

(** A payload value that [pickStructuredInsert] and [$set] take: anything
    but [undefined] and [null]. *)
Definition settable (v : JsValue) : bool :=
  match v with
  | JUndefined | JNull => false
  | _ => true
  end.

Definition is_null (v : JsValue) : bool :=
  match v with JNull => true | _ => false end.

(** What a backend stores under a field name other than [id],
    [createdAt], [updatedAt] for a created payload: the memory and file
    stores keep every field of the payload, the relational adapter keeps
    every field as its JSON round trip, the document adapter keeps the
    schema-declared fields that have a value. *)
Definition expected_field (b : Backend) (payload : JsValue) (key : string)
    : option JsValue :=
  match b with
  | Memory | File => payload_fields payload !! key
  | Relational _ =>
      match payload_fields payload !! key with
      | Some v => if Json.is_undefined v then None else Some (Json.normalize v)
      | None => None
      end
  | Document model =>
      if decide (key ∈ schema_keys (schema model))
      then (if settable (js_get (payload_fields payload) key)
            then Some (js_get (payload_fields payload) key) else None)
      else None
  end.

(** ** Running examples *)

(** [defineModel("Todo", { title: string(), done: boolean().optional() })] *)
Definition todo : ModelDefinition :=
  mkModel "Todo" [("title", mkField TString false); ("done", mkField TBoolean true)].

(** [{ title: "Buy milk", done: false }] *)
Definition buy_milk : JsValue :=
  JObj (<["title" := JStr "Buy milk"]> (<["done" := JBool false]> ∅)).

(** [{ title: "Buy milk", priority: 1 }]: [priority] is not declared. *)
Definition buy_milk_priority : JsValue :=
  JObj (<["title" := JStr "Buy milk"]> (<["priority" := JNum 1]> ∅)).

(** A fresh collection whose validator was installed at bootstrap. *)
Definition todos_validated : Mongo.Collection :=
  Mongo.mkCollection (Some (Mongo.schemaToJsonSchema (schema todo))) [] false.




(** Clock readings and random draws of the examples. *)
Definition at_noon : Store.Oracle := Store.mkOracle 1793707200000 7 4242 1793707200001.

(** The update document [update] hands to [findOneAndUpdate]. *)
Definition update_spec (model : ModelDefinition) (payload : JsValue)
    (o : Store.Oracle) : Mongo.UpdateSpec :=
  let '(set, unset) := Mongo.splitStructuredPatch (schema model) payload in
  Mongo.mkUpdate set (Store.clock o)
    (if bool_decide (unset = ∅) then None else Some unset).


(** The backend can take the payload of an [update], whatever the id:
    the server takes its JSON text; the serialiser takes the fields to
    set and the names of the fields to unset. *)
Definition takes_patch (b : Backend) (payload : JsValue) : Prop :=
  match b with
  | Relational _ => nul_free payload
  | Document model =>
      Bson.key_has_nul
        (JObj (fst (Mongo.splitStructuredPatch (schema model) payload))) = false
      ∧ ∀ key, is_Some (snd (Mongo.splitStructuredPatch (schema model) payload) !! key) →
          has_nul key = false
  | _ => True
  end.

(** The backend takes the write of [update]: the file can be rewritten;
    the payload is one the backend can take; the validator, which holds
    a document to its rules once it satisfies them, admits the updated
    document, and the driver's result is not mistaken for a wrapper
    (either it is one, or the document has no field called [value]). *)
Definition update_accepts (b : Backend) (id : string) (payload : JsValue)
    (o : Store.Oracle) : state b → Prop :=
  match b with
  | Memory => fun _ => True
  | File => fun s => writable (JsonFileStore.filePath (fst s)) o (snd s)
  | Relational model => fun _ => takes_patch (Relational model) payload
  | Document model => fun c =>
      takes_patch (Document model) payload
      ∧ ∀ oid old,
          Mongo.tryParseObjectId id = Some oid →
          Mongo.findOne oid c = Some old →
          let new := Mongo.apply_update (update_spec model payload o) old in
          (Mongo.admits c old = true → Mongo.admits c new = true)
          ∧ (Mongo.wraps_result c = true ∨ Mongo.rest new !! "value" = None)
  end.

Definition b3 : JsValue := JObj (<["b" := JNum 3]> ∅).

(** A model declaring the optional numbers [a] and [b]. *)
Definition pair_model : ModelDefinition :=
  mkModel "Pair" [("a", mkField TNumber true); ("b", mkField TNumber true)].

(** A collection holding the document of [{ a: 1, b: 2 }]. *)
Definition pair_id : string := "000000000000000000000007".

Definition pair_doc : Mongo.StoredDoc :=
  Mongo.mkDoc (Some pair_id) 1793707100000 1793707100000
    (<["a" := JNum 1]> (<["b" := JNum 2]> ∅)).

Definition pairs : Mongo.Collection :=
  Mongo.mkCollection (Some (Mongo.schemaToJsonSchema (schema pair_model)))
    [pair_doc] false.

(** The record [getById] returns for [pair_doc]. *)
Definition pair_item : CrudItem :=
  spread (header pair_id (Iso.toISOString 1793707100000)
            (Iso.toISOString 1793707100000))
         (<["a" := JNum 1]> (<["b" := JNum 2]> ∅)).

(** The record [docToCrudItem] builds from a document that has its
    [_id]. *)
Definition doc_item (d : Mongo.StoredDoc) : CrudItem :=
  spread (header (default "" (Mongo._id d)) (Iso.toISOString (Mongo.createdAt d))
            (Iso.toISOString (Mongo.updatedAt d)))
         (Mongo.rest d).

(** The records a backend holds, in the order it keeps them: insertion
    order of the ids in a [Map], storage order of rows and documents. *)
Definition stored_records (b : Backend) : state b → list CrudItem :=
  match b with
  | Memory => fun s => JsMap.values s
  | File => fun s => JsMap.values (JsonFileStore.items (fst s))
  | Relational _ => fun t => Postgres.rowToCrudItem <$> t
  | Document _ => fun c => doc_item <$> Mongo.docs c
  end.


(** Two identifiers drawn in descending order. *)
Definition entropy_b : N := 0xb0000000000000000000000000000000.
Definition entropy_a : N := 0xa0000000000000000000000000000000.

(** A table whose rows were inserted in descending id order. *)
Definition two_rows : Postgres.Table :=
  [Postgres.mkRow (Uuid.randomUUID entropy_b) 1793707100000 1793707100000 ∅;
   Postgres.mkRow (Uuid.randomUUID entropy_a) 1793707200000 1793707200000 ∅].

(** Simplification leaves the formatting and parsing functions folded. *)
Arguments Iso.toISOString : simpl never.
Arguments Iso.nowIso : simpl never.
Arguments Uuid.randomUUID : simpl never.
Arguments Mongo.generate : simpl never.
Arguments Mongo.tryParseObjectId : simpl never.
Arguments Mongo.pickStructuredInsert : simpl never.
Arguments Mongo.splitStructuredPatch : simpl never.
Arguments sanitizeClientPayload : simpl never.
Arguments fresh_item : simpl never.
Arguments merged_item : simpl never.
Arguments JsonFileStore.tempPath : simpl never.
Arguments JsonFileStore.backupPath : simpl never.
Arguments Path.dirname : simpl never.
Arguments JsMap.values : simpl never.
Arguments JsMap.keys : simpl never.
Arguments JsMap.remove : simpl never.

(** ** Settings of the factory *)

(** The settings [createDbAdapter] requires. *)
Inductive Setting :=
  | PostgresConnection
  | MongoConnection
  | MongoDatabase.

(** The adapter kind a setting belongs to. *)
Definition setting_adapter (m : Setting) : string :=
  match m with
  | PostgresConnection => "postgres"
  | MongoConnection | MongoDatabase => "mongodb"
  end.

(** What the setting is called, its configuration key and its fallback
    environment variable. *)
Definition setting_name (m : Setting) : string :=
  match m with
  | PostgresConnection | MongoConnection => "connection string"
  | MongoDatabase => "database name"
  end.

Definition config_key (m : Setting) : string :=
  match m with
  | PostgresConnection => "db.postgres.connectionString"
  | MongoConnection => "db.mongodb.connectionString"
  | MongoDatabase => "db.mongodb.dbName"
  end.

Definition env_var (m : Setting) : string :=
  match m with
  | PostgresConnection => "DATABASE_URL"
  | MongoConnection => "MONGODB_URI"
  | MongoDatabase => "MONGODB_DB"
  end.

(** The value the explicit configuration gives a setting. *)
Definition config_value (cfg : Factory.DbConfig) (m : Setting) : option string :=
  match m with
  | PostgresConnection => Factory.postgres cfg ≫= Factory.pg_connectionString
  | MongoConnection => Factory.mongodb cfg ≫= Factory.mg_connectionString
  | MongoDatabase => Factory.mongodb cfg ≫= Factory.mg_dbName
  end.

(** A source does not provide a value: nothing there, or the empty
    string. *)
Definition unset (s : option string) : Prop := s = None ∨ s = Some "".

(** The settings checked before [m]: the connection string comes before
    the database name. *)
Definition earlier_settings_resolved (cfg : Factory.DbConfig)
    (env : gmap string string) (m : Setting) : Prop :=
  match m with
  | MongoDatabase =>
      Factory.falsy (Factory.coalesce (config_value cfg MongoConnection)
                       (env !! env_var MongoConnection)) = false
  | _ => True
  end.

(** The adapter kinds the factory recognises. *)
Definition recognized (v : JsValue) : Prop :=
  v = JStr "memory" ∨ v = JStr "json" ∨ v = JStr "postgres" ∨ v = JStr "mongodb".

(** The store can persist a write: the file store's file can be
    rewritten. *)
Definition can_write (b : Backend) (o : Store.Oracle) : state b → Prop :=
  match b with
  | File => fun s => writable (JsonFileStore.filePath (fst s)) o (snd s)
  | _ => fun _ => True
  end.

(** The driver's [findOneAndUpdate] result is read as what it is: it is a
    wrapper, or no stored document has a field called [value]. *)
Definition result_unwraps (b : Backend) : state b → Prop :=
  match b with
  | Document _ => fun c =>
      Mongo.wraps_result c = true
      ∨ ∀ d, d ∈ Mongo.docs c → Mongo.rest d !! "value" = None
  | _ => fun _ => True
  end.

(** One atomic rewrite of the target file from file system [fs] to [fs']:
    the directory is made, the whole index is written to the temporary
    path while the target stays as it was, and one rename puts the
    temporary file in the target's place. *)
Definition rewritten_atomically (path : string) (o : Store.Oracle)
    (index : list (string * CrudItem)) (fs fs' : gmap string Fs.Node) : Prop :=
  let tmp := JsonFileStore.tempPath path (Store.pid o) (Store.wclock o) in
  let json := Json.stringify (JsonFileStore.persisted_data index) in
  ∃ fs1 fs2,
    Fs.mkdirSync (Path.dirname path) fs = (Some tt, fs1)
    ∧ Fs.writeFileSync tmp json fs1 = (Some tt, fs2)
    ∧ fs2 !! path = fs !! path
    ∧ Fs.renameSync tmp path fs2 = (Some tt, fs')
    ∧ fs' !! path = Some (Fs.File json)
    ∧ fs' !! tmp = None.

(** The entry under which a persisted item is indexed. *)
Definition index_entry (item : JsValue) : string * CrudItem :=
  (item_id (own_props item), own_props item).

(** A project directory holding a corrupt [todo.json]. *)
Definition todo_path : string := "/srv/app/.railnode/db/todo.json".


(** ** Bootstrap memoization *)

(** Promise [p] was created by a bootstrap for [key] and has outcome
    [out]. *)
Definition promise_is (st : Bootstrap.State) (p : nat) (key : string)
    (out : Bootstrap.Outcome) : Prop :=
  Bootstrap.promises st !! p = Some (Bootstrap.mkPromise key out).

(** 1 when the cache holds a promise for [key], else 0. *)
Definition cached_count (st : Bootstrap.State) (key : string) : nat :=
  match Bootstrap.cache st !! key with
  | Some _ => 1
  | None => 0
  end.

(** What holds of the cache in every reachable state: a cached promise
    belongs to its key and has not failed; a promise that has not failed
    is the one cached under its key; and every bootstrap started for a key
    has either failed or is the one in the cache. *)
Definition consistent (st : Bootstrap.State) : Prop :=
  (∀ key p, Bootstrap.cache st !! key = Some p →
     ∃ out, promise_is st p key out ∧ out ≠ Bootstrap.Rejected)
  ∧ (∀ p key out, promise_is st p key out → out ≠ Bootstrap.Rejected →
       Bootstrap.cache st !! key = Some p)
  ∧ (∀ key, Bootstrap.attempts key st
            = (Bootstrap.failures key st + cached_count st key)%nat).

(** 1 for [true], 0 for [false]. *)
Definition bump (b : bool) : nat := if b then 1 else 0.

(** ** Validation *)

(** A value is of a field's type. *)
Definition has_type (t : FieldType) (v : JsValue) : Prop :=
  match t, v with
  | TString, JStr _ | TNumber, JNum _ | TBoolean, JBool _ => True
  | _, _ => False
  end.

(** The body gives a field what its definition asks for: a value of its
    type, or no value ([undefined], [null] or nothing at all) when the
    field is optional. *)
Definition provides (input : JsValue) (key : string) (field : FieldDefinition)
    : Prop :=
  let v := Validator.read input key in
  if Validator.nullish v then isOptional field = true
  else has_type (type field) v.


(** No schema field takes the name of a header field of a record or of a
    document. *)
Definition storable (s : ModelSchema) : Prop :=
  ∀ key, key ∈ schema_keys s → ¬ reserved key ∧ key ≠ "_id".


(** The body is read the same way by the validator and by the adapter:
    when it is an array, the schema does not declare [length]. *)
Definition plainly_read (s : ModelSchema) (input : JsValue) : Prop :=
  JsonFileStore.isArray input = true → "length" ∉ schema_keys s.

(** The collection of a model as [ensureCollection] leaves it: with the
    validator of the model's schema, or with none when the server refused
    it. *)
Definition validated_by (model : ModelDefinition) (c : Mongo.Collection) : Prop :=
  Mongo.validator c = None
  ∨ Mongo.validator c = Some (Mongo.schemaToJsonSchema (schema model)).

(** [{ title: "Buy milk", done: false, priority: 1 }] *)
Definition buy_milk_first : JsValue :=
  JObj (<["priority" := JNum 1]>
          (<["title" := JStr "Buy milk"]> (<["done" := JBool false]> ∅))).

(** ** What the stores keep *)

(** A record carries its header: the id and the two time stamps, all
    three strings. *)
Definition has_header (item : CrudItem) (id : string) : Prop :=
  item !! "id" = Some (JStr id)
  ∧ (∃ c, item !! "createdAt" = Some (JStr c))
  ∧ (∃ u, item !! "updatedAt" = Some (JStr u)).

(** An index holds every record under its own id, once, and every
    record carries its header. *)
Definition indexed (index : list (string * CrudItem)) : Prop :=
  NoDup (JsMap.keys index)
  ∧ ∀ key item, (key, item) ∈ index → has_header item key.

(** Object ids are stored in the form the driver prints them: 24
    lower-case hex digits. *)
Definition canonical_ids (c : Mongo.Collection) : Prop :=
  ∀ d oid, d ∈ Mongo.docs c → Mongo._id d = Some oid →
    Mongo.tryParseObjectId oid = Some oid.

(** The ids of a table are text the server holds: none has U+0000. *)
Definition text_ids (t : Postgres.Table) : Prop :=
  ∀ row, row ∈ t → has_nul (Postgres.id row) = false.

(** The states the stores reach by their own operations: [well_formed],
    the memory and file stores index every record under its own id, the
    ids of a table are text, and object ids are in their printed form. *)
Definition sound (b : Backend) : state b → Prop :=
  match b with
  | Memory => fun s => indexed s
  | File => fun s => indexed (JsonFileStore.items (fst s))
  | Relational model => fun t => well_formed (Relational model) t ∧ text_ids t
  | Document model => fun c => well_formed (Document model) c ∧ canonical_ids c
  end.

(** The state of a backend before any call: a new [Map], the index
    loaded from whatever file there is, an empty table, an empty
    collection. *)
Definition initial (b : Backend) : state b → Prop :=
  match b with
  | Memory => fun s => s = MemoryStore.empty
  | File => fun s => ∃ path clk disk,
      s = JsonFileStore.createJsonFileStore path clk disk
  | Relational _ => fun t => t = []
  | Document _ => fun c => Mongo.docs c = []
  end.

(** The identifier the next [create] draws. *)
Definition next_id (b : Backend) (o : Store.Oracle) : string :=
  match b with
  | Document _ => Mongo.generate (Store.entropy o)
  | _ => Uuid.randomUUID (Store.entropy o)
  end.

(** The store after a call. *)
Definition after_create (b : Backend) (P : JsValue) (o : Store.Oracle)
    (s : state b) : state b := snd (Store.create (store_of b) P o s).

Definition after_update (b : Backend) (i : string) (P : JsValue)
    (o : Store.Oracle) (s : state b) : state b :=
  snd (Store.update (store_of b) i P o s).

Definition after_delete (b : Backend) (i : string) (o : Store.Oracle)
    (s : state b) : state b := snd (Store.delete (store_of b) i o s).

(** A file in which one entry lacks its [createdAt]. *)
Definition mixed_items : list JsValue :=
  [JObj (header "a" "2026-01-01T00:00:00.000Z" "2026-01-01T00:00:00.000Z");
   JObj {[ "id" := JStr "b" ]}].

Definition mixed_disk : gmap string Fs.Node :=
  <[todo_path := Fs.File (Json.Parseable (JObj {[ "items" := JArr mixed_items ]}))]>
    (<["/srv/app/.railnode/db" := Fs.Dir]> ∅).

(** ** Requests *)

(** The driver's [findOneAndUpdate] result cannot be taken for a wrapper
    by mistake: it is one, or neither the schema nor a stored document
    has a field called [value]. *)
Definition unwraps_safely (b : Backend) : state b → Prop :=
  match b with
  | Document model => fun c =>
      Mongo.wraps_result c = true
      ∨ (("value" ∉ schema_keys (schema model))
         ∧ ∀ d, d ∈ Mongo.docs c → Mongo.rest d !! "value" = None)
  | _ => fun _ => True
  end.

(** The answers that turn a request down. *)
Definition rejected (resp : Router.Response) : Prop :=
  Router.status resp = 400 ∨ Router.status resp = 404.

(** A request to [/:id]. *)
Definition request_for (id : string) (body : JsValue) : Router.Request :=
  Router.mkRequest (JStr id) body.





(** No character of the text is white space. *)
Definition spaceless (s : string) : Prop :=
  Forall (fun c => JsString.is_space c = false) (list_ascii_of_string s).

(** ** Names derived from a model *)

Definition is_digit (c : ascii) : bool :=
  let n := nat_of_ascii c in ((48 <=? n) && (n <=? 57))%nat.

Definition starts_with_digit (s : string) : bool :=
  match s with
  | String c _ => is_digit c
  | EmptyString => false
  end.

(** Letters, digits and underscores only. *)
Definition plain_name (s : string) : Prop :=
  Postgres.all_chars Postgres.is_ident_char s = true.

(** A name of letters, digits and underscores that does not start with
    a digit: what the pattern of [safeIdentifier] matches. *)
Definition simple_identifier (s : string) : bool :=
  match s with
  | String c rest =>
      Postgres.is_ident_start c && Postgres.all_chars Postgres.is_ident_char rest
  | EmptyString => false
  end.

(** [s] in double quotes. *)
Definition quoted (s : string) : string := Postgres.quote ++ s ++ Postgres.quote.

(** The connection settings of the examples. *)
Definition local_pg : Factory.PostgresDbConfig :=
  Factory.mkPgCfg "postgres://localhost:5432/app" None.

(** The value [createDbAdapter] settles on for a setting: the configured
    one when there is any, else the one of the environment. *)
Definition resolved (cfg : option Factory.DbConfig) (env : gmap string string)
    (m : Setting) : option string :=
  Factory.coalesce (cfg ≫= fun c => config_value c m) (env !! env_var m).

(** What an adapter was constructed with. *)
Definition configured_as (root : string) (cfg : option Factory.DbConfig)
    (env : gmap string string) (a : Factory.DbAdapter) : Prop :=
  match a with
  | Factory.MemoryDbAdapter => True
  | Factory.JsonFileDbAdapter r dir =>
      r = root ∧ dir = default ".railnode/db" ((cfg ≫= Factory.json) ≫= Factory.json_dir)
  | Factory.PostgresDbAdapter c =>
      resolved cfg env PostgresConnection = Some (Factory.pgc_connectionString c)
      ∧ Factory.pgc_connectionString c ≠ ""
      ∧ Factory.pgc_schema c = (cfg ≫= Factory.postgres) ≫= Factory.pg_schema
  | Factory.MongoDbAdapter c =>
      resolved cfg env MongoConnection = Some (Factory.mgc_connectionString c)
      ∧ Factory.mgc_connectionString c ≠ ""
      ∧ resolved cfg env MongoDatabase = Some (Factory.mgc_dbName c)
      ∧ Factory.mgc_dbName c ≠ ""
      ∧ Factory.mgc_collectionPrefix c
        = (cfg ≫= Factory.mongodb) ≫= Factory.mg_collectionPrefix
  end.

(** A configuration that asks for Postgres and gives the empty string as
    its connection string. *)
Definition blank_pg_config : Factory.DbConfig :=
  Factory.mkConfig (JStr "postgres") None (Some (Factory.mkPg (Some "") None)) None.

(** ** Persistence of the file store *)

(** A record as it comes back from the file, after [JSON.stringify] and
    [JSON.parse]. *)
Definition as_json (item : CrudItem) : CrudItem := Postgres.to_jsonb item.

(** The store a new process constructs on the same path, reading the
    file system the old one left. *)
Definition reopened (clk : Z) (s : state File) : JsonFileStore.Store :=
  fst (JsonFileStore.createJsonFileStore (JsonFileStore.filePath (fst s)) clk (snd s)).

(** The target of a file store is a file with some content. *)
Definition target_is_file (s : state File) : Prop :=
  ∃ content, snd s !! JsonFileStore.filePath (fst s) = Some (Fs.File content).

(** A disk on which a directory sits where the temporary file of
    [at_noon] would go. *)
Definition blocked_disk : gmap string Fs.Node :=
  <["/srv/app/.railnode/db/todo.json.tmp-4242-1793707200001" := Fs.Dir]> mixed_disk.

(** ** Driver versions *)

(** The same collection behind a driver that wraps the result of
    [findOneAndUpdate] in [{ value, ok }] ([w] true) or hands back the
    document itself ([w] false). *)
Definition with_wrapping (w : bool) (c : Mongo.Collection) : Mongo.Collection :=
  Mongo.mkCollection (Mongo.validator c) (Mongo.docs c) w.

(** Neither the schema nor a stored document has a field called
    [value]. *)
Definition value_free (model : ModelDefinition) (c : Mongo.Collection) : Prop :=
  ("value" ∉ schema_keys (schema model))
  ∧ ∀ d, d ∈ Mongo.docs c → Mongo.rest d !! "value" = None.

(** ** The registry *)

(** The distinct names of a list, each at its first occurrence. *)
Fixpoint first_seen (names : list string) : list string :=
  match names with
  | [] => []
  | n :: rest => n :: List.filter (fun n' => negb (String.eqb n n')) (first_seen rest)
  end.

(** [m] is the last model of the list with its name. *)
Definition last_defined (models : list ModelDefinition) (m : ModelDefinition) : Prop :=
  ∃ before after,
    models = (before ++ m :: after)%list ∧ (name m ∉ name <$> after).

(** [defineModel("Todo", { title: string() })], a second definition of
    the model [todo]. *)
Definition todo_again : ModelDefinition :=
  mkModel "Todo" [("title", mkField TString false)].

(** ** The [.env] file *)



(** Text of ASCII characters only; there the white space of
    [String.prototype.trim] is the white space of [JsString.is_space]. *)
Definition ascii_text (s : string) : Prop :=
  forallb (fun c => (nat_of_ascii c <? 128)%nat) (list_ascii_of_string s) = true.

(** A variable name as it stands in a [.env] line: not empty, of ASCII
    characters, without white space or [=], and not the start of a
    comment. *)
Definition env_key (k : string) : Prop :=
  k ≠ ""
  ∧ ascii_text k
  ∧ spaceless k
  ∧ ("="%char ∉ list_ascii_of_string k)
  ∧ JsString.startsWith "#" k = false.

(** [v] between two quote characters [q]. *)
Definition in_quotes (q : ascii) (v : string) : string :=
  String q (v ++ String q "").

(** The line [KEY=text], after [export ] when [exported]. *)
Definition env_line (exported : bool) (k text : string) : string :=
  (if exported then "export " else "") ++ k ++ "=" ++ text.

(* ================================================================== *)
(** * Facts about JavaScript maps and objects *)
(* ================================================================== *)

Section JsMapFacts.
Context {V : Type}.
Implicit Types (m : list (string * V)) (k : string) (v : V).

Lemma eqb_false_ne k k' : k ≠ k' → String.eqb k k' = false.
Proof. intros H. by apply String.eqb_neq. Qed.

Lemma jsmap_get_set_eq k v m : JsMap.get k (JsMap.set k v m) = Some v.
Proof.
  induction m as [|[k' v'] m IH]; simpl.
  - by rewrite String.eqb_refl.
  - destruct (String.eqb k k') eqn:E; simpl; by rewrite E.
Qed.

Lemma jsmap_get_set_ne k k' v m :
  k ≠ k' → JsMap.get k' (JsMap.set k v m) = JsMap.get k' m.
Proof.
  intros Hne. induction m as [|[k0 v0] m IH]; simpl.
  - rewrite eqb_false_ne; [done | congruence].
  - destruct (String.eqb k k0) eqn:E; simpl.
    + apply String.eqb_eq in E as <-. rewrite eqb_false_ne; [done | congruence].
    + by rewrite IH.
Qed.

Lemma jsmap_get_none k m : JsMap.get k m = None ↔ k ∉ JsMap.keys m.
Proof.
  induction m as [|[k' v'] m IH]; simpl.
  - split; [intros _; apply not_elem_of_nil | done].
  - unfold JsMap.keys in *. cbn [fmap list_fmap fst]. rewrite not_elem_of_cons.
    destruct (String.eqb k k') eqn:E.
    + apply String.eqb_eq in E. split; [done | intros [? _]; done].
    + apply String.eqb_neq in E. rewrite IH. tauto.
Qed.

Lemma jsmap_get_some_elem k v m : JsMap.get k m = Some v → (k, v) ∈ m.
Proof.
  induction m as [|[k' v'] m IH]; simpl; [done|].
  destruct (String.eqb k k') eqn:E.
  - apply String.eqb_eq in E as <-. intros [= <-]. apply elem_of_cons; by left.
  - intros H. apply elem_of_cons; right; auto.
Qed.

Lemma jsmap_elem_get k v m :
  NoDup (JsMap.keys m) → (k, v) ∈ m → JsMap.get k m = Some v.
Proof.
  unfold JsMap.keys. induction m as [|[k' v'] m IH]; simpl.
  - intros _ H. by apply elem_of_nil in H.
  - cbn [fmap list_fmap fst]. rewrite NoDup_cons. intros [Hnot Hnd].
    rewrite elem_of_cons. intros [[= -> ->] | Hin].
    + by rewrite String.eqb_refl.
    + destruct (String.eqb k k') eqn:E; [|by apply IH].
      apply String.eqb_eq in E as <-. exfalso. apply Hnot.
      apply list_elem_of_fmap. by exists (k, v).
Qed.

Lemma jsmap_remove_get_eq k m : JsMap.get k (JsMap.remove k m) = None.
Proof.
  unfold JsMap.remove. induction m as [|[k' v'] m IH]; simpl; [done|].
  destruct (String.eqb k k') eqn:E; simpl; [done|]. by rewrite E.
Qed.

Lemma jsmap_remove_get_ne k k' m :
  k ≠ k' → JsMap.get k' (JsMap.remove k m) = JsMap.get k' m.
Proof.
  intros Hne. unfold JsMap.remove.
  induction m as [|[k0 v0] m IH]; simpl; [done|].
  destruct (String.eqb k k0) eqn:E; simpl.
  - apply String.eqb_eq in E as <-. rewrite eqb_false_ne; [done | congruence].
  - by rewrite IH.
Qed.

Lemma jsmap_remove_absent k m : JsMap.get k m = None → JsMap.remove k m = m.
Proof.
  unfold JsMap.remove. induction m as [|[k' v'] m IH]; simpl; [done|].
  destruct (String.eqb k k') eqn:E; simpl; [done|]. intros H. by rewrite IH.
Qed.

Lemma jsmap_has_get k m : JsMap.has k m = false ↔ JsMap.get k m = None.
Proof. unfold JsMap.has. destruct (JsMap.get k m); split; done. Qed.

Lemma jsmap_set_absent k v m :
  JsMap.get k m = None → JsMap.set k v m = (m ++ [(k, v)])%list.
Proof.
  induction m as [|[k' v'] m IH]; simpl; [done|].
  destruct (String.eqb k k') eqn:E; [done|]. intros H. by rewrite IH.
Qed.


Lemma jsmap_keys_set k v m :
  JsMap.keys (JsMap.set k v m) =
  if JsMap.has k m then JsMap.keys m else (JsMap.keys m ++ [k])%list.
Proof.
  unfold JsMap.keys, JsMap.has. induction m as [|[k' v'] m IH]; csimpl; [done|].
  destruct (String.eqb k k') eqn:E; csimpl; [done|].
  rewrite IH. by destruct (JsMap.get k m).
Qed.

Lemma jsmap_keys_remove k m :
  JsMap.keys (JsMap.remove k m) = List.filter (fun k' => negb (String.eqb k k')) (JsMap.keys m).
Proof.
  unfold JsMap.keys, JsMap.remove. induction m as [|[k' v'] m IH]; csimpl; [done|].
  destruct (String.eqb k k'); csimpl; by rewrite IH.
Qed.

End JsMapFacts.

Lemma reserved_cases k :
  reserved k ↔ k = "id" ∨ k = "createdAt" ∨ k = "updatedAt".
Proof. done. Qed.

Lemma payload_fields_object fields : payload_fields (JObj fields) = fields.
Proof. done. Qed.

Lemma payload_fields_non_object p : non_object p → payload_fields p = ∅.
Proof.
  unfold payload_fields. destruct p; simpl; try done.
  - by destruct b.
  - intros _. by destruct (negb (n =? 0)%Z).
  - intros _. by destruct (negb (s =? "")).
Qed.

Lemma sanitize_payload_fields p :
  sanitizeClientPayload p =
  base.delete "id" (base.delete "createdAt" (base.delete "updatedAt" (payload_fields p))).
Proof.
  unfold sanitizeClientPayload, payload_fields.
  destruct (truthy p), (typeof_object p); simpl; try done;
    by rewrite !delete_empty.
Qed.

Lemma sanitize_reserved p k : reserved k → sanitizeClientPayload p !! k = None.
Proof.
  rewrite sanitize_payload_fields. intros [-> | [-> | ->]].
  - apply lookup_delete_eq.
  - rewrite lookup_delete_ne by done. apply lookup_delete_eq.
  - rewrite !lookup_delete_ne by done. apply lookup_delete_eq.
Qed.

Lemma sanitize_other p k :
  ¬ reserved k → sanitizeClientPayload p !! k = payload_fields p !! k.
Proof.
  rewrite sanitize_payload_fields. unfold reserved. intros H.
  rewrite !lookup_delete_ne; [done | | |]; intros <-; tauto.
Qed.

Lemma sanitize_non_object p : non_object p → sanitizeClientPayload p = ∅.
Proof.
  intros H. rewrite sanitize_payload_fields, (payload_fields_non_object _ H).
  by rewrite !delete_empty.
Qed.

(** Sanitizing sees nothing of the reserved keys of a payload. *)
Lemma sanitize_ignores_reserved fields k v :
  reserved k →
  sanitizeClientPayload (JObj (<[k := v]> fields)) = sanitizeClientPayload (JObj fields).
Proof.
  intros Hk. apply map_eq. intros j.
  destruct (decide (reserved j)) as [Hj | Hj].
  - by rewrite !sanitize_reserved.
  - rewrite !sanitize_other, !payload_fields_object by done.
    apply lookup_insert_ne. intros ->. done.
Qed.

Lemma header_lookup_id i c u : header i c u !! "id" = Some (JStr i).
Proof. unfold header. by rewrite lookup_insert_eq. Qed.

Lemma header_lookup_createdAt i c u : header i c u !! "createdAt" = Some (JStr c).
Proof. unfold header. rewrite lookup_insert_ne by done. by rewrite lookup_insert_eq. Qed.

Lemma header_lookup_updatedAt i c u : header i c u !! "updatedAt" = Some (JStr u).
Proof. unfold header. rewrite !lookup_insert_ne by done. by rewrite lookup_insert_eq. Qed.

Lemma header_lookup_other i c u k : ¬ reserved k → header i c u !! k = None.
Proof.
  unfold header, reserved. intros H.
  rewrite !lookup_insert_ne; [apply lookup_empty | | |]; intros <-; tauto.
Qed.

Lemma spread_lookup (a b : JsObject) k :
  spread a b !! k = match b !! k with Some v => Some v | None => a !! k end.
Proof.
  unfold spread. rewrite lookup_union. destruct (b !! k), (a !! k); done.
Qed.


(* ================================================================== *)
(** * Facts about identifiers *)
(* ================================================================== *)

Ltac unfold_hex :=
  cbv [Uuid.randomUUID Mongo.generate Uuid.hex_bytes Uuid.hex_byte seq fmap list_fmap
       take drop String.concat String.append String.length].

Lemma randomUUID_length e : String.length (Uuid.randomUUID e) = 36%nat.
Proof. unfold_hex. reflexivity. Qed.

Lemma generate_length e : String.length (Mongo.generate e) = 24%nat.
Proof. unfold_hex. reflexivity. Qed.

Lemma hex_digit_lower_hex x :
  Mongo.is_hex (Uuid.hex_digit (N.land x 15)) = true
  ∧ Mongo.lower (Uuid.hex_digit (N.land x 15)) = Uuid.hex_digit (N.land x 15).
Proof.
  assert (N.land x 15 < 16)%N as Hlt.
  { change 15%N with (N.ones 4). rewrite N.land_ones. by apply N.mod_lt. }
  revert Hlt. generalize (N.land x 15). intros n Hn.
  assert (n = 0 ∨ n = 1 ∨ n = 2 ∨ n = 3 ∨ n = 4 ∨ n = 5 ∨ n = 6 ∨ n = 7
          ∨ n = 8 ∨ n = 9 ∨ n = 10 ∨ n = 11 ∨ n = 12 ∨ n = 13 ∨ n = 14
          ∨ n = 15)%N as Hcases by lia.
  repeat (destruct Hcases as [-> | Hcases]; [by vm_compute|]).
  subst n. by vm_compute.
Qed.

Lemma all_hex_lower_fixed s :
  Forall (fun c => Mongo.is_hex c = true ∧ Mongo.lower c = c) (list_ascii_of_string s) →
  Mongo.all_hex s = true ∧ Mongo.lower_string s = s.
Proof.
  induction s as [|c s IH]; simpl; [done|].
  rewrite Forall_cons. intros [[Hc Hl] Hs]. destruct (IH Hs) as [-> ->].
  by rewrite Hc, Hl.
Qed.

Lemma parse_generate e : Mongo.tryParseObjectId (Mongo.generate e) = Some (Mongo.generate e).
Proof.
  unfold Mongo.tryParseObjectId. rewrite generate_length.
  destruct (all_hex_lower_fixed (Mongo.generate e)) as [-> ->]; [|done].
  unfold_hex. cbv [list_ascii_of_string].
  repeat (apply Forall_cons; split; [apply hex_digit_lower_hex|]).
  by apply Forall_nil.
Qed.

(* ================================================================== *)
(** * Facts about the records the stores build *)
(* ================================================================== *)

Lemma fresh_item_id id now p : item_id (fresh_item id now p) = id.
Proof.
  unfold item_id, fresh_item. rewrite spread_lookup.
  rewrite sanitize_reserved by (left; done). by rewrite header_lookup_id.
Qed.

Lemma fresh_item_lookup_reserved id now p :
  fresh_item id now p !! "id" = Some (JStr id)
  ∧ fresh_item id now p !! "createdAt" = Some (JStr now)
  ∧ fresh_item id now p !! "updatedAt" = Some (JStr now).
Proof.
  unfold fresh_item. rewrite !spread_lookup.
  rewrite !sanitize_reserved by (unfold reserved; tauto).
  by rewrite header_lookup_id, header_lookup_createdAt, header_lookup_updatedAt.
Qed.

Lemma data_fields_lookup (item : CrudItem) k :
  data_fields item !! k = if decide (reserved k) then None else item !! k.
Proof.
  unfold data_fields. destruct (decide (reserved k)) as [H | H].
  - apply map_lookup_filter_None. right. intros v _ Hn. by apply Hn.
  - destruct (item !! k) as [v|] eqn:E.
    + apply map_lookup_filter_Some. done.
    + apply map_lookup_filter_None. by left.
Qed.

(** Spreading fields without reserved keys over a header: the data fields
    of the result are those fields. *)
Lemma data_fields_spread_header id c u (fields : JsObject) :
  (∀ k, reserved k → fields !! k = None) →
  data_fields (spread (header id c u) fields) = fields.
Proof.
  intros Hplain. apply map_eq. intros k. rewrite data_fields_lookup.
  destruct (decide (reserved k)) as [H | H].
  - by rewrite Hplain.
  - rewrite spread_lookup, header_lookup_other by done. by destruct (fields !! k).
Qed.

Lemma fresh_item_data id now p :
  data_fields (fresh_item id now p) = sanitizeClientPayload p.
Proof. apply data_fields_spread_header. intros k. apply sanitize_reserved. Qed.

Lemma memory_create_eq p c e items :
  MemoryStore.create p c e items =
  (fresh_item (Uuid.randomUUID e) (Iso.nowIso c) p,
   JsMap.set (Uuid.randomUUID e) (fresh_item (Uuid.randomUUID e) (Iso.nowIso c) p) items).
Proof. unfold MemoryStore.create. cbv zeta. fold (fresh_item (Uuid.randomUUID e) (Iso.nowIso c) p). by rewrite fresh_item_id. Qed.

Lemma memory_update_eq id p c items :
  MemoryStore.update id p c items =
  match JsMap.get id items with
  | None => (None, items)
  | Some existing =>
      (Some (merged_item existing (Iso.nowIso c) p),
       JsMap.set id (merged_item existing (Iso.nowIso c) p) items)
  end.
Proof. done. Qed.

Lemma merged_item_lookup existing now p k :
  merged_item existing now p !! k =
  if decide (k = "updatedAt") then Some (JStr now)
  else if decide (reserved k) then existing !! k
  else match payload_fields p !! k with
       | Some v => Some v
       | None => existing !! k
       end.
Proof.
  unfold merged_item. destruct (decide (k = "updatedAt")) as [-> | Hne].
  - by rewrite lookup_insert_eq.
  - rewrite lookup_insert_ne by done. rewrite spread_lookup.
    destruct (decide (reserved k)) as [H | H].
    + by rewrite sanitize_reserved.
    + by rewrite sanitize_other.
Qed.

(* ================================================================== *)
(** * Facts about the document adapter *)
(* ================================================================== *)

Lemma pick_fold_lookup (raw : JsObject) keys (acc : JsObject) k :
  fold_left
    (fun picked key =>
       match js_get raw key with
       | JUndefined | JNull => picked
       | value => <[key := value]> picked
       end) keys acc !! k
  = if decide (k ∈ keys)
    then (if settable (js_get raw k) then Some (js_get raw k) else acc !! k)
    else acc !! k.
Proof.
  revert acc. induction keys as [|a keys IH]; intros acc; simpl.
  - destruct (decide (k ∈ [])) as [H | _]; [by apply elem_of_nil in H | done].
  - rewrite IH. clear IH.
    destruct (decide (k ∈ keys)) as [Hin | Hnin].
    + rewrite decide_True by (apply elem_of_cons; by right). 
      destruct (settable (js_get raw k)) eqn:Hs; [done|].
      destruct (decide (a = k)) as [-> | Hne].
      * destruct (js_get raw k); simpl in Hs; done.
      * destruct (js_get raw a); try done; by rewrite lookup_insert_ne.
    + destruct (decide (a = k)) as [-> | Hne].
      * rewrite decide_True by (apply elem_of_cons; by left).
        destruct (js_get raw k); simpl; try done; by rewrite lookup_insert_eq.
      * rewrite decide_False by (rewrite elem_of_cons; intros [-> | ?]; done).
        destruct (js_get raw a); try done; by rewrite lookup_insert_ne.
Qed.

Lemma pick_lookup s p k :
  Mongo.pickStructuredInsert s p !! k
  = if decide (k ∈ schema_keys s)
    then (if settable (js_get (sanitizeClientPayload p) k)
          then Some (js_get (sanitizeClientPayload p) k) else None)
    else None.
Proof.
  unfold Mongo.pickStructuredInsert. rewrite pick_fold_lookup.
  by rewrite lookup_empty.
Qed.

Lemma js_get_sanitize_reserved p k :
  reserved k → js_get (sanitizeClientPayload p) k = JUndefined.
Proof. intros H. unfold js_get. by rewrite sanitize_reserved. Qed.

Lemma pick_reserved s p k : reserved k → Mongo.pickStructuredInsert s p !! k = None.
Proof.
  intros H. rewrite pick_lookup, js_get_sanitize_reserved by done.
  by destruct (decide _).
Qed.

Lemma split_fold (raw : JsObject) keys (set0 : JsObject) (unset0 : gmap string string) :
  fold_left
    (fun acc key =>
       let '(set, unset) := acc in
       match js_get raw key with
       | JUndefined => (set, unset)
       | JNull => (set, <[key := ""]> unset)
       | value => (<[key := value]> set, unset)
       end) keys (set0, unset0)
  = (fold_left
       (fun picked key =>
          match js_get raw key with
          | JUndefined | JNull => picked
          | value => <[key := value]> picked
          end) keys set0,
     fold_left
       (fun unset key => if is_null (js_get raw key) then <[key := ""]> unset else unset)
       keys unset0).
Proof.
  revert set0 unset0. induction keys as [|a keys IH]; intros set0 unset0; simpl; [done|].
  destruct (js_get raw a); simpl; apply IH.
Qed.

Lemma unset_fold_lookup (raw : JsObject) keys (acc : gmap string string) k :
  fold_left
    (fun unset key => if is_null (js_get raw key) then <[key := ""]> unset else unset)
    keys acc !! k
  = if decide (k ∈ keys)
    then (if is_null (js_get raw k) then Some "" else acc !! k)
    else acc !! k.
Proof.
  revert acc. induction keys as [|a keys IH]; intros acc; simpl.
  - destruct (decide (k ∈ [])) as [H | _]; [by apply elem_of_nil in H | done].
  - rewrite IH. clear IH.
    destruct (decide (k ∈ keys)) as [Hin | Hnin].
    + rewrite decide_True by (apply elem_of_cons; by right).
      destruct (is_null (js_get raw k)) eqn:Hs; [done|].
      destruct (decide (a = k)) as [-> | Hne].
      * by rewrite Hs.
      * destruct (is_null (js_get raw a)); [by rewrite lookup_insert_ne | done].
    + destruct (decide (a = k)) as [-> | Hne].
      * rewrite decide_True by (apply elem_of_cons; by left).
        destruct (is_null (js_get raw k)); [by rewrite lookup_insert_eq | done].
      * rewrite decide_False by (rewrite elem_of_cons; intros [-> | ?]; done).
        destruct (is_null (js_get raw a)); [by rewrite lookup_insert_ne | done].
Qed.

(** The [$set] part of a patch holds the schema fields the payload gives
    a value, the [$unset] part those it sets to [null]. *)
Lemma split_lookup s p k :
  let raw := sanitizeClientPayload p in
  fst (Mongo.splitStructuredPatch s p) !! k
  = (if decide (k ∈ schema_keys s)
     then (if settable (js_get raw k) then Some (js_get raw k) else None)
     else None)
  ∧ snd (Mongo.splitStructuredPatch s p) !! k
  = (if decide (k ∈ schema_keys s)
     then (if is_null (js_get raw k) then Some "" else None)
     else None).
Proof.
  intros raw. unfold Mongo.splitStructuredPatch. fold raw. rewrite split_fold.
  cbn [fst snd]. rewrite pick_fold_lookup, unset_fold_lookup.
  by rewrite !lookup_empty.
Qed.

Lemma split_non_object s p :
  non_object p → Mongo.splitStructuredPatch s p = (∅, ∅).
Proof.
  intros H. 
  destruct (Mongo.splitStructuredPatch s p) as [set unset] eqn:E.
  f_equal; apply map_eq; intros k; rewrite lookup_empty.
  - pose proof (proj1 (split_lookup s p k)) as L. rewrite E in L. cbn [fst] in L.
    rewrite L. rewrite sanitize_non_object by done. unfold js_get. rewrite lookup_empty.
    by destruct (decide _).
  - pose proof (proj2 (split_lookup s p k)) as L. rewrite E in L. cbn [snd] in L.
    rewrite L. rewrite sanitize_non_object by done. unfold js_get. rewrite lookup_empty.
    by destruct (decide _).
Qed.

Lemma pick_non_object s p : non_object p → Mongo.pickStructuredInsert s p = ∅.
Proof.
  intros H. apply map_eq. intros k. rewrite pick_lookup, lookup_empty.
  rewrite sanitize_non_object by done. unfold js_get. rewrite lookup_empty.
  by destruct (decide _).
Qed.

(* ================================================================== *)
(** * Facts about collections and tables *)
(* ================================================================== *)

Lemma mongo_has_id_true oid d : Mongo.has_id oid d = true ↔ Mongo._id d = Some oid.
Proof.
  unfold Mongo.has_id. destruct (Mongo._id d) as [o|]; [|done].
  rewrite String.eqb_eq. split; congruence.
Qed.

Lemma mongo_existsb_false oid ds :
  oid ∉ (fun d => default "" (Mongo._id d)) <$> ds →
  (∀ d, d ∈ ds → is_Some (Mongo._id d)) →
  existsb (Mongo.has_id oid) ds = false.
Proof.
  induction ds as [|d ds IH]; csimpl; [done|].
  rewrite not_elem_of_cons. intros [Hne Hnin] Hsome.
  rewrite IH; [|done|intros d' ?; apply Hsome; by right].
  destruct (Mongo.has_id oid d) eqn:E; [|done].
  apply mongo_has_id_true in E. rewrite E in Hne. done.
Qed.


Lemma mongo_remove_first_absent oid ds :
  existsb (Mongo.has_id oid) ds = false → Mongo.remove_first oid ds = ds.
Proof.
  induction ds as [|d ds IH]; simpl; [done|].
  destruct (Mongo.has_id oid d); [done|]. intros H. by rewrite IH.
Qed.

Lemma mongo_find_app_fresh oid ds d :
  existsb (Mongo.has_id oid) ds = false → Mongo._id d = Some oid →
  List.find (Mongo.has_id oid) (ds ++ [d]) = Some d.
Proof.
  intros Hex Hd. induction ds as [|d' ds IH]; simpl in *.
  - by rewrite (proj2 (mongo_has_id_true oid d) Hd).
  - destruct (Mongo.has_id oid d'); [done | by apply IH].
Qed.

Lemma mongo_with_docs_same c : Mongo.with_docs c (Mongo.docs c) = c.
Proof. by destruct c. Qed.


Lemma pg_filter_absent key (t : list Postgres.CrudRow) :
  key ∉ Postgres.id <$> t → List.filter (Postgres.has_id key) t = [].
Proof.
  induction t as [|row t IH]; csimpl; [done|].
  rewrite not_elem_of_cons. intros [Hne Hnin].
  unfold Postgres.has_id at 1. rewrite eqb_false_ne by done. by apply IH.
Qed.



Lemma pg_existsb_false key (t : list Postgres.CrudRow) :
  key ∉ Postgres.id <$> t → existsb (Postgres.has_id key) t = false.
Proof.
  induction t as [|row t IH]; csimpl; [done|].
  rewrite not_elem_of_cons. intros [Hne Hnin].
  unfold Postgres.has_id at 1. rewrite eqb_false_ne by done. by apply IH.
Qed.

Lemma pg_existsb_false_inv key (t : list Postgres.CrudRow) :
  existsb (Postgres.has_id key) t = false → key ∉ Postgres.id <$> t.
Proof.
  induction t as [|row t IH]; csimpl; [intros _; apply not_elem_of_nil|].
  rewrite orb_false_iff. intros [Hrow Hrest]. rewrite not_elem_of_cons.
  split; [|by apply IH]. unfold Postgres.has_id in Hrow.
  apply String.eqb_neq in Hrow. congruence.
Qed.


(** ** Parameters the server takes *)

Lemma pg_select key (t : Postgres.Table) :
  has_nul key = false →
  Postgres.select_by_id key t = Ok (List.filter (Postgres.has_id key) t).
Proof. intros H. unfold Postgres.select_by_id, Postgres.bind_text. by rewrite H. Qed.

Lemma pg_select_nul key (t : Postgres.Table) :
  has_nul key = true → Postgres.select_by_id key t = Err Postgres.text_error.
Proof. intros H. unfold Postgres.select_by_id, Postgres.bind_text. by rewrite H. Qed.

Lemma pg_insert key json dbnow (t : Postgres.Table) :
  has_nul key = false → Json.escapes_nul (JObj json) = false →
  Postgres.insert key json dbnow t
  = if existsb (Postgres.has_id key) t
    then (Err "duplicate key value violates unique constraint", t)
    else (Ok [Postgres.mkRow key dbnow dbnow json],
          (t ++ [Postgres.mkRow key dbnow dbnow json])%list).
Proof.
  intros H1 H2. unfold Postgres.insert, Postgres.bind_text, Postgres.bind_jsonb.
  by rewrite H1, H2.
Qed.


Lemma pg_update_merge key patch dbnow (t : Postgres.Table) :
  has_nul key = false → Json.escapes_nul (JObj patch) = false →
  Postgres.update_merge key patch dbnow t
  = (Ok (Postgres.merge_row patch dbnow <$> List.filter (Postgres.has_id key) t),
     (fun row => if Postgres.has_id key row
                 then Postgres.merge_row patch dbnow row else row) <$> t).
Proof.
  intros H1 H2. unfold Postgres.update_merge, Postgres.bind_text, Postgres.bind_jsonb.
  by rewrite H1, H2.
Qed.

Lemma pg_update_refused key patch dbnow (t : Postgres.Table) :
  has_nul key || Json.escapes_nul (JObj patch) = true →
  ∃ m, Postgres.update_merge key patch dbnow t = (Err m, t).
Proof.
  intros H. unfold Postgres.update_merge, Postgres.bind_text, Postgres.bind_jsonb.
  destruct (has_nul key); [by eexists|].
  destruct (Json.escapes_nul (JObj patch)); [by eexists | done].
Qed.

Lemma pg_delete_by_id key (t : Postgres.Table) :
  has_nul key = false →
  Postgres.delete_by_id key t
  = (Ok (List.length (List.filter (Postgres.has_id key) t)),
     List.filter (fun row => negb (Postgres.has_id key row)) t).
Proof. intros H. unfold Postgres.delete_by_id, Postgres.bind_text. by rewrite H. Qed.

Lemma pg_delete_nul key (t : Postgres.Table) :
  has_nul key = true →
  Postgres.delete_by_id key t = (Err Postgres.text_error, t).
Proof. intros H. unfold Postgres.delete_by_id, Postgres.bind_text. by rewrite H. Qed.

(** What a statement leaves in the table, whether the server ran it or
    refused it. *)
Lemma pg_create_table model P e dbnow (t : Postgres.Table) :
  snd (Postgres.create model P e dbnow t) = t
  ∨ existsb (Postgres.has_id (Uuid.randomUUID e)) t = false
    ∧ snd (Postgres.create model P e dbnow t)
      = (t ++ [Postgres.mkRow (Uuid.randomUUID e) dbnow dbnow
                 (Postgres.to_jsonb (sanitizeClientPayload P))])%list.
Proof.
  unfold Postgres.create, Postgres.insert. cbv zeta.
  destruct (Postgres.bind_text _) as [[]|m]; [|by left].
  destruct (Postgres.bind_jsonb _) as [[]|m]; [|by left].
  destruct (existsb _ t); [by left | by right].
Qed.

Lemma pg_update_table model i P dbnow (t : Postgres.Table) :
  snd (Postgres.update model i P dbnow t) = t
  ∨ has_nul i = false
    ∧ snd (Postgres.update model i P dbnow t)
      = (fun row => if Postgres.has_id i row
                    then Postgres.merge_row (Postgres.to_jsonb (sanitizeClientPayload P))
                           dbnow row
                    else row) <$> t.
Proof.
  unfold Postgres.update, Postgres.update_merge, Postgres.bind_text. cbv zeta.
  destruct (has_nul i); [by left|].
  destruct (Postgres.bind_jsonb _) as [[]|m]; [by right | by left].
Qed.

Lemma pg_delete_table model i (t : Postgres.Table) :
  snd (Postgres.delete model i t) = t
  ∨ has_nul i = false
    ∧ snd (Postgres.delete model i t)
      = List.filter (fun row => negb (Postgres.has_id i row)) t.
Proof.
  unfold Postgres.delete, Postgres.delete_by_id, Postgres.bind_text.
  destruct (has_nul i); [by left | by right].
Qed.

(** A lookup the server answers was made with an id it takes. *)
Lemma relational_getById_text model i (t : Postgres.Table) x :
  Postgres.getById model i t = Ok x → has_nul i = false.
Proof.
  unfold Postgres.getById, Postgres.select_by_id, Postgres.bind_text.
  by destruct (has_nul i).
Qed.

Lemma hex_digit_not_nul x :
  Ascii.eqb (Uuid.hex_digit (N.land x 15)) (ascii_of_nat 0) = false.
Proof.
  assert (N.land x 15 < 16)%N as Hlt.
  { change 15%N with (N.ones 4). rewrite N.land_ones. by apply N.mod_lt. }
  revert Hlt. generalize (N.land x 15). intros n Hn.
  assert (n = 0 ∨ n = 1 ∨ n = 2 ∨ n = 3 ∨ n = 4 ∨ n = 5 ∨ n = 6 ∨ n = 7
          ∨ n = 8 ∨ n = 9 ∨ n = 10 ∨ n = 11 ∨ n = 12 ∨ n = 13 ∨ n = 14
          ∨ n = 15)%N as Hcases by lia.
  repeat (destruct Hcases as [-> | Hcases]; [by vm_compute|]).
  subst n. by vm_compute.
Qed.

(** A generated id is text the server takes. *)
Lemma randomUUID_text e : has_nul (Uuid.randomUUID e) = false.
Proof.
  unfold_hex. cbn [has_nul].
  repeat (first [rewrite hex_digit_not_nul | progress cbn [Ascii.eqb Bool.eqb orb has_nul]]).
  reflexivity.
Qed.

(* ================================================================== *)
(** * Not-found conditions *)
(* ================================================================== *)

Lemma file_store_eta (st : JsonFileStore.Store) :
  JsonFileStore.mkStore (JsonFileStore.filePath st) (JsonFileStore.items st) = st.
Proof. by destruct st. Qed.




(** The serialiser takes the update document of a payload the backend
    can take. *)
Lemma serializable_patch model p o :
  takes_patch (Document model) p →
  Mongo.serializable (update_spec model p o) = true.
Proof.
  cbn [takes_patch]. unfold update_spec, Mongo.serializable.
  destruct (Mongo.splitStructuredPatch (schema model) p) as [set unset].
  cbn [fst snd Mongo.set_fields Mongo.unset_fields].
  intros [Hset Hunset]. rewrite Hset. cbn [negb andb].
  destruct (bool_decide (unset = ∅)); [done|].
  apply negb_true_iff. apply not_true_is_false. intros Hex.
  apply existsb_exists in Hex as ([k v] & Hin & Hk).
  apply list_elem_of_In, elem_of_map_to_list in Hin. cbn in Hk.
  rewrite (Hunset k) in Hk; [done | by eexists].
Qed.




(** C3. The claim fails on the relational adapter: the id made of the
    character U+0000 has no record, yet the server refuses it as a
    parameter and [getById], [update] and [delete] throw the wrapped
    error instead of answering absent, absent and [false]. *)
Lemma relational_lookup_of_nul_id_throws :
  let i := String (ascii_of_nat 0) "" in
  let s : state (Relational todo) := [] in
  no_record (Relational todo) i s
  ∧ Store.getById (store_of (Relational todo)) i s
    = Err (Postgres.asPostgresOpError ("getById(" ++ i ++ ")") (Some "Todo")
             Postgres.text_error)
  ∧ fst (Store.update (store_of (Relational todo)) i buy_milk at_noon s)
    = Err (Postgres.asPostgresOpError ("update(" ++ i ++ ")") (Some "Todo")
             Postgres.text_error)
  ∧ fst (Store.delete (store_of (Relational todo)) i at_noon s)
    = Err (Postgres.asPostgresOpError ("delete(" ++ i ++ ")") (Some "Todo")
             Postgres.text_error).
Proof.
  intros i s. split_and!; [|reflexivity..].
  intros key _. apply not_elem_of_nil.
Qed.

(* ================================================================== *)
(** * Creating and reading back *)
(* ================================================================== *)

Lemma normalize_obj fields :
  Json.normalize (JObj fields)
  = JObj (filter (fun kv => Json.is_undefined (snd kv) = false)
            (Json.normalize <$> fields)).
Proof. reflexivity. Qed.

Lemma to_jsonb_lookup obj k :
  Postgres.to_jsonb obj !! k
  = match obj !! k with
    | Some v => if Json.is_undefined v then None else Some (Json.normalize v)
    | None => None
    end.
Proof.
  unfold Postgres.to_jsonb. rewrite normalize_obj.
  destruct (obj !! k) as [v|] eqn:E.
  - destruct (Json.is_undefined v) eqn:U.
    + apply map_lookup_filter_None. right. intros w Hw. rewrite lookup_fmap, E in Hw.
      injection Hw as <-. cbn. destruct v; simpl in *; congruence.
    + apply map_lookup_filter_Some. rewrite lookup_fmap, E. split; [done|].
      cbn. destruct v; simpl in *; try congruence; done.
  - apply map_lookup_filter_None. left. by rewrite lookup_fmap, E.
Qed.

Lemma to_jsonb_lookup_none obj k : obj !! k = None → Postgres.to_jsonb obj !! k = None.
Proof. intros H. by rewrite to_jsonb_lookup, H. Qed.

Lemma to_jsonb_empty : Postgres.to_jsonb ∅ = ∅.
Proof. apply map_eq. intros k. by rewrite to_jsonb_lookup, !lookup_empty. Qed.

Lemma to_jsonb_sanitize_plain p : plain_fields (Postgres.to_jsonb (sanitizeClientPayload p)).
Proof. intros k Hk. apply to_jsonb_lookup_none. by apply sanitize_reserved. Qed.

Lemma sanitize_plain p : plain_fields (sanitizeClientPayload p).
Proof. intros k Hk. by apply sanitize_reserved. Qed.

Lemma pick_plain s p : plain_fields (Mongo.pickStructuredInsert s p).
Proof. intros k Hk. by apply pick_reserved. Qed.

(** A record built over plain fields carries the header's id and times. *)
Lemma spread_header_reserved id c u (fields : JsObject) :
  plain_fields fields →
  spread (header id c u) fields !! "id" = Some (JStr id)
  ∧ spread (header id c u) fields !! "createdAt" = Some (JStr c)
  ∧ spread (header id c u) fields !! "updatedAt" = Some (JStr u).
Proof.
  intros Hp. rewrite !spread_lookup.
  rewrite !Hp by (unfold reserved; tauto).
  by rewrite header_lookup_id, header_lookup_createdAt, header_lookup_updatedAt.
Qed.

Lemma spread_header_id id c u (fields : JsObject) :
  plain_fields fields → item_id (spread (header id c u) fields) = id.
Proof.
  intros Hp. unfold item_id.
  by rewrite (proj1 (spread_header_reserved id c u fields Hp)).
Qed.

Lemma string_length_app (a b : string) :
  String.length (a ++ b) = (String.length a + String.length b)%nat.
Proof. induction a as [|c a IH]; simpl; [done | by rewrite IH]. Qed.

Lemma tempPath_ne path pid w : JsonFileStore.tempPath path pid w ≠ path.
Proof.
  unfold JsonFileStore.tempPath. intros H.
  apply (f_equal String.length) in H. rewrite string_length_app in H.
  simpl in H. lia.
Qed.

Lemma backupPath_ne path w : JsonFileStore.backupPath path w ≠ path.
Proof.
  unfold JsonFileStore.backupPath. intros H.
  apply (f_equal String.length) in H. rewrite string_length_app in H.
  simpl in H. lia.
Qed.

(** [atomicWriteJson] step by step. *)
Lemma atomicWriteJson_steps path data pid w fs :
  JsonFileStore.atomicWriteJson path data pid w fs
  = match Fs.mkdirSync (Path.dirname path) fs with
    | (Some _, fs1) =>
        match Fs.writeFileSync (JsonFileStore.tempPath path pid w)
                (Json.stringify data) fs1 with
        | (Some _, fs2) =>
            Fs.renameSync (JsonFileStore.tempPath path pid w) path fs2
        | (None, fs2) => (None, fs2)
        end
    | (None, fs1) => (None, fs1)
    end.
Proof. reflexivity. Qed.

(** Whether the write goes through does not depend on what is written. *)
Lemma atomicWriteJson_success path d1 d2 pid w fs :
  fst (JsonFileStore.atomicWriteJson path d1 pid w fs)
  = fst (JsonFileStore.atomicWriteJson path d2 pid w fs).
Proof.
  rewrite !atomicWriteJson_steps.
  destruct (Fs.mkdirSync (Path.dirname path) fs) as [[[]|] fs1]; [|done].
  unfold Fs.writeFileSync.
  destruct (fs1 !! JsonFileStore.tempPath path pid w) as [[c|]|]; cbn; try done.
  all: unfold Fs.renameSync; rewrite !lookup_insert_eq;
    rewrite !lookup_insert_ne by apply tempPath_ne;
    by destruct (fs1 !! path) as [[?|]|].
Qed.

Lemma flush_writable st o fs :
  writable (JsonFileStore.filePath st) o fs →
  ∃ fs', JsonFileStore.flush st (Store.pid o) (Store.wclock o) fs = (Some tt, fs').
Proof.
  unfold writable, JsonFileStore.flush. intros H.
  rewrite (atomicWriteJson_success _ _ (JsonFileStore.persisted_data (JsonFileStore.items st))) in H.
  destruct (JsonFileStore.atomicWriteJson _ _ _ _ _) as [r fs']. cbn in H. subst r.
  by exists fs'.
Qed.

Lemma memory_round_trip (s : MemoryStore.Store) P o :
  ∃ r s', Store.create memory_store P o s = (Ok r, s')
    ∧ Store.getById memory_store (item_id r) s' = Ok (Some r).
Proof.
  cbn -[MemoryStore.create]. rewrite memory_create_eq. eexists _, _. split; [done|].
  cbn. unfold MemoryStore.getById. by rewrite fresh_item_id, jsmap_get_set_eq.
Qed.

Lemma file_round_trip (s : JsonFileStore.Store * gmap string Fs.Node) P o :
  writable (JsonFileStore.filePath (fst s)) o (snd s) →
  ∃ r s', Store.create file_store P o s = (Ok r, s')
    ∧ Store.getById file_store (item_id r) s' = Ok (Some r).
Proof.
  destruct s as [st fs]. cbn -[JsonFileStore.create]. intros Hw.
  unfold JsonFileStore.create.
  fold (fresh_item (Uuid.randomUUID (Store.entropy o)) (Iso.nowIso (Store.clock o)) P).
  rewrite fresh_item_id.
  set (item := fresh_item _ _ P).
  set (st' := JsonFileStore.mkStore _ _).
  destruct (flush_writable st' o fs Hw) as [fs' ->]. cbn.
  eexists _, _. split; [done|]. cbn.
  unfold JsonFileStore.getById. cbn. subst item.
  by rewrite fresh_item_id, jsmap_get_set_eq.
Qed.

(** ** Values as the document adapter stores them *)

Lemma bson_normalize_header id c u (fields : JsObject) :
  Bson.normalize <$> spread (header id c u) fields
  = spread (header id c u) (Bson.normalize <$> fields).
Proof.
  unfold spread, header. by rewrite map_fmap_union, !fmap_insert, fmap_empty.
Qed.

Lemma bson_matches_normalize ty v :
  Mongo.bson_matches ty (Mongo.VJs (Bson.normalize v))
  = Mongo.bson_matches ty (Mongo.VJs v).
Proof. by destruct ty, v. Qed.

Lemma doc_field_serialize doc key :
  Mongo.doc_field (Mongo.serialize doc) key
  = (fun v => match v with
              | Mongo.VJs x => Mongo.VJs (Bson.normalize x)
              | other => other
              end) <$> Mongo.doc_field doc key.
Proof.
  unfold Mongo.doc_field, Mongo.serialize. cbn [Mongo._id Mongo.rest].
  repeat (destruct (String.eqb key _); [by destruct (Mongo._id doc)|]).
  rewrite lookup_fmap. by destruct (Mongo.rest doc !! key).
Qed.

Lemma forallb_pointwise {A} (f g : A → bool) (l : list A) :
  (∀ x, f x = g x) → forallb f l = forallb g l.
Proof. intros H. induction l as [|x l IH]; cbn; [done|]. by rewrite H, IH. Qed.

(** The validator sees the same types before and after serialisation. *)
Lemma admits_serialize c doc :
  Mongo.admits c (Mongo.serialize doc) = Mongo.admits c doc.
Proof.
  unfold Mongo.admits. destruct (Mongo.validator c) as [js|]; [|done].
  unfold Mongo.satisfies. f_equal.
  - apply forallb_pointwise. intros key. rewrite doc_field_serialize.
    by destruct (Mongo.doc_field doc key).
  - apply forallb_pointwise. intros [key ty]. cbn [fst snd]. rewrite doc_field_serialize.
    destruct (Mongo.doc_field doc key) as [[| |v]|]; cbn; try done.
    apply bson_matches_normalize.
Qed.

Lemma relational_round_trip model (t : Postgres.Table) P o :
  Uuid.randomUUID (Store.entropy o) ∉ Postgres.id <$> t →
  nul_free P →
  ∃ r t', Store.create (relational_store model) P o t = (Ok r, t')
    ∧ Store.getById (relational_store model) (item_id r) t' = Ok (Some r).
Proof.
  intros Hfresh Hp. cbn. unfold Postgres.create.
  rewrite pg_insert by (done || apply randomUUID_text).
  rewrite pg_existsb_false by done. cbn.
  eexists _, _. split; [done|].
  unfold Postgres.rowToCrudItem at 1. cbn.
  rewrite spread_header_id by apply to_jsonb_sanitize_plain.
  unfold Postgres.getById. rewrite pg_select by apply randomUUID_text.
  rewrite List.filter_app, pg_filter_absent by done. cbn.
  unfold Postgres.has_id. cbn. by rewrite String.eqb_refl.
Qed.

Lemma document_round_trip model (c : Mongo.Collection) P o :
  (∀ d, d ∈ Mongo.docs c → is_Some (Mongo._id d)) →
  Mongo.generate (Store.entropy o) ∉ (fun d => default "" (Mongo._id d)) <$> Mongo.docs c →
  Mongo.admits c (new_doc model P o) = true →
  Bson.key_has_nul (JObj (Mongo.pickStructuredInsert (schema model) P)) = false →
  ∃ r c', Store.create (document_store model) P o c = (Ok r, c')
    ∧ Store.getById (document_store model) (item_id r) c'
      = Ok (Some (Bson.normalize <$> r)).
Proof.
  intros Hsome Hfresh Hadm Hkeys.
  pose proof (mongo_existsb_false _ _ Hfresh Hsome) as Hex.
  cbn [Store.create Store.getById document_store].
  unfold Mongo.create, Mongo.insertOne. cbn [Mongo._id Mongo.rest].
  rewrite Hkeys, Hex, admits_serialize. unfold new_doc in Hadm. rewrite Hadm. cbn [negb].
  unfold Mongo.docToCrudItem, Mongo.wrap. cbn [Mongo._id Mongo.createdAt Mongo.updatedAt Mongo.rest].
  eexists _, _. split; [done|].
  rewrite spread_header_id by apply pick_plain.
  unfold Mongo.getById, Mongo.buildLookup, Mongo.toHexString.
  rewrite parse_generate. unfold Mongo.findOne, Mongo.with_docs. cbn [Mongo.docs].
  rewrite mongo_find_app_fresh by done.
  unfold Mongo.docToCrudItem, Mongo.wrap, Mongo.toHexString, Mongo.serialize.
  cbn [Mongo._id Mongo.createdAt Mongo.updatedAt Mongo.rest].
  by rewrite bson_normalize_header.
Qed.

Lemma mongo_existsb_false_inv oid ds :
  existsb (Mongo.has_id oid) ds = false →
  (∀ d, d ∈ ds → is_Some (Mongo._id d)) →
  oid ∉ (fun d => default "" (Mongo._id d)) <$> ds.
Proof.
  induction ds as [|d ds IH]; csimpl; [intros _ _; apply not_elem_of_nil|].
  rewrite orb_false_iff. intros [Hd Hrest] Hsome. rewrite not_elem_of_cons.
  split; [|apply IH; [done | intros d' ?; apply Hsome; by right]].
  destruct (Hsome d) as [o Ho]; [by left|]. rewrite Ho. cbn. intros ->.
  apply (proj2 (mongo_has_id_true o d)) in Ho. congruence.
Qed.



Lemma randomUUID_nonempty e : Uuid.randomUUID e ≠ "".
Proof. intros H. pose proof (randomUUID_length e) as L. rewrite H in L. discriminate L. Qed.

Lemma generate_nonempty e : Mongo.generate e ≠ "".
Proof. intros H. pose proof (generate_length e) as L. rewrite H in L. discriminate L. Qed.


(* ================================================================== *)
(** * What [create] stores *)
(* ================================================================== *)

Lemma js_get_sanitize_other p k :
  ¬ reserved k → js_get (sanitizeClientPayload p) k = js_get (payload_fields p) k.
Proof. intros H. unfold js_get. by rewrite sanitize_other. Qed.

Lemma spread_header_other id c u (fields : JsObject) k :
  ¬ reserved k → spread (header id c u) fields !! k = fields !! k.
Proof.
  intros H. rewrite spread_lookup, header_lookup_other by done.
  by destruct (fields !! k).
Qed.

(** What the memory and file stores build for [create]. *)
Lemma fresh_item_spec id now p :
  id ≠ "" →
  item_id (fresh_item id now p) ≠ ""
  ∧ (∃ t, fresh_item id now p !! "createdAt" = Some (JStr t)
          ∧ fresh_item id now p !! "updatedAt" = Some (JStr t))
  ∧ (∀ k, ¬ reserved k → fresh_item id now p !! k = payload_fields p !! k).
Proof.
  intros Hid. rewrite fresh_item_id. split; [done|]. split.
  - exists now. by destruct (fresh_item_lookup_reserved id now p) as (_ & ? & ?).
  - intros k Hk. unfold fresh_item.
    by rewrite spread_header_other, sanitize_other.
Qed.

(** A record over plain fields: header and fields. *)
Lemma spread_header_spec id c (fields : JsObject) :
  id ≠ "" → plain_fields fields →
  item_id (spread (header id c c) fields) ≠ ""
  ∧ (∃ t, spread (header id c c) fields !! "createdAt" = Some (JStr t)
          ∧ spread (header id c c) fields !! "updatedAt" = Some (JStr t))
  ∧ (∀ k, ¬ reserved k → spread (header id c c) fields !! k = fields !! k).
Proof.
  intros Hid Hp. rewrite spread_header_id by done. split; [done|]. split.
  - exists c. by destruct (spread_header_reserved id c c fields Hp) as (_ & ? & ?).
  - intros k Hk. by apply spread_header_other.
Qed.

Lemma memory_create_spec (s : MemoryStore.Store) P o r s' :
  Store.create memory_store P o s = (Ok r, s') →
  r = fresh_item (Uuid.randomUUID (Store.entropy o)) (Iso.nowIso (Store.clock o)) P.
Proof.
  cbn -[MemoryStore.create]. rewrite memory_create_eq. by intros [= <- _].
Qed.

Lemma file_create_spec (s : JsonFileStore.Store * gmap string Fs.Node) P o r s' :
  Store.create file_store P o s = (Ok r, s') →
  r = fresh_item (Uuid.randomUUID (Store.entropy o)) (Iso.nowIso (Store.clock o)) P.
Proof.
  destruct s as [st fs]. cbn -[JsonFileStore.create].
  unfold JsonFileStore.create.
  fold (fresh_item (Uuid.randomUUID (Store.entropy o)) (Iso.nowIso (Store.clock o)) P).
  destruct (JsonFileStore.flush _ _ _ _) as [[[]|] fs']; cbn; [|done].
  by intros [= <- _].
Qed.

Lemma relational_create_spec model (t : Postgres.Table) P o r t' :
  Store.create (relational_store model) P o t = (Ok r, t') →
  r = spread (header (Uuid.randomUUID (Store.entropy o))
                (Iso.toISOString (Store.clock o)) (Iso.toISOString (Store.clock o)))
             (Postgres.to_jsonb (sanitizeClientPayload P)).
Proof.
  cbn [Store.create relational_store]. unfold Postgres.create, Postgres.insert.
  destruct (Postgres.bind_text _); [|done].
  destruct (Postgres.bind_jsonb _); [|done].
  destruct (existsb _ t); cbn; [done|]. by intros [= <- _].
Qed.

Lemma document_create_spec model (c : Mongo.Collection) P o r c' :
  Store.create (document_store model) P o c = (Ok r, c') →
  r = spread (header (Mongo.generate (Store.entropy o))
                (Iso.toISOString (Store.clock o)) (Iso.toISOString (Store.clock o)))
             (Mongo.pickStructuredInsert (schema model) P).
Proof.
  cbn [Store.create document_store]. unfold Mongo.create, Mongo.insertOne.
  cbn [Mongo._id Mongo.rest]. destruct (Bson.key_has_nul _); cbn; [done|].
  destruct (existsb _ (Mongo.docs c)); cbn; [done|].
  destruct (negb _); cbn; [done|]. by intros [= <- _].
Qed.


(** Every adapter reads the payload only through [sanitizeClientPayload]. *)
Lemma create_through_sanitize (b : Backend) (s : state b) P P' o :
  sanitizeClientPayload P' = sanitizeClientPayload P →
  Store.create (store_of b) P' o s = Store.create (store_of b) P o s.
Proof.
  intros H. destruct b as [| | model | model]; cbn.
  - unfold MemoryStore.create. by rewrite H.
  - unfold JsonFileStore.create. by rewrite H.
  - unfold Postgres.create. by rewrite H.
  - unfold Mongo.create, Mongo.pickStructuredInsert. by rewrite H.
Qed.

(** C2, as the code has it. When [create(P)] returns a record, its id is
    non-empty, [createdAt] equals [updatedAt], and its remaining fields
    are: on the memory and file stores every field of [P] other than [id],
    [createdAt], [updatedAt], declared or not; on the relational adapter
    the same fields after their JSON round trip; on the document adapter,
    for a schema of ordinary field names, the schema-declared fields of
    [P] that hold a value other than [null] and [undefined]. A client-sent
    [id], [createdAt] or [updatedAt] never changes what [create] does. *)
Theorem create_stores_sanitized_fields (b : Backend) (s : state b)
    (P : JsValue) (o : Store.Oracle) (r : CrudItem) (s' : state b) :
  ordinary b →
  Store.create (store_of b) P o s = (Ok r, s') →
  item_id r ≠ ""
  ∧ (∃ t, r !! "createdAt" = Some (JStr t) ∧ r !! "updatedAt" = Some (JStr t))
  ∧ (∀ k, ¬ reserved k → r !! k = expected_field b P k)
  ∧ (∀ fields k v, P = JObj fields → reserved k →
       Store.create (store_of b) (JObj (<[k := v]> fields)) o s = (Ok r, s')).
Proof.
  intros _ Hc.
  assert (∀ fields k v, P = JObj fields → reserved k →
       Store.create (store_of b) (JObj (<[k := v]> fields)) o s = (Ok r, s')) as Hign.
  { intros fields k v -> Hk. rewrite <- Hc. apply create_through_sanitize.
    by apply sanitize_ignores_reserved. }
  destruct b as [| | model | model]; cbn [store_of] in Hc.
  - apply memory_create_spec in Hc as ->.
    destruct (fresh_item_spec (Uuid.randomUUID (Store.entropy o))
                (Iso.nowIso (Store.clock o)) P (randomUUID_nonempty _))
      as (H1 & H2 & H3). done.
  - apply file_create_spec in Hc as ->.
    destruct (fresh_item_spec (Uuid.randomUUID (Store.entropy o))
                (Iso.nowIso (Store.clock o)) P (randomUUID_nonempty _))
      as (H1 & H2 & H3). done.
  - apply relational_create_spec in Hc as ->.
    destruct (spread_header_spec (Uuid.randomUUID (Store.entropy o))
                (Iso.toISOString (Store.clock o)) _ (randomUUID_nonempty _)
                (to_jsonb_sanitize_plain P)) as (H1 & H2 & H3).
    split_and!; try done. intros k Hk. rewrite H3 by done.
    cbn [expected_field]. by rewrite to_jsonb_lookup, sanitize_other.
  - apply document_create_spec in Hc as ->.
    destruct (spread_header_spec (Mongo.generate (Store.entropy o))
                (Iso.toISOString (Store.clock o)) _ (generate_nonempty _)
                (pick_plain (schema model) P)) as (H1 & H2 & H3).
    split_and!; try done. intros k Hk. rewrite H3 by done.
    cbn [expected_field]. by rewrite pick_lookup, js_get_sanitize_other.
Qed.

Lemma create_stores_sanitized_fields_witness :
  ∃ r s',
    Store.create (store_of Memory) buy_milk_priority at_noon MemoryStore.empty
    = (Ok r, s')
    ∧ item_id r ≠ ""
    ∧ r !! "priority" = Some (JNum 1).
Proof.
  eexists _, _.
  assert (Store.create (store_of Memory) buy_milk_priority at_noon MemoryStore.empty
          = (Ok (fresh_item (Uuid.randomUUID (Store.entropy at_noon))
                   (Iso.nowIso (Store.clock at_noon)) buy_milk_priority),
             JsMap.set (Uuid.randomUUID (Store.entropy at_noon))
               (fresh_item (Uuid.randomUUID (Store.entropy at_noon))
                  (Iso.nowIso (Store.clock at_noon)) buy_milk_priority)
               MemoryStore.empty)) as E.
  { cbn -[MemoryStore.create]. rewrite memory_create_eq. reflexivity. }
  destruct (create_stores_sanitized_fields Memory _ _ _ _ _ I E) as (H1 & _ & H3 & _).
  split; [exact E|]. split; [exact H1|]. rewrite H3.
  - vm_compute. reflexivity.
  - unfold reserved. intros [H | [H | H]]; discriminate H.
Defined.

(** C2 as stated fails: the memory store keeps a field the schema does not
    declare, so the record's fields are not the declared fields of the
    payload. *)
Lemma create_keeps_undeclared_field :
  let r := fst (MemoryStore.create buy_milk_priority 0 7 MemoryStore.empty) in
  ("priority" ∉ schema_keys (schema todo))
  ∧ r !! "priority" = Some (JNum 1)
  ∧ data_fields r ≠ declared_fields (schema todo) buy_milk_priority.
Proof.
  intros r. split_and!.
  - vm_compute. intros H. apply list_elem_of_In in H.
    destruct H as [H | [H | []]]; discriminate H.
  - vm_compute. reflexivity.
  - intros H. apply (f_equal (fun m => m !! "priority")) in H.
    vm_compute in H. discriminate H.
Qed.

(* ================================================================== *)
(** * What [update] stores *)
(* ================================================================== *)

Lemma memory_update_spec (s : MemoryStore.Store) i P o existing :
  Store.getById memory_store i s = Ok (Some existing) →
  Store.update memory_store i P o s
  = (Ok (Some (merged_item existing (Iso.nowIso (Store.clock o)) P)),
     JsMap.set i (merged_item existing (Iso.nowIso (Store.clock o)) P) s)
  ∧ Store.getById memory_store i
      (JsMap.set i (merged_item existing (Iso.nowIso (Store.clock o)) P) s)
    = Ok (Some (merged_item existing (Iso.nowIso (Store.clock o)) P)).
Proof.
  cbn -[MemoryStore.update]. unfold MemoryStore.getById. intros [= H].
  rewrite memory_update_eq, H. split; [done|]. by rewrite jsmap_get_set_eq.
Qed.

Lemma file_update_spec (s : JsonFileStore.Store * gmap string Fs.Node) i P o existing :
  writable (JsonFileStore.filePath (fst s)) o (snd s) →
  Store.getById file_store i s = Ok (Some existing) →
  ∃ s', Store.update file_store i P o s
        = (Ok (Some (merged_item existing (Iso.nowIso (Store.clock o)) P)), s')
    ∧ Store.getById file_store i s'
      = Ok (Some (merged_item existing (Iso.nowIso (Store.clock o)) P)).
Proof.
  destruct s as [st fs]. cbn -[JsonFileStore.update].
  unfold JsonFileStore.getById. intros Hw [= H].
  unfold JsonFileStore.update. rewrite H.
  fold (merged_item existing (Iso.nowIso (Store.clock o)) P).
  set (st' := JsonFileStore.mkStore _ _).
  destruct (flush_writable st' o fs Hw) as [fs' ->]. cbn.
  eexists. split; [done|]. cbn. by rewrite jsmap_get_set_eq.
Qed.

Lemma pg_filter_map key (f : Postgres.CrudRow → Postgres.CrudRow) (t : list Postgres.CrudRow) :
  (∀ row, Postgres.id (f row) = Postgres.id row) →
  List.filter (Postgres.has_id key)
    ((fun row => if Postgres.has_id key row then f row else row) <$> t)
  = f <$> List.filter (Postgres.has_id key) t.
Proof.
  intros Hid. induction t as [|row t IH]; csimpl; [done|].
  destruct (Postgres.has_id key row) eqn:E; csimpl.
  - unfold Postgres.has_id at 1. rewrite Hid. fold (Postgres.has_id key row).
    rewrite E. csimpl. by rewrite IH.
  - rewrite E. done.
Qed.

Lemma pg_filter_elem key (t : list Postgres.CrudRow) row rows :
  List.filter (Postgres.has_id key) t = row :: rows → row ∈ t ∧ Postgres.id row = key.
Proof.
  intros H. assert (In row (List.filter (Postgres.has_id key) t)) as Hin.
  { rewrite H. by left. }
  apply List.filter_In in Hin as [Hin Hid]. split; [by apply list_elem_of_In|].
  by apply String.eqb_eq in Hid.
Qed.

Lemma relational_update_spec model (t : Postgres.Table) i P o existing :
  (∀ row, row ∈ t → plain_fields (Postgres.data row)) →
  nul_free P →
  Store.getById (relational_store model) i t = Ok (Some existing) →
  ∃ row t',
    row ∈ t ∧ Postgres.id row = i ∧ existing = Postgres.rowToCrudItem row
    ∧ Store.update (relational_store model) i P o t
      = (Ok (Some (Postgres.rowToCrudItem
                     (Postgres.merge_row (Postgres.to_jsonb (sanitizeClientPayload P))
                        (Store.clock o) row))), t')
    ∧ Store.getById (relational_store model) i t'
      = Ok (Some (Postgres.rowToCrudItem
                    (Postgres.merge_row (Postgres.to_jsonb (sanitizeClientPayload P))
                       (Store.clock o) row))).
Proof.
  intros Hplain Hp. cbn [Store.getById Store.update relational_store].
  intros Hget. pose proof (relational_getById_text _ _ _ _ Hget) as Hi. revert Hget.
  unfold Postgres.getById, Postgres.update.
  rewrite pg_select, pg_update_merge by done.
  destruct (List.filter (Postgres.has_id i) t) as [|row rows] eqn:E; cbn; [done|].
  intros [= <-]. destruct (pg_filter_elem _ _ _ _ E) as [Hin Hid].
  eexists row, _. split_and!; try done.
  rewrite pg_select by done.
  rewrite pg_filter_map by done. by rewrite E.
Qed.

Lemma mongo_find_some oid ds d :
  List.find (Mongo.has_id oid) ds = Some d → d ∈ ds ∧ Mongo._id d = Some oid.
Proof.
  intros H. apply List.find_some in H as [Hin Hid].
  split; [by apply list_elem_of_In | by apply mongo_has_id_true].
Qed.

Lemma mongo_find_replace oid new ds old :
  List.find (Mongo.has_id oid) ds = Some old →
  Mongo._id new = Some oid →
  List.find (Mongo.has_id oid) (Mongo.replace_doc oid new ds) = Some new.
Proof.
  intros Hf Hnew. apply mongo_has_id_true in Hnew.
  induction ds as [|d ds IH]; simpl in *; [done|].
  destruct (Mongo.has_id oid d) eqn:E; simpl.
  - by rewrite Hnew.
  - rewrite E. by apply IH.
Qed.

(** The fields of a document after [$set] and [$unset]. *)
Lemma apply_update_lookup model P o old k :
  Mongo.rest (Mongo.apply_update (update_spec model P o) old) !! k
  = if decide (k ∈ schema_keys (schema model))
    then (let v := js_get (sanitizeClientPayload P) k in
          if settable v then Some (Bson.normalize v)
          else if is_null v then None
          else Mongo.rest old !! k)
    else Mongo.rest old !! k.
Proof.
  unfold update_spec.
  destruct (split_lookup (schema model) P k) as [Hset Hunset].
  destruct (Mongo.splitStructuredPatch (schema model) P) as [set unset].
  cbn [fst snd] in *. cbv zeta in *.
  assert (∀ m : JsObject,
    (match (if bool_decide (unset = ∅) then None else Some unset) with
     | Some un => filter (fun kv => un !! fst kv = None) m
     | None => m
     end) !! k = if decide (unset !! k = None) then m !! k else None) as Hfilter.
  { intros m. case_bool_decide as Hun.
    - subst unset. rewrite lookup_empty. by rewrite decide_True.
    - destruct (decide (unset !! k = None)) as [Hk | Hk].
      + destruct (m !! k) as [v|] eqn:Em.
        * by apply map_lookup_filter_Some.
        * apply map_lookup_filter_None. by left.
      + apply map_lookup_filter_None. right. intros v _. done. }
  unfold Mongo.apply_update. cbn [Mongo.rest Mongo.unset_fields Mongo.set_fields].
  rewrite Hfilter, spread_lookup, lookup_fmap, Hset, Hunset.
  destruct (decide (k ∈ schema_keys (schema model))); [|done].
  destruct (js_get (sanitizeClientPayload P) k); cbn; done.
Qed.

Lemma apply_update_plain model P o old :
  plain_fields (Mongo.rest old) →
  plain_fields (Mongo.rest (Mongo.apply_update (update_spec model P o) old)).
Proof.
  intros Hp k Hk. rewrite apply_update_lookup.
  rewrite js_get_sanitize_reserved by done. cbn.
  destruct (decide _); by apply Hp.
Qed.

Lemma apply_update_header model P o old :
  Mongo._id (Mongo.apply_update (update_spec model P o) old) = Mongo._id old
  ∧ Mongo.createdAt (Mongo.apply_update (update_spec model P o) old) = Mongo.createdAt old
  ∧ Mongo.updatedAt (Mongo.apply_update (update_spec model P o) old) = Store.clock o.
Proof.
  unfold update_spec, Mongo.apply_update.
  by destruct (Mongo.splitStructuredPatch (schema model) P).
Qed.

Lemma document_update_spec model (c : Mongo.Collection) i P o existing :
  update_accepts (Document model) i P o c →
  Store.getById (document_store model) i c = Ok (Some existing) →
  ∃ oid old c',
    Mongo.tryParseObjectId i = Some oid
    ∧ old ∈ Mongo.docs c ∧ Mongo._id old = Some oid
    ∧ Mongo.docToCrudItem old = Ok existing
    ∧ Store.update (document_store model) i P o c
      = (Mongo.wrap ("update(" ++ i ++ ")") model
           (match Mongo.docToCrudItem (Mongo.apply_update (update_spec model P o) old) with
            | Ok item => Ok (Some item)
            | Err m => Err m
            end), c')
    ∧ Mongo.findOne oid c' = Some (Mongo.apply_update (update_spec model P o) old).
Proof.
  intros Hacc. cbn [Store.getById Store.update document_store].
  unfold Mongo.getById, Mongo.update, Mongo.buildLookup.
  destruct (Mongo.tryParseObjectId i) as [oid|] eqn:Eid; [|done].
  destruct (Mongo.findOne oid c) as [old|] eqn:Efind; [|done].
  destruct (Mongo.docToCrudItem old) as [item|m] eqn:Edoc; cbn; [|done].
  intros [= <-].
  destruct (mongo_find_some _ _ _ Efind) as [Hin Hid].
  destruct Hacc as [Hpatch Hacc].
  pose proof (serializable_patch model P o Hpatch) as Hser.
  destruct (Hacc oid old Eid Efind) as [Hadm Hshape].
  pose proof (apply_update_header model P o old) as (Hid' & _ & _).
  unfold update_spec in *.
  destruct (Mongo.splitStructuredPatch (schema model) P) as [set unset].
  set (u := Mongo.mkUpdate _ _ _) in *.
  unfold Mongo.findOneAndUpdate. rewrite Hser, Efind. cbn [negb].
  assert (Mongo.admits c old && negb (Mongo.admits c (Mongo.apply_update u old)) = false) as ->.
  { destruct (Mongo.admits c old); [|done]. by rewrite Hadm. }
  assert (Mongo.unwrapFindOneAndUpdateResult
            (Mongo.driver_result c (Some (Mongo.apply_update u old)))
          = Mongo.UDoc (Mongo.apply_update u old)) as ->.
  { unfold Mongo.driver_result, Mongo.unwrapFindOneAndUpdateResult.
    destruct (Mongo.wraps_result c) eqn:W; [done|].
    destruct Hshape as [? | ->]; [congruence | done]. }
  eexists oid, old, _. split_and!; try done.
  unfold Mongo.findOne, Mongo.with_docs. cbn [Mongo.docs].
  apply (mongo_find_replace oid _ _ old); [done|]. by rewrite Hid'.
Qed.

Lemma spread_plain (a b : JsObject) :
  plain_fields a → plain_fields b → plain_fields (spread a b).
Proof. intros Ha Hb k Hk. by rewrite spread_lookup, Hb, Ha. Qed.





Lemma pairs_well_formed : well_formed (Document pair_model) pairs.
Proof.
  split.
  - cbn. apply NoDup_singleton.
  - intros d Hd. cbn in Hd. apply list_elem_of_singleton in Hd as ->.
    split; [by eexists|]. intros key [-> | [-> | ->]]; reflexivity.
Qed.





(* ================================================================== *)
(** * The order of [getAll] *)
(* ================================================================== *)

Lemma ascii_compare_refl c : Ascii.compare c c = Eq.
Proof. unfold Ascii.compare. apply N.compare_refl. Qed.

Lemma ascii_compare_lt_trans a b c :
  Ascii.compare a b = Lt → Ascii.compare b c = Lt → Ascii.compare a c = Lt.
Proof.
  unfold Ascii.compare. rewrite !N.compare_lt_iff. apply N.lt_trans.
Qed.

Lemma string_compare_refl s : String.compare s s = Eq.
Proof. induction s as [|c s IH]; simpl; [done|]. by rewrite ascii_compare_refl. Qed.

Lemma string_compare_lt_trans s1 s2 s3 :
  String.compare s1 s2 = Lt → String.compare s2 s3 = Lt → String.compare s1 s3 = Lt.
Proof.
  revert s2 s3. induction s1 as [|a s1 IH]; intros [|b s2] [|c s3]; simpl; try done.
  destruct (Ascii.compare a b) eqn:Eab; try done;
    destruct (Ascii.compare b c) eqn:Ebc; try done.
  - apply Ascii.compare_eq_iff in Eab as ->. apply Ascii.compare_eq_iff in Ebc as ->.
    rewrite ascii_compare_refl. apply IH.
  - apply Ascii.compare_eq_iff in Eab as ->. by rewrite Ebc.
  - apply Ascii.compare_eq_iff in Ebc as <-. by rewrite Eab.
  - by rewrite (ascii_compare_lt_trans a b c).
Qed.

#[global] Instance str_le_total : Total str_le.
Proof. intros a b. apply String.leb_total. Qed.

#[global] Instance str_le_trans : Transitive str_le.
Proof.
  unfold str_le, String.leb. intros a b c Hab Hbc.
  destruct (String.compare a b) eqn:Eab; try done.
  - apply String.compare_eq_iff in Eab as ->. done.
  - destruct (String.compare b c) eqn:Ebc; try done.
    + apply String.compare_eq_iff in Ebc as <-. by rewrite Eab.
    + by rewrite (string_compare_lt_trans a b c).
Qed.

#[global] Instance row_le_total : Total Postgres.row_le.
Proof. intros a b. apply str_le_total. Qed.

#[global] Instance row_le_trans : Transitive Postgres.row_le.
Proof. intros a b c. apply str_le_trans. Qed.

#[global] Instance id_le_total : Total Mongo.id_le.
Proof. intros a b. apply str_le_total. Qed.

#[global] Instance id_le_trans : Transitive Mongo.id_le.
Proof. intros a b c. apply str_le_trans. Qed.

Lemma string_ltb_irrefl s : String.ltb s s = false.
Proof. unfold String.ltb. by rewrite string_compare_refl. Qed.

Lemma doc_item_ok d : is_Some (Mongo._id d) → Mongo.docToCrudItem d = Ok (doc_item d).
Proof. intros [oid H]. unfold Mongo.docToCrudItem, doc_item. by rewrite H. Qed.

Lemma sequence_doc_items ds :
  (∀ d, d ∈ ds → is_Some (Mongo._id d)) →
  Mongo.sequence_results (Mongo.docToCrudItem <$> ds) = Ok (doc_item <$> ds).
Proof.
  induction ds as [|d ds IH]; csimpl; [done|]. intros H.
  rewrite doc_item_ok by (apply H; by left).
  rewrite IH; [done|]. intros d' ?. apply H. by right.
Qed.

Lemma doc_item_id d :
  plain_fields (Mongo.rest d) → item_id (doc_item d) = default "" (Mongo._id d).
Proof. intros H. unfold doc_item. by apply spread_header_id. Qed.

Lemma row_item_id row :
  plain_fields (Postgres.data row) → item_id (Postgres.rowToCrudItem row) = Postgres.id row.
Proof. intros H. unfold Postgres.rowToCrudItem. by apply spread_header_id. Qed.


Lemma relational_getAll_sorted model (t : Postgres.Table) :
  (∀ row, row ∈ t → plain_fields (Postgres.data row)) →
  ∃ l, Store.getAll (relational_store model) t = Ok l
    ∧ l ≡ₚ Postgres.rowToCrudItem <$> t
    ∧ StronglySorted str_le (item_id <$> l).
Proof.
  intros Hplain. cbn. unfold Postgres.getAll, Postgres.select_all. cbn.
  eexists. split; [done|]. split.
  - by rewrite merge_sort_Permutation.
  - rewrite <- list_fmap_compose.
    assert (∀ row, row ∈ merge_sort Postgres.row_le t → plain_fields (Postgres.data row)) as Hp.
    { intros row Hin. apply Hplain. by rewrite <- (merge_sort_Permutation Postgres.row_le t). }
    pose proof (StronglySorted_merge_sort Postgres.row_le t) as Hs.
    revert Hp Hs. generalize (merge_sort Postgres.row_le t). intros l Hp Hs.
    induction Hs as [|row l Hs IH Hall]; csimpl; [constructor|].
    constructor.
    + apply IH. intros r ?. apply Hp. by right.
    + rewrite row_item_id by (apply Hp; by left).
      apply Forall_fmap. apply Forall_forall. intros r Hr. cbn.
      rewrite row_item_id by (apply Hp; by right).
      rewrite Forall_forall in Hall. by apply Hall.
Qed.

Lemma document_getAll_sorted model (c : Mongo.Collection) :
  (∀ d, d ∈ Mongo.docs c → is_Some (Mongo._id d) ∧ plain_fields (Mongo.rest d)) →
  ∃ l, Store.getAll (document_store model) c = Ok l
    ∧ l ≡ₚ doc_item <$> Mongo.docs c
    ∧ StronglySorted str_le (item_id <$> l).
Proof.
  intros Hwf. cbn. unfold Mongo.getAll, Mongo.find_sorted.
  assert (∀ d, d ∈ merge_sort Mongo.id_le (Mongo.docs c) →
               is_Some (Mongo._id d) ∧ plain_fields (Mongo.rest d)) as Hp.
  { intros d Hin. apply Hwf. by rewrite <- (merge_sort_Permutation Mongo.id_le (Mongo.docs c)). }
  rewrite sequence_doc_items by (intros d Hd; by apply Hp). cbn.
  eexists. split; [done|]. split.
  - by rewrite merge_sort_Permutation.
  - rewrite <- list_fmap_compose.
    pose proof (StronglySorted_merge_sort Mongo.id_le (Mongo.docs c)) as Hs.
    revert Hp Hs. generalize (merge_sort Mongo.id_le (Mongo.docs c)). intros l Hp Hs.
    induction Hs as [|d l Hs IH Hall]; csimpl; [constructor|].
    constructor.
    + apply IH. intros r ?. apply Hp. by right.
    + rewrite doc_item_id by (apply Hp; by left).
      apply Forall_fmap. apply Forall_forall. intros r Hr. cbn.
      rewrite doc_item_id by (apply Hp; by right).
      rewrite Forall_forall in Hall. by apply Hall.
Qed.





Lemma two_rows_well_formed : well_formed (Relational todo) two_rows.
Proof.
  split.
  - cbn. apply NoDup_cons. split; [|apply NoDup_singleton].
    intros H. apply list_elem_of_singleton in H. vm_compute in H. discriminate H.
  - intros row Hrow key _. cbn in Hrow.
    apply elem_of_cons in Hrow as [-> | Hrow];
      [|apply list_elem_of_singleton in Hrow as ->]; apply lookup_empty.
Qed.



(* ================================================================== *)
(** * The adapter factory *)
(* ================================================================== *)

Lemma falsy_coalesce_unset (a b : option string) :
  unset a → unset b → Factory.falsy (Factory.coalesce a b) = true.
Proof. intros [-> | ->] [-> | ->]; reflexivity. Qed.

Lemma strict_eq_refl s : Factory.strict_eq (JStr s) s = true.
Proof. apply String.eqb_refl. Qed.

(** C7. When the factory is asked for a relational or document adapter
    and a required setting is provided neither by the explicit
    configuration nor by its fallback environment variable, it returns a
    thrown error in place of an adapter, and the message names the
    missing setting, its configuration key and its environment
    variable. *)
Theorem missing_setting_is_error (projectRoot : string)
    (cfg : Factory.DbConfig) (env : gmap string string) (m : Setting) :
  Factory.adapter cfg = JStr (setting_adapter m) →
  earlier_settings_resolved cfg env m →
  unset (config_value cfg m) →
  unset (env !! env_var m) →
  ∃ msg, Factory.createDbAdapter projectRoot (Some cfg) env = Err msg
    ∧ Factory.contains (setting_name m) msg = true
    ∧ Factory.contains (config_key m) msg = true
    ∧ Factory.contains (env_var m) msg = true.
Proof.
  intros Hadapter Hearlier Hcfg Henv.
  pose proof (falsy_coalesce_unset _ _ Hcfg Henv) as Hfalsy.
  unfold Factory.createDbAdapter. cbn [fmap option_fmap option_map mbind option_bind].
  rewrite Hadapter.
  destruct m; cbn [setting_adapter config_value env_var] in *.
  - cbn [Factory.strict_eq String.eqb Ascii.eqb Bool.eqb].
    rewrite Hfalsy. exists Factory.pg_missing. split; [reflexivity|].
    split_and!; vm_compute; reflexivity.
  - cbn [Factory.strict_eq String.eqb Ascii.eqb Bool.eqb].
    rewrite Hfalsy. exists Factory.mongo_uri_missing. split; [reflexivity|].
    split_and!; vm_compute; reflexivity.
  - cbn [Factory.strict_eq String.eqb Ascii.eqb Bool.eqb].
    cbn [earlier_settings_resolved config_value env_var] in Hearlier.
    rewrite Hearlier, Hfalsy. exists Factory.mongo_db_missing. split; [reflexivity|].
    split_and!; vm_compute; reflexivity.
Qed.

Lemma missing_setting_is_error_witness :
  ∃ msg,
    Factory.createDbAdapter "/srv/app"
      (Some (Factory.mkConfig (JStr "mongodb") None None
               (Some (Factory.mkMg (Some "mongodb://localhost:27017") None None))))
      ∅ = Err msg
    ∧ Factory.contains "database name" msg = true
    ∧ Factory.contains "db.mongodb.dbName" msg = true
    ∧ Factory.contains "MONGODB_DB" msg = true.
Proof.
  apply (missing_setting_is_error "/srv/app" _ ∅ MongoDatabase).
  - reflexivity.
  - reflexivity.
  - left. reflexivity.
  - left. reflexivity.
Defined.

(** C9. For every configuration whose adapter kind is not one of the four
    recognised values, the factory returns the memory adapter and no
    error. *)
Theorem unknown_adapter_is_memory (projectRoot : string)
    (cfg : Factory.DbConfig) (env : gmap string string) :
  ¬ recognized (Factory.adapter cfg) →
  Factory.createDbAdapter projectRoot (Some cfg) env = Ok Factory.MemoryDbAdapter.
Proof.
  unfold recognized. intros Hnot.
  unfold Factory.createDbAdapter. cbn [fmap option_fmap option_map].
  destruct (Factory.adapter cfg) as [| | b | n | s | items | fields]; try reflexivity.
  assert (∀ name, s ≠ name → Factory.strict_eq (JStr s) name = false) as Hne.
  { intros name H. by apply String.eqb_neq. }
  rewrite !Hne; [reflexivity | | | |]; intros ->; tauto.
Qed.

Lemma unknown_adapter_is_memory_witness :
  Factory.createDbAdapter "/srv/app"
    (Some (Factory.mkConfig (JStr "sqlite") None None None)) ∅
  = Ok Factory.MemoryDbAdapter.
Proof.
  apply unknown_adapter_is_memory. unfold recognized. cbn.
  intros [H | [H | [H | H]]]; discriminate H.
Defined.

(* ================================================================== *)
(** * Payloads that are not objects *)
(* ================================================================== *)

Lemma spread_empty (a : JsObject) : spread a ∅ = a.
Proof. unfold spread. apply (left_id ∅ (∪)). Qed.

Lemma fresh_item_non_object id now p :
  non_object p → fresh_item id now p = header id now now.
Proof.
  intros H. unfold fresh_item. by rewrite sanitize_non_object, spread_empty.
Qed.

Lemma merged_item_non_object existing now p :
  non_object p → merged_item existing now p = <["updatedAt" := JStr now]> existing.
Proof.
  intros H. unfold merged_item. by rewrite sanitize_non_object, spread_empty.
Qed.

(** A header-only record. *)
Lemma header_only id now :
  is_Some (header id now now !! "id")
  ∧ is_Some (header id now now !! "createdAt")
  ∧ is_Some (header id now now !! "updatedAt")
  ∧ ∀ k, ¬ reserved k → header id now now !! k = None.
Proof.
  rewrite header_lookup_id, header_lookup_createdAt, header_lookup_updatedAt.
  split_and!; try by eexists. intros k Hk. by apply header_lookup_other.
Qed.

(** A touched record: only [updatedAt] changes. *)
Lemma touched_record (existing : CrudItem) now :
  (∀ k, k ≠ "updatedAt" → <["updatedAt" := JStr now]> existing !! k = existing !! k)
  ∧ <["updatedAt" := JStr now]> existing !! "updatedAt" = Some (JStr now).
Proof.
  split; [|by rewrite lookup_insert_eq].
  intros k Hk. by rewrite lookup_insert_ne.
Qed.

Lemma update_spec_non_object model p o :
  non_object p → update_spec model p o = Mongo.mkUpdate ∅ (Store.clock o) None.
Proof. intros H. unfold update_spec. by rewrite split_non_object. Qed.

Lemma apply_touch_only clk old :
  Mongo.apply_update (Mongo.mkUpdate ∅ clk None) old
  = Mongo.mkDoc (Mongo._id old) (Mongo.createdAt old) clk (Mongo.rest old).
Proof.
  unfold Mongo.apply_update.
  cbn [Mongo.set_fields Mongo.unset_fields Mongo.set_updatedAt].
  by rewrite spread_empty.
Qed.

(** The validator does not look at the value of [updatedAt]. *)
Lemma admits_touch c old clk :
  Mongo.admits c (Mongo.mkDoc (Mongo._id old) (Mongo.createdAt old) clk (Mongo.rest old))
  = Mongo.admits c old.
Proof. reflexivity. Qed.

Lemma create_returns (b : Backend) (s : state b) P o :
  well_formed b s → accepts b P o s →
  ∃ r s', Store.create (store_of b) P o s = (Ok r, s').
Proof.
  destruct b as [| | model | model]; cbn [well_formed accepts store_of].
  - intros _ _. destruct (memory_round_trip s P o) as (r & s' & H & _). eauto.
  - intros _ Hw. destruct (file_round_trip s P o Hw) as (r & s' & H & _). eauto.
  - intros _ [Hf Hp].
    destruct (relational_round_trip model s P o Hf Hp) as (r & s' & H & _). eauto.
  - intros [_ Hwf] (Hf & Ha & Hk).
    destruct (document_round_trip model s P o) as (r & s' & H & _); eauto.
    intros d Hd. by apply Hwf.
Qed.

Lemma create_non_object (b : Backend) (s : state b) p o r s' :
  non_object p →
  Store.create (store_of b) p o s = (Ok r, s') →
  ∃ id now, r = header id now now.
Proof.
  intros Hp Hc. destruct b as [| | model | model]; cbn [store_of] in Hc.
  - apply memory_create_spec in Hc as ->. eexists _, _. by apply fresh_item_non_object.
  - apply file_create_spec in Hc as ->. eexists _, _. by apply fresh_item_non_object.
  - apply relational_create_spec in Hc as ->. eexists _, _.
    by rewrite sanitize_non_object, to_jsonb_empty, spread_empty.
  - apply document_create_spec in Hc as ->. eexists _, _.
    by rewrite pick_non_object, spread_empty.
Qed.

Lemma document_accepts_touch model (c : Mongo.Collection) i p o :
  non_object p →
  (∀ d, d ∈ Mongo.docs c → is_Some (Mongo._id d) ∧ plain_fields (Mongo.rest d)) →
  result_unwraps (Document model) c →
  update_accepts (Document model) i p o c.
Proof.
  intros Hp Hwf Hun. split.
  { cbn [takes_patch]. rewrite split_non_object by done. cbn [fst snd]. split; [done|].
    intros key [v Hv]. by rewrite lookup_empty in Hv. }
  intros oid old Hid Hfind. cbv zeta.
  rewrite update_spec_non_object, apply_touch_only by done.
  split; [by rewrite admits_touch|].
  destruct Hun as [Hw | Hv]; [by left | right]. cbn.
  apply Hv. by destruct (mongo_find_some _ _ _ Hfind).
Qed.

Lemma update_non_object (b : Backend) (s : state b) i p o existing :
  well_formed b s → non_object p →
  Store.getById (store_of b) i s = Ok (Some existing) →
  can_write b o s → result_unwraps b s →
  ∃ updated s',
    Store.update (store_of b) i p o s = (Ok (Some updated), s')
    ∧ (∀ k, k ≠ "updatedAt" → updated !! k = existing !! k)
    ∧ updated !! "updatedAt" = Some (JStr (Iso.toISOString (Store.clock o))).
Proof.
  intros Hwf Hp Hget Hw Hun.
  destruct b as [| | model | model];
    cbn [store_of well_formed can_write result_unwraps] in *.
  - destruct (memory_update_spec s i p o existing Hget) as [Hup _].
    rewrite merged_item_non_object in Hup by done.
    eexists _, _. split; [exact Hup|]. apply touched_record.
  - destruct (file_update_spec s i p o existing Hw Hget) as (s' & Hup & _).
    rewrite merged_item_non_object in Hup by done.
    eexists _, _. split; [exact Hup|]. apply touched_record.
  - destruct Hwf as [_ Hplain].
    assert (nul_free p) as Hnul.
    { unfold nul_free. by rewrite sanitize_non_object, to_jsonb_empty. }
    destruct (relational_update_spec model s i p o existing Hplain Hnul Hget)
      as (row & t' & Hin & Hid & -> & Hup & _).
    eexists _, _. split; [exact Hup|].
    pose proof (Hplain row Hin) as Hrow.
    rewrite sanitize_non_object, to_jsonb_empty by done.
    unfold Postgres.rowToCrudItem, Postgres.merge_row, Postgres.nowIsoFromPg.
    cbn [Postgres.id Postgres.created_at Postgres.updated_at Postgres.data].
    rewrite spread_empty. split.
    + intros k Hk. rewrite !spread_lookup. destruct (Postgres.data row !! k); [done|].
      unfold header. destruct (decide (k = "id")) as [-> | ?].
      { by rewrite !lookup_insert_eq. }
      rewrite !(lookup_insert_ne _ "id") by done.
      destruct (decide (k = "createdAt")) as [-> | ?].
      { by rewrite !lookup_insert_eq. }
      rewrite !(lookup_insert_ne _ "createdAt") by done.
      by rewrite !(lookup_insert_ne _ "updatedAt").
    + by destruct (spread_header_reserved (Postgres.id row)
                     (Iso.toISOString (Postgres.created_at row))
                     (Iso.toISOString (Store.clock o)) _ Hrow) as (_ & _ & ->).
  - destruct Hwf as [_ Hwf].
    pose proof (document_accepts_touch model s i p o Hp Hwf Hun) as Hacc.
    destruct (document_update_spec model s i p o existing Hacc Hget)
      as (oid & old & c' & Hid & Hin & Hold & Hdoc & Hup & _).
    destruct (Hwf old Hin) as [_ Hplain].
    rewrite update_spec_non_object, apply_touch_only in Hup by done.
    unfold Mongo.docToCrudItem in Hdoc, Hup. cbn [Mongo._id Mongo.createdAt Mongo.updatedAt Mongo.rest] in Hup.
    rewrite Hold in Hup, Hdoc. injection Hdoc as <-. cbn [Mongo.wrap] in Hup.
    eexists _, _. split; [exact Hup|]. unfold Mongo.toHexString. split.
    + intros k Hk. rewrite !spread_lookup. destruct (Mongo.rest old !! k); [done|].
      unfold header. destruct (decide (k = "id")) as [-> | ?].
      { by rewrite !lookup_insert_eq. }
      rewrite !(lookup_insert_ne _ "id") by done.
      destruct (decide (k = "createdAt")) as [-> | ?].
      { by rewrite !lookup_insert_eq. }
      rewrite !(lookup_insert_ne _ "createdAt") by done.
      by rewrite !(lookup_insert_ne _ "updatedAt").
    + by destruct (spread_header_reserved oid
                     (Iso.toISOString (Mongo.createdAt old))
                     (Iso.toISOString (Store.clock o)) _ Hplain) as (_ & _ & ->).
Qed.

(** C10, as the code has it. Every store treats a payload that is not an
    object ([null], [undefined], a number, a string, a boolean) as an
    empty field set. In a state the adapters produce, and behind a
    document backend whose schema declares ordinary names only: when the
    backend takes the write, [create] returns a record holding [id],
    [createdAt] and [updatedAt] and nothing else; on the document adapter
    that requires the collection's validator to accept a document
    without schema fields. When the file can be rewritten and the
    document driver's result is not mistaken for a wrapper, [update] on
    an existing id returns the stored record with every field as it was
    and [updatedAt] set to the clock reading of the update. *)
Theorem non_object_payload_is_empty (b : Backend) (s : state b) (p : JsValue)
    (o : Store.Oracle) (i : string) (existing : CrudItem) :
  well_formed b s →
  ordinary b →
  non_object p →
  sanitizeClientPayload p = ∅
  ∧ (accepts b p o s →
     ∃ r s', Store.create (store_of b) p o s = (Ok r, s')
       ∧ is_Some (r !! "id") ∧ is_Some (r !! "createdAt")
       ∧ is_Some (r !! "updatedAt")
       ∧ ∀ k, ¬ reserved k → r !! k = None)
  ∧ (Store.getById (store_of b) i s = Ok (Some existing) →
     can_write b o s → result_unwraps b s →
     ∃ updated s',
       Store.update (store_of b) i p o s = (Ok (Some updated), s')
       ∧ (∀ k, k ≠ "updatedAt" → updated !! k = existing !! k)
       ∧ updated !! "updatedAt" = Some (JStr (Iso.toISOString (Store.clock o)))).
Proof.
  intros Hwf _ Hp. split; [by apply sanitize_non_object|]. split.
  - intros Hacc. destruct (create_returns b s p o Hwf Hacc) as (r & s' & Hc).
    exists r, s'. split; [done|].
    destruct (create_non_object b s p o r s' Hp Hc) as (id & now & ->).
    apply header_only.
  - intros Hget Hw Hun. by apply update_non_object.
Qed.

Lemma non_object_payload_is_empty_witness :
  sanitizeClientPayload (JNum 42) = ∅
  ∧ ∃ updated c',
      Store.update (store_of (Document pair_model)) pair_id (JNum 42) at_noon pairs
      = (Ok (Some updated), c')
      ∧ updated !! "a" = Some (JNum 1)
      ∧ updated !! "b" = Some (JNum 2).
Proof.
  assert (Store.getById (store_of (Document pair_model)) pair_id pairs
          = Ok (Some pair_item)) as Hget by (vm_compute; reflexivity).
  assert (result_unwraps (Document pair_model) pairs) as Hun.
  { right. intros d Hd. cbn in Hd. apply list_elem_of_singleton in Hd as ->. reflexivity. }
  assert (ordinary (Document pair_model)) as Hord by reflexivity.
  destruct (non_object_payload_is_empty (Document pair_model) pairs (JNum 42) at_noon
              pair_id pair_item pairs_well_formed Hord I) as (Hs & _ & Hup).
  split; [exact Hs|].
  destruct (Hup Hget I Hun) as (updated & c' & Hu & Hsame & _).
  exists updated, c'. split; [exact Hu|].
  rewrite !Hsame by discriminate. split; vm_compute; reflexivity.
Defined.

(** C10 as stated fails: with the validator installed at bootstrap and a
    schema that has a required field, the document adapter's [create]
    throws on a payload that is not an object. *)
Lemma document_create_rejects_non_object :
  non_object JNull
  ∧ Mongo.pickStructuredInsert (schema todo) JNull = ∅
  ∧ fst (Store.create (store_of (Document todo)) JNull at_noon todos_validated)
    = Err "MongoDB (Todo) create failed: Document failed validation".
Proof.
  split; [exact I|]. split; [by apply pick_non_object|].
  vm_compute. reflexivity.
Qed.

(* ================================================================== *)
(** * The file store: loading and flushing *)
(* ================================================================== *)



Lemma load_parseable path clk fs parsed :
  fs !! path = Some (Fs.File (Json.Parseable parsed)) →
  JsonFileStore.loadPersistedData path clk fs
  = (Some (if negb (JsonFileStore.isRecord parsed) then []
           else let rawItems := js_get (own_props parsed) "items" in
                List.filter JsonFileStore.isCrudItem
                  (if JsonFileStore.isArray rawItems
                   then JsonFileStore.array_items rawItems else [])), fs).
Proof.
  intros H. unfold JsonFileStore.loadPersistedData, mbind, io_bind, Fs.bind, Fs.existsSync.
  rewrite H. rewrite bool_decide_eq_true_2 by by eexists. cbn [negb].
  unfold Fs.try_catch at 1. unfold Fs.readFileSync. rewrite H.
  cbn [mret io_ret Fs.ret Json.parse].
  by destruct (negb (JsonFileStore.isRecord parsed)).
Qed.


Lemma of_entries_fresh_gen {V} (entries acc : list (string * V)) :
  NoDup (fst <$> entries) →
  (∀ k, k ∈ fst <$> entries → k ∉ JsMap.keys acc) →
  fold_left (fun m kv => JsMap.set (fst kv) (snd kv) m) entries acc
  = (acc ++ entries)%list.
Proof.
  revert acc. induction entries as [|[k v] entries IH]; intros acc; csimpl.
  - intros _ _. by rewrite app_nil_r.
  - rewrite NoDup_cons. intros [Hk Hnd] Hdisj.
    rewrite jsmap_set_absent.
    2:{ apply jsmap_get_none. apply Hdisj. by left. }
    rewrite IH; [by rewrite <- app_assoc | done |].
    intros k' Hk'. unfold JsMap.keys. rewrite fmap_app. csimpl.
    rewrite elem_of_app, list_elem_of_singleton. intros [Hin | ->]; [|done].
    revert Hin. apply Hdisj. by right.
Qed.

Lemma of_entries_distinct {V} (entries : list (string * V)) :
  NoDup (fst <$> entries) → JsMap.of_entries entries = entries.
Proof.
  intros H. unfold JsMap.of_entries. rewrite of_entries_fresh_gen; [done | done |].
  intros k _. apply not_elem_of_nil.
Qed.

Lemma filter_all {A} (f : A → bool) l :
  Forall (fun x => f x = true) l → List.filter f l = l.
Proof.
  induction 1 as [|x l Hx _ IH]; simpl; [done|]. by rewrite Hx, IH.
Qed.

(** Loading a well-formed file keeps every item, in file order. *)
Lemma load_items path clk fs l :
  fs !! path = Some (Fs.File (Json.Parseable (JObj {[ "items" := JArr l ]}))) →
  Forall (fun v => JsonFileStore.isCrudItem v = true) l →
  NoDup (fst <$> (index_entry <$> l)) →
  JsonFileStore.createJsonFileStore path clk fs
  = (JsonFileStore.mkStore path (index_entry <$> l), fs).
Proof.
  intros H Hall Hnd. unfold JsonFileStore.createJsonFileStore.
  rewrite (load_parseable _ _ _ _ H). cbn [JsonFileStore.isRecord truthy typeof_object andb negb own_props].
  cbv zeta. unfold js_get. rewrite lookup_singleton_eq.
  cbn [default JsonFileStore.isArray JsonFileStore.array_items].
  rewrite filter_all by done. fold index_entry.
  change (fun item => (item_id (own_props item), own_props item)) with index_entry.
  by rewrite of_entries_distinct.
Qed.

(** What [writable] says about the file system. *)
Lemma writable_inv path o fs :
  writable path o fs →
  ∃ fs1,
    Fs.mkdirSync (Path.dirname path) fs = (Some tt, fs1)
    ∧ fs1 !! JsonFileStore.tempPath path (Store.pid o) (Store.wclock o) ≠ Some Fs.Dir
    ∧ fs1 !! path ≠ Some Fs.Dir
    ∧ fs1 !! path = fs !! path.
Proof.
  unfold writable. rewrite atomicWriteJson_steps.
  set (tmp := JsonFileStore.tempPath path (Store.pid o) (Store.wclock o)).
  assert (tmp ≠ path) as Hne by apply tempPath_ne.
  unfold Fs.mkdirSync at 1.
  destruct (fs !! Path.dirname path) as [[c|]|] eqn:Ed; cbn [fst]; [done| |].
  - (* the directory exists *)
    unfold Fs.writeFileSync, Fs.renameSync.
    destruct (fs !! tmp) as [[c|]|] eqn:Et; cbn [fst]; try done.
    + rewrite lookup_insert_eq, lookup_insert_ne by done.
      destruct (fs !! path) as [[c'|]|] eqn:Ep; cbn [fst]; try done;
        intros _; exists fs; unfold Fs.mkdirSync; rewrite Ed, Et, Ep;
        split_and!; done.
    + rewrite lookup_insert_eq, lookup_insert_ne by done.
      destruct (fs !! path) as [[c'|]|] eqn:Ep; cbn [fst]; try done;
        intros _; exists fs; unfold Fs.mkdirSync; rewrite Ed, Et, Ep;
        split_and!; done.
  - (* the directory is created *)
    set (fs1 := <[Path.dirname path := Fs.Dir]> fs).
    unfold Fs.writeFileSync, Fs.renameSync.
    destruct (fs1 !! tmp) as [[c|]|] eqn:Et; cbn [fst]; try done.
    + rewrite lookup_insert_eq, lookup_insert_ne by done.
      destruct (fs1 !! path) as [[c'|]|] eqn:Ep; cbn [fst]; try done;
        intros _; exists fs1; unfold Fs.mkdirSync; rewrite Ed;
        (split_and!; [done | by rewrite Et | by rewrite Ep |]).
      * subst fs1. destruct (decide (Path.dirname path = path)) as [Heq | Hd].
        { rewrite Heq, lookup_insert_eq in Ep. done. }
        by rewrite lookup_insert_ne in Ep |- * by done.
      * subst fs1. destruct (decide (Path.dirname path = path)) as [Heq | Hd].
        { rewrite Heq, lookup_insert_eq in Ep. done. }
        by rewrite lookup_insert_ne in Ep |- * by done.
    + rewrite lookup_insert_eq, lookup_insert_ne by done.
      destruct (fs1 !! path) as [[c'|]|] eqn:Ep; cbn [fst]; try done;
        intros _; exists fs1; unfold Fs.mkdirSync; rewrite Ed;
        (split_and!; [done | by rewrite Et | by rewrite Ep |]).
      * subst fs1. destruct (decide (Path.dirname path = path)) as [Heq | Hd].
        { rewrite Heq, lookup_insert_eq in Ep. done. }
        by rewrite lookup_insert_ne in Ep |- * by done.
      * subst fs1. destruct (decide (Path.dirname path = path)) as [Heq | Hd].
        { rewrite Heq, lookup_insert_eq in Ep. done. }
        by rewrite lookup_insert_ne in Ep |- * by done.
Qed.

(** On a writable file system [flush] is one atomic rewrite of the whole
    index. *)
Lemma flush_atomic path index o fs :
  writable path o fs →
  ∃ fs',
    JsonFileStore.flush (JsonFileStore.mkStore path index) (Store.pid o) (Store.wclock o) fs
    = (Some tt, fs')
    ∧ rewritten_atomically path o index fs fs'.
Proof.
  intros Hw. destruct (writable_inv path o fs Hw) as (fs1 & Hmk & Htmp & Hdir & Hsame).
  unfold JsonFileStore.flush, rewritten_atomically. cbn [JsonFileStore.filePath JsonFileStore.items].
  rewrite atomicWriteJson_steps, Hmk.
  set (tmp := JsonFileStore.tempPath path (Store.pid o) (Store.wclock o)) in *.
  set (json := Json.stringify (JsonFileStore.persisted_data index)).
  assert (tmp ≠ path) as Hne by apply tempPath_ne.
  assert (Fs.writeFileSync tmp json fs1 = (Some tt, <[tmp := Fs.File json]> fs1)) as Hwr.
  { unfold Fs.writeFileSync. by destruct (fs1 !! tmp) as [[c|]|]. }
  rewrite Hwr.
  assert (Fs.renameSync tmp path (<[tmp := Fs.File json]> fs1)
          = (Some tt, <[path := Fs.File json]> (base.delete tmp (<[tmp := Fs.File json]> fs1))))
    as Hrn.
  { unfold Fs.renameSync. rewrite lookup_insert_eq, lookup_insert_ne by done.
    by destruct (fs1 !! path) as [[c|]|]. }
  rewrite Hrn. eexists. split; [done|].
  exists fs1, (<[tmp := Fs.File json]> fs1). split_and!; try done.
  - by rewrite lookup_insert_ne.
  - by rewrite lookup_insert_eq.
  - rewrite lookup_insert_ne by done. by rewrite lookup_delete_eq.
Qed.



(* ================================================================== *)
(** * Bootstrap memoization *)
(* ================================================================== *)

Section Counting.
Context {A : Type} (f : A → bool).

Lemma filter_length_snoc (l : list A) e :
  List.length (List.filter f (l ++ [e])) = (List.length (List.filter f l) + bump (f e))%nat.
Proof.
  rewrite List.filter_app, length_app. simpl. by destruct (f e).
Qed.

Lemma filter_length_insert (l : list A) p e e' :
  l !! p = Some e →
  (List.length (List.filter f (<[p := e']> l)) + bump (f e)
   = List.length (List.filter f l) + bump (f e'))%nat.
Proof.
  revert p. induction l as [|x l IH]; intros [|p]; simpl; try done.
  - intros [= ->]. destruct (f e), (f e'); simpl; lia.
  - intros H. specialize (IH p H). destruct (f x); simpl; lia.
Qed.

End Counting.

Lemma consistent_init : consistent Bootstrap.init.
Proof.
  split_and!.
  - intros key p H. cbn in H. by rewrite lookup_empty in H.
  - intros p key out H. unfold promise_is in H. cbn in H. by rewrite lookup_nil in H.
  - intros key. reflexivity.
Qed.

Lemma ensure_hit key p st :
  Bootstrap.cache st !! key = Some p → Bootstrap.ensure key st = (p, st).
Proof. intros H. unfold Bootstrap.ensure. by rewrite H. Qed.

Lemma ensure_miss key st :
  Bootstrap.cache st !! key = None →
  Bootstrap.ensure key st
  = (List.length (Bootstrap.promises st),
     Bootstrap.mkState (<[key := List.length (Bootstrap.promises st)]> (Bootstrap.cache st))
       (Bootstrap.promises st ++ [Bootstrap.mkPromise key Bootstrap.Pending])).
Proof. intros H. unfold Bootstrap.ensure. by rewrite H. Qed.

Lemma attempts_snoc key st c k out :
  Bootstrap.attempts key
    (Bootstrap.mkState c (Bootstrap.promises st ++ [Bootstrap.mkPromise k out]))
  = (Bootstrap.attempts key st + bump (String.eqb k key))%nat.
Proof. unfold Bootstrap.attempts. cbn [Bootstrap.promises]. by rewrite filter_length_snoc. Qed.

Lemma failures_snoc_pending key st c k :
  Bootstrap.failures key
    (Bootstrap.mkState c (Bootstrap.promises st ++ [Bootstrap.mkPromise k Bootstrap.Pending]))
  = Bootstrap.failures key st.
Proof.
  unfold Bootstrap.failures. cbn [Bootstrap.promises]. rewrite filter_length_snoc.
  cbn. rewrite andb_false_r. cbn. lia.
Qed.

Lemma consistent_ensure key st :
  consistent st → consistent (snd (Bootstrap.ensure key st)).
Proof.
  intros (I1 & I2 & I3).
  destruct (Bootstrap.cache st !! key) as [p|] eqn:E.
  { by rewrite (ensure_hit key p st E). }
  rewrite (ensure_miss key st E). cbn [snd]. split_and!.
  - intros k q. cbn [Bootstrap.cache]. unfold promise_is. cbn [Bootstrap.promises].
    destruct (decide (key = k)) as [<- | Hne].
    + rewrite lookup_insert_eq. intros [= <-]. exists Bootstrap.Pending.
      split; [|done]. by rewrite list_lookup_middle.
    + rewrite lookup_insert_ne by done. intros H.
      destruct (I1 k q H) as (out & Hp & Hout). exists out. split; [|done].
      by apply lookup_app_l_Some.
  - intros q k out. unfold promise_is. cbn [Bootstrap.promises Bootstrap.cache].
    intros H Hout. apply lookup_app_Some in H as [H | [Hlen H]].
    + pose proof (I2 q k out H Hout) as Hc.
      rewrite lookup_insert_ne; [done|]. intros <-. congruence.
    + destruct (q - List.length (Bootstrap.promises st))%nat as [|n] eqn:Eq; [|done].
      cbn in H. injection H as <- _.
      assert (q = List.length (Bootstrap.promises st)) as -> by lia.
      by rewrite lookup_insert_eq.
  - intros k. rewrite attempts_snoc, failures_snoc_pending, (I3 k).
    unfold cached_count. cbn [Bootstrap.cache].
    destruct (decide (key = k)) as [<- | Hne].
    + rewrite lookup_insert_eq, E, String.eqb_refl. cbn. lia.
    + rewrite lookup_insert_ne by done. rewrite eqb_false_ne by done. cbn. lia.
Qed.

Lemma settle_other p ok st :
  (∀ key, ¬ promise_is st p key Bootstrap.Pending) →
  Bootstrap.settle p ok st = st.
Proof.
  unfold Bootstrap.settle, promise_is. intros H.
  destruct (Bootstrap.promises st !! p) as [[key [| |]]|] eqn:E; try done.
  by destruct (H key).
Qed.

Lemma settle_pending p ok st key :
  promise_is st p key Bootstrap.Pending →
  Bootstrap.settle p ok st
  = if ok
    then Bootstrap.mkState (Bootstrap.cache st)
           (<[p := Bootstrap.mkPromise key Bootstrap.Fulfilled]> (Bootstrap.promises st))
    else Bootstrap.mkState (base.delete key (Bootstrap.cache st))
           (<[p := Bootstrap.mkPromise key Bootstrap.Rejected]> (Bootstrap.promises st)).
Proof. unfold Bootstrap.settle, promise_is. by intros ->. Qed.

Lemma consistent_settle p ok st :
  consistent st → consistent (Bootstrap.settle p ok st).
Proof.
  intros (I1 & I2 & I3).
  destruct (Bootstrap.promises st !! p) as [[key out]|] eqn:E.
  2:{ rewrite settle_other; [done|]. intros key H. unfold promise_is in H. congruence. }
  destruct out.
  2,3: rewrite settle_other; [done|]; intros k H; unfold promise_is in H; congruence.
  assert (promise_is st p key Bootstrap.Pending) as Hp by done.
  assert (Bootstrap.cache st !! key = Some p) as Hcached by by eapply I2.
  rewrite (settle_pending p ok st key Hp). destruct ok.
  - (* fulfilled *)
    split_and!.
    + intros k q. cbn [Bootstrap.cache]. unfold promise_is. cbn [Bootstrap.promises].
      intros H. destruct (I1 k q H) as (out & Hq & Hout).
      destruct (decide (q = p)) as [-> | Hne].
      * unfold promise_is in Hq. rewrite E in Hq. injection Hq as <- <-.
        exists Bootstrap.Fulfilled. split; [|done].
        apply list_lookup_insert_eq. by eapply lookup_lt_Some.
      * exists out. split; [|done]. by rewrite list_lookup_insert_ne.
    + intros q k out. unfold promise_is. cbn [Bootstrap.promises Bootstrap.cache].
      destruct (decide (q = p)) as [-> | Hne].
      * rewrite list_lookup_insert_eq by by eapply lookup_lt_Some.
        by intros [= <- <-] _.
      * rewrite list_lookup_insert_ne by done. apply I2.
    + intros k. unfold Bootstrap.attempts, Bootstrap.failures, cached_count in *.
      cbn [Bootstrap.promises Bootstrap.cache].
      pose proof (filter_length_insert (fun pr => String.eqb (Bootstrap.key_of pr) k)
                    _ p _ (Bootstrap.mkPromise key Bootstrap.Fulfilled) E) as Ha.
      pose proof (filter_length_insert
                    (fun pr => String.eqb (Bootstrap.key_of pr) k
                               && match Bootstrap.outcome pr with
                                  | Bootstrap.Rejected => true | _ => false end)
                    _ p _ (Bootstrap.mkPromise key Bootstrap.Fulfilled) E) as Hf.
      cbn in Ha, Hf. rewrite andb_false_r in Hf. cbn in Hf.
      specialize (I3 k). lia.
  - (* rejected *)
    split_and!.
    + intros k q. cbn [Bootstrap.cache]. unfold promise_is. cbn [Bootstrap.promises].
      intros H. apply lookup_delete_Some in H as [Hk H].
      destruct (I1 k q H) as (out & Hq & Hout).
      assert (q ≠ p) as Hne.
      { intros ->. unfold promise_is in Hq. rewrite E in Hq. by injection Hq as -> _. }
      exists out. split; [|done]. by rewrite list_lookup_insert_ne.
    + intros q k out. unfold promise_is. cbn [Bootstrap.promises Bootstrap.cache].
      destruct (decide (q = p)) as [-> | Hne].
      * rewrite list_lookup_insert_eq by by eapply lookup_lt_Some.
        by intros [= <- <-] ?.
      * rewrite list_lookup_insert_ne by done. intros H Hout.
        pose proof (I2 q k out H Hout) as Hq. rewrite lookup_delete_ne; [done|].
        intros <-. congruence.
    + intros k. unfold Bootstrap.attempts, Bootstrap.failures, cached_count in *.
      cbn [Bootstrap.promises Bootstrap.cache].
      pose proof (filter_length_insert (fun pr => String.eqb (Bootstrap.key_of pr) k)
                    _ p _ (Bootstrap.mkPromise key Bootstrap.Rejected) E) as Ha.
      pose proof (filter_length_insert
                    (fun pr => String.eqb (Bootstrap.key_of pr) k
                               && match Bootstrap.outcome pr with
                                  | Bootstrap.Rejected => true | _ => false end)
                    _ p _ (Bootstrap.mkPromise key Bootstrap.Rejected) E) as Hf.
      cbn in Ha, Hf. rewrite andb_false_r, andb_true_r in Hf. cbn in Hf.
      specialize (I3 k).
      destruct (decide (key = k)) as [<- | Hne].
      * rewrite lookup_delete_eq. rewrite Hcached in I3.
        rewrite String.eqb_refl in Hf. cbn in Hf. lia.
      * rewrite lookup_delete_ne by done. rewrite eqb_false_ne in Hf by done.
        cbn in Hf. lia.
Qed.

Lemma consistent_step st e : consistent st → consistent (Bootstrap.step st e).
Proof.
  destruct e as [key | p ok]; cbn [Bootstrap.step].
  - apply consistent_ensure.
  - apply consistent_settle.
Qed.

Lemma consistent_fold events st :
  consistent st → consistent (fold_left Bootstrap.step events st).
Proof.
  revert st. induction events as [|e events IH]; intros st H; simpl; [done|].
  apply IH. by apply consistent_step.
Qed.

(** Every reachable state is consistent. *)
Lemma consistent_run events : consistent (Bootstrap.run events).
Proof. apply consistent_fold, consistent_init. Qed.

(** A bootstrap that succeeded is never repeated: its promise stays in the
    cache and no further attempt for its key is started, whatever happens
    afterwards. *)
Lemma fulfilled_is_final more st key p :
  consistent st →
  promise_is st p key Bootstrap.Fulfilled →
  promise_is (fold_left Bootstrap.step more st) p key Bootstrap.Fulfilled
  ∧ Bootstrap.cache (fold_left Bootstrap.step more st) !! key = Some p
  ∧ Bootstrap.attempts key (fold_left Bootstrap.step more st)
    = Bootstrap.attempts key st.
Proof.
  revert st. induction more as [|e more IH]; intros st Hc Hp.
  { split; [done|]. split; [|done]. destruct Hc as (_ & I2 & _). by eapply I2. }
  cbn [fold_left].
  assert (promise_is (Bootstrap.step st e) p key Bootstrap.Fulfilled
          ∧ Bootstrap.attempts key (Bootstrap.step st e) = Bootstrap.attempts key st)
    as [Hp' Ha'].
  { pose proof Hc as (I1 & I2 & I3).
    assert (Bootstrap.cache st !! key = Some p) as Hcached by by eapply I2.
    destruct e as [k | q ok]; cbn [Bootstrap.step].
    - destruct (Bootstrap.cache st !! k) as [r|] eqn:E.
      { by rewrite (ensure_hit k r st E). }
      rewrite (ensure_miss k st E). cbn [snd].
      assert (k ≠ key) as Hne by (intros ->; congruence).
      split.
      + unfold promise_is in *. cbn [Bootstrap.promises]. by apply lookup_app_l_Some.
      + rewrite attempts_snoc, eqb_false_ne by done. cbn. lia.
    - destruct (Bootstrap.promises st !! q) as [[kq out]|] eqn:E.
      2:{ rewrite settle_other; [done|]. intros k H. unfold promise_is in H. congruence. }
      destruct out.
      2,3: rewrite settle_other; [done|]; intros k H; unfold promise_is in H; congruence.
      assert (promise_is st q kq Bootstrap.Pending) as Hq by done.
      assert (q ≠ p) as Hqp.
      { intros ->. unfold promise_is in Hp, Hq. congruence. }
      assert (kq ≠ key) as Hk.
      { intros ->. assert (Bootstrap.cache st !! key = Some q) as H by by eapply I2.
        congruence. }
      rewrite (settle_pending q ok st kq Hq).
      assert (∀ out', Bootstrap.promises st !! q = Some (Bootstrap.mkPromise kq Bootstrap.Pending) →
        List.length (List.filter (fun pr => String.eqb (Bootstrap.key_of pr) key)
               (<[q := Bootstrap.mkPromise kq out']> (Bootstrap.promises st)))
        = List.length (List.filter (fun pr => String.eqb (Bootstrap.key_of pr) key)
               (Bootstrap.promises st))) as Hcount.
      { intros out' Hq'.
        pose proof (filter_length_insert (fun pr => String.eqb (Bootstrap.key_of pr) key)
                      _ q _ (Bootstrap.mkPromise kq out') Hq') as Ha.
        cbn in Ha. lia. }
      destruct ok; (split;
        [ unfold promise_is in *; cbn [Bootstrap.promises];
          by rewrite list_lookup_insert_ne
        | unfold Bootstrap.attempts; cbn [Bootstrap.promises]; by apply Hcount ]). }
  destruct (IH (Bootstrap.step st e) (consistent_step st e Hc) Hp') as (H1 & H2 & H3).
  split; [done|]. split; [done|]. by rewrite H3.
Qed.

(** C6. Per adapter instance, over its lifetime, in every state reached by
    any interleaving of requests and bootstrap completions: the bootstraps
    started for a table or collection name number at most one more than
    those that failed, so a bootstrap that does not fail runs once. The
    first caller starts the bootstrap and has its promise in the cache
    before anything else can happen; every caller that finds a promise in
    the cache is handed that promise and starts nothing; a promise that
    was fulfilled stays, and no later request starts another bootstrap; a
    bootstrap that fails deletes its cache entry, the next caller starts
    one fresh attempt, and the caller after that shares it. [ensureTable]
    and [ensureCollection] are this protocol under their cache keys. *)
Theorem bootstrap_runs_once (events : list Bootstrap.Event) (key : string) :
  let st := Bootstrap.run events in
  (Bootstrap.attempts key st ≤ Bootstrap.failures key st + 1)%nat
  ∧ (Bootstrap.failures key st = 0%nat → (Bootstrap.attempts key st ≤ 1)%nat)
  ∧ (Bootstrap.cache st !! key = None →
     ∃ p st', Bootstrap.ensure key st = (p, st')
       ∧ Bootstrap.cache st' !! key = Some p
       ∧ promise_is st' p key Bootstrap.Pending
       ∧ Bootstrap.attempts key st' = S (Bootstrap.attempts key st))
  ∧ (∀ p, Bootstrap.cache st !! key = Some p →
       Bootstrap.ensure key st = (p, st)
       ∧ ∃ out, promise_is st p key out ∧ out ≠ Bootstrap.Rejected)
  ∧ (∀ p more, promise_is st p key Bootstrap.Fulfilled →
       fst (Bootstrap.ensure key (fold_left Bootstrap.step more st)) = p
       ∧ Bootstrap.attempts key (fold_left Bootstrap.step more st)
         = Bootstrap.attempts key st)
  ∧ (∀ p, promise_is st p key Bootstrap.Pending →
       Bootstrap.cache (Bootstrap.settle p false st) !! key = None
       ∧ Bootstrap.failures key (Bootstrap.settle p false st)
         = S (Bootstrap.failures key st)
       ∧ ∃ q st2, Bootstrap.ensure key (Bootstrap.settle p false st) = (q, st2)
           ∧ q ≠ p
           ∧ promise_is st2 q key Bootstrap.Pending
           ∧ Bootstrap.attempts key st2 = S (Bootstrap.attempts key st)
           ∧ Bootstrap.ensure key st2 = (q, st2))
  ∧ (∀ pg_schema prefix model,
       Bootstrap.ensureTable pg_schema model st
       = Bootstrap.ensure (pg_schema ++ "." ++ Postgres.modelToTableName model) st
       ∧ Bootstrap.ensureCollection prefix model st
         = Bootstrap.ensure (default "" prefix ++ Mongo.modelToCollectionName model) st).
Proof.
  intros st. pose proof (consistent_run events) as Hc. fold st in Hc.
  pose proof Hc as (I1 & I2 & I3).
  assert (cached_count st key ≤ 1)%nat as Hle.
  { unfold cached_count. destruct (Bootstrap.cache st !! key); lia. }
  split_and!.
  - rewrite (I3 key). lia.
  - intros H0. rewrite (I3 key), H0. lia.
  - intros Hmiss. rewrite (ensure_miss key st Hmiss). eexists _, _.
    split; [done|]. cbn [Bootstrap.cache]. split; [by rewrite lookup_insert_eq|].
    split.
    + unfold promise_is. cbn [Bootstrap.promises]. by rewrite list_lookup_middle.
    + rewrite attempts_snoc, String.eqb_refl. cbn. lia.
  - intros p Hhit. split; [by apply ensure_hit | by apply I1].
  - intros p more Hp.
    destruct (fulfilled_is_final more st key p Hc Hp) as (_ & Hcache & Ha).
    split; [|done]. by rewrite (ensure_hit key p _ Hcache).
  - intros p Hp.
    assert (Bootstrap.cache st !! key = Some p) as Hcached by by eapply I2.
    pose proof (consistent_settle p false st Hc) as Hc1.
    rewrite (settle_pending p false st key Hp) in *.
    set (st1 := Bootstrap.mkState _ _) in *.
    assert (Bootstrap.cache st1 !! key = None) as Hgone.
    { subst st1. cbn [Bootstrap.cache]. by rewrite lookup_delete_eq. }
    assert (Bootstrap.attempts key st1 = Bootstrap.attempts key st
            ∧ Bootstrap.failures key st1 = S (Bootstrap.failures key st)) as [Ha Hf].
    { destruct Hc1 as (_ & _ & I3'). pose proof (I3' key) as H1. pose proof (I3 key) as H0.
      unfold cached_count in H0, H1. rewrite Hgone in H1. rewrite Hcached in H0.
      assert (Bootstrap.attempts key st1 = Bootstrap.attempts key st) as Hsame.
      { subst st1. unfold Bootstrap.attempts. cbn [Bootstrap.promises].
        pose proof (filter_length_insert (fun pr => String.eqb (Bootstrap.key_of pr) key)
                      _ p _ (Bootstrap.mkPromise key Bootstrap.Rejected) Hp) as Hi.
        cbn in Hi. lia. }
      lia. }
    split; [done|]. split; [done|].
    rewrite (ensure_miss key st1 Hgone). eexists _, _. split; [done|].
    split_and!.
    + subst st1. cbn [Bootstrap.promises]. rewrite length_insert.
      apply lookup_lt_Some in Hp. lia.
    + unfold promise_is. cbn [Bootstrap.promises]. by rewrite list_lookup_middle.
    + rewrite attempts_snoc, String.eqb_refl, Ha. cbn. lia.
    + apply ensure_hit. cbn [Bootstrap.cache]. by rewrite lookup_insert_eq.
  - intros pg_schema prefix model. done.
Qed.

Lemma bootstrap_runs_once_witness :
  let key := Bootstrap.table_key "public" todo in
  let st := Bootstrap.run [Bootstrap.Request key; Bootstrap.Request key;
                           Bootstrap.Finish 0 false;
                           Bootstrap.Request key; Bootstrap.Request key;
                           Bootstrap.Finish 1 true; Bootstrap.Request key] in
  key = "public.todos"
  ∧ Bootstrap.attempts key st = 2%nat
  ∧ Bootstrap.failures key st = 1%nat
  ∧ Bootstrap.cache st !! key = Some 1%nat
  ∧ (Bootstrap.attempts key st ≤ Bootstrap.failures key st + 1)%nat.
Proof.
  intros key st.
  split; [vm_compute; reflexivity|].
  split; [vm_compute; reflexivity|].
  split; [vm_compute; reflexivity|].
  split; [vm_compute; reflexivity|].
  apply (bootstrap_runs_once
           [Bootstrap.Request key; Bootstrap.Request key; Bootstrap.Finish 0 false;
            Bootstrap.Request key; Bootstrap.Request key; Bootstrap.Finish 1 true;
            Bootstrap.Request key] key).
Defined.

(* ================================================================== *)
(** * Well-formed states are what the adapters produce *)
(* ================================================================== *)

Lemma pg_ids_after_merge key f (t : list Postgres.CrudRow) :
  (∀ row, Postgres.id (f row) = Postgres.id row) →
  Postgres.id <$> ((fun row => if Postgres.has_id key row then f row else row) <$> t)
  = Postgres.id <$> t.
Proof.
  intros Hid. induction t as [|row t IH]; csimpl; [done|].
  rewrite IH. by destruct (Postgres.has_id key row); rewrite ?Hid.
Qed.

Lemma NoDup_filter_fmap {A B} (f : A → B) (p : A → bool) (l : list A) :
  NoDup (f <$> l) → NoDup (f <$> List.filter p l).
Proof.
  induction l as [|x l IH]; csimpl; [done|].
  rewrite NoDup_cons. intros [Hx Hnd]. destruct (p x); csimpl; [|by apply IH].
  apply NoDup_cons. split; [|by apply IH].
  intros Hin. apply Hx. apply list_elem_of_fmap in Hin as (y & -> & Hy).
  apply list_elem_of_fmap. exists y. split; [done|].
  apply list_elem_of_In in Hy. apply List.filter_In in Hy as [Hy _].
  by apply list_elem_of_In.
Qed.

Lemma relational_well_formed_kept model (t : Postgres.Table) i P o :
  well_formed (Relational model) t →
  well_formed (Relational model) (snd (Store.create (relational_store model) P o t))
  ∧ well_formed (Relational model) (snd (Store.update (relational_store model) i P o t))
  ∧ well_formed (Relational model) (snd (Store.delete (relational_store model) i o t)).
Proof.
  intros [Hnd Hplain]. cbn [Store.create Store.update Store.delete relational_store].
  split_and!.
  - destruct (pg_create_table model P (Store.entropy o) (Store.clock o) t)
      as [-> | [E ->]]; [done|].
    apply pg_existsb_false_inv in E. split.
    + rewrite fmap_app. apply NoDup_app. split; [done|]. split.
      * intros x Hx Hin. cbn in Hin. apply list_elem_of_singleton in Hin as ->. done.
      * apply NoDup_singleton.
    + intros row Hrow. apply elem_of_app in Hrow as [Hrow | Hrow]; [by apply Hplain|].
      apply list_elem_of_singleton in Hrow as ->. apply to_jsonb_sanitize_plain.
  - destruct (pg_update_table model i P (Store.clock o) t) as [-> | [_ ->]]; [done|].
    split.
    + by rewrite pg_ids_after_merge.
    + intros row Hrow. apply list_elem_of_fmap in Hrow as (row0 & -> & Hrow0).
      destruct (Postgres.has_id i row0); [|by apply Hplain].
      apply spread_plain; [by apply Hplain | apply to_jsonb_sanitize_plain].
  - destruct (pg_delete_table model i t) as [-> | [_ ->]]; [done|]. split.
    + by apply NoDup_filter_fmap.
    + intros row Hrow. apply list_elem_of_In in Hrow.
      apply List.filter_In in Hrow as [Hrow _]. apply Hplain. by apply list_elem_of_In.
Qed.

Lemma mongo_ids_after_replace oid new ds :
  Mongo._id new = Some oid →
  (fun d => default "" (Mongo._id d)) <$> Mongo.replace_doc oid new ds
  = (fun d => default "" (Mongo._id d)) <$> ds.
Proof.
  intros Hnew. induction ds as [|d ds IH]; csimpl; [done|].
  destruct (Mongo.has_id oid d) eqn:E; csimpl.
  - apply mongo_has_id_true in E. by rewrite Hnew, E.
  - by rewrite IH.
Qed.

Lemma mongo_replace_elem oid new ds d :
  d ∈ Mongo.replace_doc oid new ds → d = new ∨ d ∈ ds.
Proof.
  induction ds as [|d0 ds IH]; csimpl; [by right|].
  destruct (Mongo.has_id oid d0).
  - rewrite !elem_of_cons. intros [-> | H]; [by left | right; by right].
  - rewrite !elem_of_cons. intros [-> | H]; [right; by left|].
    destruct (IH H) as [-> | ?]; [by left | right; by right].
Qed.

Lemma mongo_remove_first_sublist oid ds :
  Mongo.remove_first oid ds `sublist_of` ds.
Proof.
  induction ds as [|d ds IH]; csimpl; [done|].
  destruct (Mongo.has_id oid d); [by apply sublist_cons | by apply sublist_skip].
Qed.

Lemma document_well_formed_kept model (c : Mongo.Collection) i P o :
  well_formed (Document model) c →
  well_formed (Document model) (snd (Store.create (document_store model) P o c))
  ∧ well_formed (Document model) (snd (Store.update (document_store model) i P o c))
  ∧ well_formed (Document model) (snd (Store.delete (document_store model) i o c)).
Proof.
  intros [Hnd Hwf]. cbn [Store.create Store.update Store.delete document_store].
  split_and!.
  - unfold Mongo.create, Mongo.insertOne. cbn [Mongo._id].
    destruct (Bson.key_has_nul _); cbn [snd]; [done|].
    destruct (existsb _ (Mongo.docs c)) eqn:E; cbn [snd]; [done|].
    destruct (negb _); cbn [snd]; [done|].
    apply mongo_existsb_false_inv in E; [|intros d Hd; by apply Hwf].
    split; cbn [Mongo.with_docs Mongo.docs].
    + rewrite fmap_app. apply NoDup_app. split; [done|]. split.
      * intros x Hx Hin. cbn in Hin. apply list_elem_of_singleton in Hin as ->. done.
      * apply NoDup_singleton.
    + intros d Hd. apply elem_of_app in Hd as [Hd | Hd]; [by apply Hwf|].
      apply list_elem_of_singleton in Hd as ->. cbn. split; [by eexists|].
      intros key Hkey. by rewrite lookup_fmap, (pick_plain _ _ key Hkey).
  - unfold Mongo.update, Mongo.buildLookup.
    destruct (Mongo.tryParseObjectId i) as [oid|]; cbn [snd]; [|done].
    pose proof (apply_update_plain model P o) as Hpl.
    pose proof (apply_update_header model P o) as Hhd.
    unfold update_spec in Hpl, Hhd.
    destruct (Mongo.splitStructuredPatch (schema model) P) as [set unset].
    set (u := Mongo.mkUpdate _ _ _) in *.
    unfold Mongo.findOneAndUpdate.
    destruct (negb (Mongo.serializable u)); cbn [snd]; [done|].
    destruct (Mongo.findOne oid c) as [old|] eqn:Ef; cbn [snd]; [|done].
    destruct (Mongo.admits c old && negb _); cbn [snd]; [done|].
    destruct (mongo_find_some _ _ _ Ef) as [Hin Hid].
    destruct (Hhd old) as (Hid' & _ & _).
    split; cbn [Mongo.with_docs Mongo.docs].
    + rewrite mongo_ids_after_replace; [done|]. by rewrite Hid'.
    + intros d Hd. apply mongo_replace_elem in Hd as [-> | Hd]; [|by apply Hwf].
      split; [rewrite Hid'; by eexists|]. apply Hpl. by apply Hwf.
  - unfold Mongo.delete, Mongo.buildLookup.
    destruct (Mongo.tryParseObjectId i) as [oid|]; cbn [snd]; [|done].
    unfold Mongo.deleteOne. cbn [snd Mongo.with_docs Mongo.docs].
    pose proof (mongo_remove_first_sublist oid (Mongo.docs c)) as Hsub.
    split; cbn [Mongo.docs].
    + unfold Mongo.with_docs. cbn [Mongo.docs].
      eapply sublist_NoDup; [exact Hnd|]. by apply fmap_sublist.
    + unfold Mongo.with_docs. cbn [Mongo.docs].
      intros d Hd. apply Hwf. by eapply elem_of_sublist.
Qed.

(** Every operation of every store leaves a well-formed state
    well-formed. *)
Lemma well_formed_kept (b : Backend) (s : state b) i P o :
  well_formed b s →
  well_formed b (snd (Store.create (store_of b) P o s))
  ∧ well_formed b (snd (Store.update (store_of b) i P o s))
  ∧ well_formed b (snd (Store.delete (store_of b) i o s)).
Proof.
  destruct b as [| | model | model]; cbn [store_of]; try done.
  - apply relational_well_formed_kept.
  - apply document_well_formed_kept.
Qed.

(** Why [update_accepts] asks about a field called [value]: when the
    driver hands back the plain document, [unwrapFindOneAndUpdateResult]
    takes a document that has such a field for the driver's result
    wrapper, and [update] throws after the merge is stored. *)
Example update_with_value_field :
  let setting := mkModel "Setting" [("value", mkField TString false)] in
  let c := Mongo.mkCollection None
             [Mongo.mkDoc (Some pair_id) 0 0 {[ "value" := JStr "old" ]}] false in
  fst (Mongo.update setting pair_id (JObj {[ "value" := JStr "new" ]}) 1 c)
  = Err "MongoDB (Setting) update(000000000000000000000007) failed: MongoDB document is missing _id"
  ∧ Mongo.rest <$> Mongo.findOne pair_id
      (snd (Mongo.update setting pair_id (JObj {[ "value" := JStr "new" ]}) 1 c))
    = Some {[ "value" := JStr "new" ]}.
Proof. split; vm_compute; reflexivity. Qed.

(* ================================================================== *)
(** * Input validation *)
(* ================================================================== *)

Lemma fold_errors {A} (g : A → list string) (l : list A) (acc : list string) :
  fold_left (fun errors x => (errors ++ g x)%list) l acc
  = (acc ++ concat (g <$> l))%list.
Proof.
  revert acc. induction l as [|x l IH]; intros acc; cbn.
  - by rewrite app_nil_r.
  - rewrite IH. by rewrite <- app_assoc.
Qed.

Lemma concat_nil {A B} (g : A → list B) (l : list A) :
  concat (g <$> l) = [] ↔ ∀ x, x ∈ l → g x = [].
Proof.
  induction l as [|x l IH]; cbn.
  - split; [|done]. intros _ y Hy. by apply elem_of_nil in Hy.
  - split.
    + intros H. apply app_eq_nil in H as [Hx Hl]. intros y Hy.
      apply elem_of_cons in Hy as [-> | Hy]; [done|]. by apply IH.
    + intros H. rewrite (H x) by apply list_elem_of_here. cbn.
      apply IH. intros y Hy. apply H. by apply list_elem_of_further.
Qed.

Lemma field_errors_nil input key field :
  Validator.field_errors input key field = [] ↔ provides input key field.
Proof.
  unfold Validator.field_errors, provides. cbv zeta.
  destruct (Validator.nullish (Validator.read input key)).
  - destruct (isOptional field); split; done.
  - destruct (type field), (Validator.read input key); cbn; split; done.
Qed.

Lemma validateInput_object s input :
  JsonFileStore.isRecord input = true →
  Validator.validateInput s input
  = concat ((fun kf => Validator.field_errors input (fst kf) (snd kf)) <$> s).
Proof.
  unfold JsonFileStore.isRecord, Validator.validateInput. intros H.
  apply andb_true_iff in H as [-> ->]. cbn [negb orb].
  by rewrite fold_errors.
Qed.




Lemma read_insert_ne fields k v key :
  key ≠ k →
  Validator.read (JObj (<[k := v]> fields)) key = Validator.read (JObj fields) key.
Proof.
  intros H. unfold Validator.read, js_get. cbn [own_props].
  by rewrite lookup_insert_ne.
Qed.

(** X2. A field the schema does not declare never changes the verdict:
    [validateInput] gives the same messages with and without it. *)
Theorem validateInput_ignores_undeclared (s : ModelSchema)
    (fields : JsObject) (k : string) (v : JsValue) :
  k ∉ schema_keys s →
  Validator.validateInput s (JObj (<[k := v]> fields))
  = Validator.validateInput s (JObj fields).
Proof.
  intros Hk. rewrite !validateInput_object by done. f_equal.
  apply list_fmap_ext. intros i [key field] Hi. cbn [fst snd].
  unfold Validator.field_errors. cbv zeta.
  rewrite read_insert_ne; [done|].
  intros ->. apply Hk. unfold schema_keys.
  apply list_elem_of_fmap. exists (k, field). split; [done|].
  by eapply list_elem_of_lookup_2.
Qed.

Lemma validateInput_ignores_undeclared_witness :
  Validator.validateInput (schema todo) buy_milk_first
  = Validator.validateInput (schema todo) buy_milk.
Proof.
  apply (validateInput_ignores_undeclared (schema todo)).
  vm_compute. intros H. apply list_elem_of_In in H.
  destruct H as [H | [H | []]]; discriminate H.
Defined.

(* ================================================================== *)
(** * Validated bodies and the collection validator *)
(* ================================================================== *)

Lemma validateInput_provides s input key field :
  Validator.validateInput s input = [] → (key, field) ∈ s →
  provides input key field.
Proof.
  intros H Hin.
  destruct (JsonFileStore.isRecord input) eqn:Hrec.
  - rewrite validateInput_object in H by done.
    apply field_errors_nil. by apply (proj1 (concat_nil _ _) H (key, field)).
  - unfold Validator.validateInput in H. unfold JsonFileStore.isRecord in Hrec.
    destruct (truthy input), (typeof_object input); done.
Qed.

Lemma validateInput_record s input :
  Validator.validateInput s input = [] → JsonFileStore.isRecord input = true.
Proof.
  unfold Validator.validateInput, JsonFileStore.isRecord.
  by destruct (truthy input), (typeof_object input).
Qed.

(** What the adapter reads under a declared name is what the validator
    read. *)
Lemma read_as_sanitized s input key :
  JsonFileStore.isRecord input = true →
  storable s → plainly_read s input → key ∈ schema_keys s →
  js_get (sanitizeClientPayload input) key = Validator.read input key.
Proof.
  intros Hrec Hst Hpl Hkey. destruct (Hst key Hkey) as [Hres _].
  rewrite js_get_sanitize_other by done.
  unfold payload_fields. unfold JsonFileStore.isRecord in Hrec. rewrite Hrec.
  unfold Validator.read. destruct input; try done.
  destruct (String.eqb key "length") eqn:E; [|done].
  apply String.eqb_eq in E as ->. by destruct (Hpl eq_refl).
Qed.

Lemma nullish_settable v : settable v = negb (Validator.nullish v).
Proof. by destruct v. Qed.

Lemma schema_fold_required (s : ModelSchema) js :
  Mongo.required
    (fold_left
       (fun js kf =>
          Mongo.mkJsonSchema
            (if isOptional (snd kf) then Mongo.required js
             else (Mongo.required js ++ [fst kf])%list)
            (<[fst kf := Mongo.bson_of_field (snd kf)]> (Mongo.properties js)))
       s js)
  = (Mongo.required js
     ++ (fst <$> List.filter (fun kf => negb (isOptional (snd kf))) s))%list.
Proof.
  revert js. induction s as [|[k f] s IH]; intros js; cbn [fold_left].
  - by rewrite app_nil_r.
  - rewrite IH. cbn [fst snd Mongo.required List.filter].
    destruct (isOptional f); cbn [negb]; [done|].
    by rewrite <- app_assoc.
Qed.

Lemma schema_fold_properties (s : ModelSchema) js k ty :
  Mongo.properties
    (fold_left
       (fun js kf =>
          Mongo.mkJsonSchema
            (if isOptional (snd kf) then Mongo.required js
             else (Mongo.required js ++ [fst kf])%list)
            (<[fst kf := Mongo.bson_of_field (snd kf)]> (Mongo.properties js)))
       s js) !! k = Some ty →
  (∃ f, (k, f) ∈ s ∧ ty = Mongo.bson_of_field f)
  ∨ ((k ∉ schema_keys s) ∧ Mongo.properties js !! k = Some ty).
Proof.
  revert js. induction s as [|[k' f] s IH]; intros js; cbn [fold_left].
  - intros H. right. split; [|done]. apply not_elem_of_nil.
  - intros H. apply IH in H as [(f' & Hin & ->) | [Hk H]].
    + left. exists f'. split; [|done]. by apply list_elem_of_further.
    + cbn [Mongo.properties fst snd] in H.
      destruct (decide (k = k')) as [-> | Hne].
      * rewrite lookup_insert_eq in H. injection H as <-.
        left. exists f. split; [|done]. apply list_elem_of_here.
      * rewrite lookup_insert_ne in H by done. right. split; [|done].
        unfold schema_keys. cbn. apply not_elem_of_cons. by split.
Qed.

Lemma schema_required s k :
  k ∈ Mongo.required (Mongo.schemaToJsonSchema s) →
  k = "_id" ∨ k = "createdAt" ∨ k = "updatedAt"
  ∨ ∃ f, (k, f) ∈ s ∧ isOptional f = false.
Proof.
  unfold Mongo.schemaToJsonSchema. rewrite schema_fold_required.
  cbn [Mongo.required]. intros H. apply elem_of_app in H as [H | H].
  - apply list_elem_of_In in H. cbn in H.
    destruct H as [<- | [<- | [<- | []]]]; tauto.
  - right. right. right. apply list_elem_of_fmap in H as ([k' f] & -> & H).
    apply list_elem_of_In, filter_In in H as [H Hopt].
    apply list_elem_of_In in H. exists f. split; [done|].
    cbn in Hopt. by destruct (isOptional f).
Qed.

Lemma schema_properties s k ty :
  Mongo.properties (Mongo.schemaToJsonSchema s) !! k = Some ty →
  (∃ f, (k, f) ∈ s ∧ ty = Mongo.bson_of_field f)
  ∨ ((k ∉ schema_keys s)
     ∧ ((k = "_id" ∧ ty = Mongo.BObjectId)
        ∨ (k = "createdAt" ∧ ty = Mongo.BDate)
        ∨ (k = "updatedAt" ∧ ty = Mongo.BDate))).
Proof.
  unfold Mongo.schemaToJsonSchema. intros H.
  apply schema_fold_properties in H as [H | [Hk H]]; [by left|].
  right. split; [done|]. cbn [Mongo.properties] in H.
  destruct (decide (k = "_id")) as [-> | H1].
  { rewrite lookup_insert_eq in H. injection H as <-. by left. }
  rewrite lookup_insert_ne in H by done.
  destruct (decide (k = "createdAt")) as [-> | H2].
  { rewrite lookup_insert_eq in H. injection H as <-. right. by left. }
  rewrite lookup_insert_ne in H by done.
  destruct (decide (k = "updatedAt")) as [-> | H3].
  { rewrite lookup_insert_eq in H. injection H as <-. right. by right. }
  rewrite lookup_insert_ne in H by done. by rewrite lookup_empty in H.
Qed.

Lemma satisfies_intro js doc :
  (∀ k, k ∈ Mongo.required js → is_Some (Mongo.doc_field doc k)) →
  (∀ k ty v, Mongo.properties js !! k = Some ty →
     Mongo.doc_field doc k = Some v → Mongo.bson_matches ty v = true) →
  Mongo.satisfies js doc = true.
Proof.
  intros Hreq Hprop. unfold Mongo.satisfies. apply andb_true_iff. split.
  - apply forallb_forall. intros k Hk. apply bool_decide_eq_true.
    apply Hreq. by apply list_elem_of_In.
  - apply forallb_forall. intros [k ty] Hk. cbn [fst snd].
    apply list_elem_of_In, elem_of_map_to_list in Hk.
    destruct (Mongo.doc_field doc k) as [v|] eqn:E; [|done].
    by apply (Hprop k ty v).
Qed.

Lemma satisfies_elim js doc :
  Mongo.satisfies js doc = true →
  (∀ k, k ∈ Mongo.required js → is_Some (Mongo.doc_field doc k))
  ∧ (∀ k ty v, Mongo.properties js !! k = Some ty →
       Mongo.doc_field doc k = Some v → Mongo.bson_matches ty v = true).
Proof.
  unfold Mongo.satisfies. intros H. apply andb_true_iff in H as [Hreq Hprop].
  split.
  - intros k Hk. rewrite forallb_forall in Hreq.
    apply list_elem_of_In in Hk. apply Hreq in Hk.
    by apply bool_decide_eq_true in Hk.
  - intros k ty v Hk Hv. rewrite forallb_forall in Hprop.
    apply elem_of_map_to_list, list_elem_of_In in Hk.
    apply Hprop in Hk. cbn [fst snd] in Hk. by rewrite Hv in Hk.
Qed.

Lemma doc_field_other doc k :
  k ≠ "_id" → ¬ reserved k →
  Mongo.doc_field doc k = Mongo.VJs <$> (Mongo.rest doc !! k).
Proof.
  intros H1 H2. unfold Mongo.doc_field.
  rewrite !eqb_false_ne; [done | | |]; intros ->; unfold reserved in H2; tauto.
Qed.

Lemma has_type_matches f v :
  has_type (type f) v → Mongo.bson_matches (Mongo.bson_of_field f) (Mongo.VJs v) = true.
Proof. unfold Mongo.bson_of_field. by destruct (type f), v. Qed.

(** A string, a number and a boolean are stored as they are. *)
Lemma has_type_stable t v : has_type t v → Bson.normalize v = v.
Proof. by destruct t, v. Qed.

Lemma in_schema_keys (s : ModelSchema) k f : (k, f) ∈ s → k ∈ schema_keys s.
Proof.
  intros H. unfold schema_keys. apply list_elem_of_fmap. by exists (k, f).
Qed.

(** What a validated body hands the adapter under a declared name. *)
Lemma validated_field s input k f :
  Validator.validateInput s input = [] →
  storable s → plainly_read s input → (k, f) ∈ s →
  let v := js_get (sanitizeClientPayload input) k in
  (settable v = true → has_type (type f) v)
  ∧ (isOptional f = false → settable v = true).
Proof.
  intros Hval Hst Hpl Hin v.
  pose proof (validateInput_provides s input k f Hval Hin) as Hp.
  unfold provides in Hp. cbv zeta in Hp.
  subst v.
  rewrite (read_as_sanitized s input k (validateInput_record _ _ Hval) Hst Hpl
             (in_schema_keys _ _ _ Hin)).
  rewrite nullish_settable.
  destruct (Validator.nullish (Validator.read input k)); cbn.
  - split; [done|]. intros H. by rewrite H in Hp.
  - done.
Qed.



Lemma pair_storable : storable (schema pair_model).
Proof.
  intros key Hkey. apply list_elem_of_In in Hkey. cbn in Hkey. unfold reserved.
  destruct Hkey as [<- | [<- | []]]; split; try discriminate;
    intros [H | [H | H]]; discriminate H.
Qed.


(** X4. A body the route validator lets through keeps an updated document
    acceptable: when the stored document satisfied the collection
    validator, so does the document [update] makes of it. *)
Theorem validated_patch_passes_validator (model : ModelDefinition)
    (body : JsValue) (o : Store.Oracle) (c : Mongo.Collection)
    (old : Mongo.StoredDoc) :
  storable (schema model) →
  plainly_read (schema model) body →
  validated_by model c →
  Validator.validateInput (schema model) body = [] →
  Mongo.admits c old = true →
  Mongo.admits c (Mongo.apply_update (update_spec model body o) old) = true.
Proof.
  intros Hst Hpl Hc Hval. unfold Mongo.admits.
  destruct Hc as [-> | ->]; [done|]. intros Hold.
  apply satisfies_elim in Hold as [Hreq Hprop].
  set (new := Mongo.apply_update (update_spec model body o) old).
  assert (Mongo._id new = Mongo._id old) as Hid by done.
  apply satisfies_intro.
  - intros k Hk. pose proof (Hreq k Hk) as Hwas.
    apply schema_required in Hk as [-> | [-> | [-> | (f & Hin & Hopt)]]];
      [done | done | done |].
    destruct (Hst k (in_schema_keys _ _ _ Hin)) as [Hres Hne].
    rewrite doc_field_other by done. subst new.
    rewrite apply_update_lookup, decide_True by by eapply in_schema_keys.
    destruct (validated_field _ _ _ _ Hval Hst Hpl Hin) as [_ Hset].
    cbv zeta. by rewrite Hset.
  - intros k ty v Hk Hv. pose proof Hk as Hk'.
    apply schema_properties in Hk as [(f & Hin & ->) | [Hk Hhead]].
    + destruct (Hst k (in_schema_keys _ _ _ Hin)) as [Hres Hne].
      rewrite doc_field_other in Hv by done. subst new.
      rewrite apply_update_lookup, decide_True in Hv by by eapply in_schema_keys.
      cbv zeta in Hv.
      destruct (validated_field _ _ _ _ Hval Hst Hpl Hin) as [Hty _].
      destruct (settable _) eqn:E.
      * cbn in Hv. injection Hv as <-. pose proof (Hty eq_refl) as Ht.
        rewrite (has_type_stable _ _ Ht). by apply has_type_matches.
      * destruct (is_null _); [done|].
        apply (Hprop k _ v Hk'). by rewrite doc_field_other.
    + destruct Hhead as [[-> ->] | [[-> ->] | [-> ->]]].
      * unfold Mongo.doc_field in Hv. cbn [String.eqb Ascii.eqb Bool.eqb] in Hv.
        destruct (Mongo._id new); [|done]. by injection Hv as <-.
      * cbn in Hv. by injection Hv as <-.
      * cbn in Hv. by injection Hv as <-.
Qed.

Lemma validated_patch_passes_validator_witness :
  Mongo.admits pairs (Mongo.apply_update (update_spec pair_model b3 at_noon) pair_doc)
  = true.
Proof.
  apply validated_patch_passes_validator.
  - exact pair_storable.
  - intros H. discriminate H.
  - right. reflexivity.
  - vm_compute. reflexivity.
  - vm_compute. reflexivity.
Defined.

(* ================================================================== *)
(** * What the stores keep *)
(* ================================================================== *)

Section JsMapEntries.
Context {V : Type}.
Implicit Types (m : list (string * V)) (k : string) (v : V).

Lemma jsmap_set_elem k v m k' v' :
  (k', v') ∈ JsMap.set k v m → (k', v') = (k, v) ∨ (k', v') ∈ m.
Proof.
  induction m as [|[k0 v0] m IH]; simpl.
  - rewrite list_elem_of_singleton. by left.
  - destruct (String.eqb k k0) eqn:E.
    + apply String.eqb_eq in E as <-. rewrite !elem_of_cons.
      intros [H | H]; [by left | right; by right].
    + rewrite !elem_of_cons. intros [H | H]; [right; by left|].
      destruct (IH H) as [? | ?]; [by left | right; by right].
Qed.

Lemma jsmap_set_NoDup k v m :
  NoDup (JsMap.keys m) → NoDup (JsMap.keys (JsMap.set k v m)).
Proof.
  intros H. rewrite jsmap_keys_set. destruct (JsMap.has k m) eqn:E; [done|].
  apply NoDup_app. split_and!; [done | | apply NoDup_singleton].
  intros k' Hk' Hin. apply list_elem_of_singleton in Hin as ->.
  apply jsmap_has_get, jsmap_get_none in E. done.
Qed.

Lemma jsmap_remove_elem k m k' v' :
  (k', v') ∈ JsMap.remove k m → (k', v') ∈ m.
Proof.
  unfold JsMap.remove. intros H. apply list_elem_of_In in H.
  apply List.filter_In in H as [H _]. by apply list_elem_of_In.
Qed.

Lemma jsmap_remove_NoDup k m :
  NoDup (JsMap.keys m) → NoDup (JsMap.keys (JsMap.remove k m)).
Proof.
  unfold JsMap.keys, JsMap.remove. apply NoDup_filter_fmap.
Qed.

Lemma of_entries_gen_sound (entries acc : list (string * V)) :
  NoDup (JsMap.keys acc) →
  NoDup (JsMap.keys
           (fold_left (fun m kv => JsMap.set (fst kv) (snd kv) m) entries acc))
  ∧ ∀ k v, (k, v) ∈ fold_left (fun m kv => JsMap.set (fst kv) (snd kv) m) entries acc →
      (k, v) ∈ acc ∨ (k, v) ∈ entries.
Proof.
  revert acc. induction entries as [|[k0 v0] entries IH]; intros acc Hnd; csimpl.
  - split; [done|]. intros k v H. by left.
  - destruct (IH (JsMap.set k0 v0 acc) (jsmap_set_NoDup k0 v0 acc Hnd)) as [H1 H2].
    split; [done|]. intros k v H. apply H2 in H as [H | H].
    + apply jsmap_set_elem in H as [-> | H]; [right; by left | by left].
    + right. by right.
Qed.

End JsMapEntries.

Lemma indexed_set k item index :
  indexed index → has_header item k → indexed (JsMap.set k item index).
Proof.
  intros [Hnd Hid] Hitem. split; [by apply jsmap_set_NoDup|].
  intros k' item' H. apply jsmap_set_elem in H as [[= -> ->] | H]; [done|].
  by apply Hid.
Qed.

Lemma indexed_remove k index : indexed index → indexed (JsMap.remove k index).
Proof.
  intros [Hnd Hid]. split; [by apply jsmap_remove_NoDup|].
  intros k' item' H. apply Hid. by eapply jsmap_remove_elem.
Qed.

Lemma indexed_get k item index :
  indexed index → JsMap.get k index = Some item → has_header item k.
Proof. intros [_ Hid] H. apply Hid. by apply jsmap_get_some_elem. Qed.

Lemma indexed_create index P clock entropy :
  indexed index →
  indexed (JsMap.set (Uuid.randomUUID entropy)
             (fresh_item (Uuid.randomUUID entropy) (Iso.nowIso clock) P) index).
Proof.
  intros H. apply indexed_set; [done|].
  destruct (fresh_item_lookup_reserved (Uuid.randomUUID entropy) (Iso.nowIso clock) P)
    as (H1 & H2 & H3).
  split_and!; eauto.
Qed.

Lemma indexed_update index i existing P clock :
  indexed index → JsMap.get i index = Some existing →
  indexed (JsMap.set i (merged_item existing (Iso.nowIso clock) P) index).
Proof.
  intros H Hget. apply indexed_set; [done|].
  destruct (indexed_get _ _ _ H Hget) as (H1 & H2 & H3).
  unfold has_header. rewrite !merged_item_lookup.
  rewrite decide_False by done. rewrite decide_True by (unfold reserved; tauto).
  rewrite decide_False by done. rewrite decide_True by (unfold reserved; tauto).
  rewrite decide_True by done. split_and!; eauto.
Qed.

Lemma isCrudItem_header v :
  JsonFileStore.isCrudItem v = true →
  has_header (own_props v) (item_id (own_props v)).
Proof.
  unfold JsonFileStore.isCrudItem, has_header, item_id, js_get.
  destruct (JsonFileStore.isRecord v); cbn [negb]; [|done].
  destruct (own_props v !! "id") as [[]|]; cbn; try done.
  destruct (own_props v !! "createdAt") as [[]|]; cbn; try done.
  destruct (own_props v !! "updatedAt") as [[]|]; cbn; try done.
  intros _. split_and!; eauto.
Qed.

Lemma loaded_items path clk disk l disk' :
  JsonFileStore.loadPersistedData path clk disk = (Some l, disk') →
  Forall (fun v => JsonFileStore.isCrudItem v = true) l.
Proof.
  unfold JsonFileStore.loadPersistedData, mbind, io_bind, Fs.bind, Fs.existsSync,
    Fs.try_catch, Fs.readFileSync, mret, io_ret, Fs.ret.
  destruct (bool_decide _); cbn [negb]; [|by intros [= <- _]].
  destruct (disk !! path) as [[content|]|]; try by intros [= <- _].
  destruct (Json.parse content) as [parsed|].
  - destruct (JsonFileStore.isRecord parsed); cbn [negb]; [|by intros [= <- _]].
    intros [= <- _]. apply Forall_forall. intros v Hv.
    apply list_elem_of_In, List.filter_In in Hv. by destruct Hv.
  - destruct (Fs.renameSync _ _ _) as [[[]|] ?]; by intros [= <- _].
Qed.

Lemma loaded_indexed path clk disk :
  indexed (JsonFileStore.items (fst (JsonFileStore.createJsonFileStore path clk disk))).
Proof.
  unfold JsonFileStore.createJsonFileStore.
  destruct (JsonFileStore.loadPersistedData path clk disk) as [[l|] disk'] eqn:E;
    cbn [fst JsonFileStore.items].
  2:{ split; [apply NoDup_nil_2 | intros ? ? H; by apply elem_of_nil in H]. }
  pose proof (loaded_items _ _ _ _ _ E) as Hall.
  unfold JsMap.of_entries.
  destruct (of_entries_gen_sound
              ((fun item => (item_id (own_props item), own_props item)) <$> l) [])
    as [Hnd Hin]; [apply NoDup_nil_2|].
  split; [done|]. intros k item H. apply Hin in H as [H | H].
  { by apply elem_of_nil in H. }
  apply list_elem_of_fmap in H as (v & [= -> ->] & Hv).
  apply isCrudItem_header. rewrite Forall_forall in Hall. by apply Hall.
Qed.

Lemma canonical_kept model (c : Mongo.Collection) i P o :
  canonical_ids c →
  canonical_ids (snd (Store.create (document_store model) P o c))
  ∧ canonical_ids (snd (Store.update (document_store model) i P o c))
  ∧ canonical_ids (snd (Store.delete (document_store model) i o c)).
Proof.
  intros Hc. cbn [Store.create Store.update Store.delete document_store].
  split_and!.
  - unfold Mongo.create, Mongo.insertOne. cbn [Mongo._id].
    destruct (Bson.key_has_nul _); cbn [snd]; [done|].
    destruct (existsb _ (Mongo.docs c)); cbn [snd]; [done|].
    destruct (negb _); cbn [snd]; [done|].
    intros d oid Hd Hid. cbn [Mongo.with_docs Mongo.docs] in Hd.
    apply elem_of_app in Hd as [Hd | Hd]; [by eapply Hc|].
    apply list_elem_of_singleton in Hd as ->. cbn in Hid. injection Hid as <-.
    apply parse_generate.
  - unfold Mongo.update.
    destruct (Mongo.buildLookup i) as [oid|]; [|done].
    destruct (Mongo.splitStructuredPatch (schema model) P) as [set unset].
    unfold Mongo.findOneAndUpdate.
    destruct (negb (Mongo.serializable _)); [done|].
    destruct (Mongo.findOne oid c) as [old|] eqn:Ef; [|done].
    destruct (Mongo.admits c old && negb _); [done|]. cbn [snd].
    intros d oid' Hd Hid. cbn [Mongo.with_docs Mongo.docs] in Hd.
    apply mongo_find_some in Ef as [Hold Holdid].
    apply mongo_replace_elem in Hd as [-> | Hd]; [|by eapply Hc].
    cbn in Hid. by apply (Hc old).
  - unfold Mongo.delete. destruct (Mongo.buildLookup i) as [oid|]; [|done].
    cbn [Mongo.deleteOne snd]. intros d oid' Hd Hid.
    cbn [Mongo.with_docs Mongo.docs] in Hd.
    apply (Hc d); [|done].
    by eapply elem_of_sublist; [|apply mongo_remove_first_sublist].
Qed.


Lemma text_ids_kept model (t : Postgres.Table) i P o :
  text_ids t →
  text_ids (snd (Store.create (relational_store model) P o t))
  ∧ text_ids (snd (Store.update (relational_store model) i P o t))
  ∧ text_ids (snd (Store.delete (relational_store model) i o t)).
Proof.
  intros Ht. cbn [Store.create Store.update Store.delete relational_store].
  split_and!.
  - destruct (pg_create_table model P (Store.entropy o) (Store.clock o) t)
      as [-> | [_ ->]]; [done|].
    intros row Hrow. apply elem_of_app in Hrow as [Hrow | Hrow]; [by apply Ht|].
    apply list_elem_of_singleton in Hrow as ->. apply randomUUID_text.
  - destruct (pg_update_table model i P (Store.clock o) t) as [-> | [_ ->]]; [done|].
    intros row Hrow. apply list_elem_of_fmap in Hrow as (row0 & -> & Hrow0).
    destruct (Postgres.has_id i row0);
      [change (has_nul (Postgres.id row0) = false)|]; by apply Ht.
  - destruct (pg_delete_table model i t) as [-> | [_ ->]]; [done|].
    intros row Hrow. apply list_elem_of_In in Hrow.
    apply List.filter_In in Hrow as [Hrow _]. apply Ht. by apply list_elem_of_In.
Qed.

Lemma sound_kept (b : Backend) (s : state b) i P o :
  sound b s →
  sound b (after_create b P o s)
  ∧ sound b (after_update b i P o s)
  ∧ sound b (after_delete b i o s).
Proof.
  unfold after_create, after_update, after_delete.
  destruct b as [| | model | model]; cbn [sound store_of].
  - intros H. cbn -[MemoryStore.create MemoryStore.update].
    rewrite memory_create_eq, memory_update_eq. cbn [snd]. split_and!.
    + by apply indexed_create.
    + destruct (JsMap.get i s) eqn:E; cbn [snd]; [|done].
      by apply indexed_update.
    + by apply indexed_remove.
  - destruct s as [st fs]. cbn [fst]. intros H.
    cbn -[JsonFileStore.create JsonFileStore.update JsonFileStore.delete].
    split_and!.
    + unfold JsonFileStore.create.
      fold (fresh_item (Uuid.randomUUID (Store.entropy o)) (Iso.nowIso (Store.clock o)) P).
      rewrite fresh_item_id.
      destruct (JsonFileStore.flush _ _ _ _) as [[[]|] fs'];
        cbn [fst snd JsonFileStore.items]; by apply indexed_create.
    + unfold JsonFileStore.update.
      destruct (JsMap.get i (JsonFileStore.items st)) as [existing|] eqn:E;
        cbn [fst snd]; [|done].
      fold (merged_item existing (Iso.nowIso (Store.clock o)) P).
      destruct (JsonFileStore.flush _ _ _ _) as [[[]|] fs'];
        cbn [fst snd JsonFileStore.items]; by apply indexed_update.
    + unfold JsonFileStore.delete.
      destruct (JsMap.has i (JsonFileStore.items st)).
      * destruct (JsonFileStore.flush _ _ _ _) as [[[]|] fs'];
          cbn [fst snd JsonFileStore.items]; by apply indexed_remove.
      * cbn [fst snd JsonFileStore.items]. by apply indexed_remove.
  - intros [Hwf Ht].
    destruct (well_formed_kept (Relational model) s i P o Hwf) as (H1 & H2 & H3).
    destruct (text_ids_kept model s i P o Ht) as (T1 & T2 & T3).
    by split_and!.
  - intros [Hwf Hc].
    destruct (well_formed_kept (Document model) s i P o Hwf) as (H1 & H2 & H3).
    destruct (canonical_kept model s i P o Hc) as (C1 & C2 & C3).
    by split_and!.
Qed.

Lemma initial_sound (b : Backend) (s : state b) : initial b s → sound b s.
Proof.
  destruct b as [| | model | model]; cbn [initial sound].
  - intros ->. split; [apply NoDup_nil_2 | intros ? ? H; by apply elem_of_nil in H].
  - intros (path & clk & disk & ->). apply loaded_indexed.
  - intros ->. split; [|intros ? H; by apply elem_of_nil in H].
    split; [apply NoDup_nil_2 | intros ? H; by apply elem_of_nil in H].
  - intros H. split.
    + cbn [well_formed]. rewrite H. split; [apply NoDup_nil_2|].
      intros ? Hd. by apply elem_of_nil in Hd.
    + intros d oid Hd. rewrite H in Hd. by apply elem_of_nil in Hd.
Qed.

(** X5. Behind a document backend let the schema declare ordinary names
    only (in particular no field called [_id]). Then every store starts
    in a sound state and every call, whatever its outcome, leaves it
    sound: ids stay unique, every record stays under its own id and
    keeps its three header strings, no stored field shadows [id],
    [createdAt] or [updatedAt], the ids of a table hold no U+0000 and
    object ids stay in their printed form. *)
Theorem stores_stay_sound (b : Backend) (s : state b) (i : string)
    (P : JsValue) (o : Store.Oracle) :
  ordinary b →
  (initial b s → sound b s)
  ∧ (sound b s →
     sound b (after_create b P o s)
     ∧ sound b (after_update b i P o s)
     ∧ sound b (after_delete b i o s)).
Proof. intros _. split; [apply initial_sound | apply sound_kept]. Qed.

Lemma stores_stay_sound_witness :
  let s := JsonFileStore.createJsonFileStore todo_path 0 mixed_disk in
  sound File s
  ∧ sound File (after_create File buy_milk at_noon s)
  ∧ sound File (after_update File "a" buy_milk at_noon s)
  ∧ sound File (after_delete File "a" at_noon s).
Proof.
  intros s.
  destruct (stores_stay_sound File s "a" buy_milk at_noon I) as [Hinit Hkept].
  assert (initial File s) as Hi by (exists todo_path, 0%Z, mixed_disk; reflexivity).
  split; [exact (Hinit Hi) | exact (Hkept (Hinit Hi))].
Defined.

(* ================================================================== *)
(** * [getAll] and [getById] show the same records *)
(* ================================================================== *)

Lemma indexed_item_id index k item :
  indexed index → (k, item) ∈ index → item_id item = k.
Proof. intros [_ H] Hin. unfold item_id. by rewrite (proj1 (H k item Hin)). Qed.

Lemma indexed_ids index :
  indexed index → item_id <$> JsMap.values index = JsMap.keys index.
Proof.
  intros H. unfold JsMap.values, JsMap.keys. rewrite <- list_fmap_compose.
  apply list_fmap_ext. intros n [k item] Hn. cbn.
  eapply indexed_item_id; [done|]. by eapply list_elem_of_lookup_2.
Qed.

Lemma indexed_lookup index i r :
  indexed index →
  JsMap.get i index = Some r ↔ r ∈ JsMap.values index ∧ item_id r = i.
Proof.
  intros H. split.
  - intros Hget. apply jsmap_get_some_elem in Hget. split.
    + unfold JsMap.values. apply list_elem_of_fmap. by exists (i, r).
    + by eapply indexed_item_id.
  - intros [Hin <-]. unfold JsMap.values in Hin.
    apply list_elem_of_fmap in Hin as ([k item] & -> & Hin). cbn.
    rewrite (indexed_item_id _ _ _ H Hin). apply jsmap_elem_get; [apply H | done].
Qed.

Lemma pg_filter_unique (t : list Postgres.CrudRow) row :
  NoDup (Postgres.id <$> t) → row ∈ t →
  List.filter (Postgres.has_id (Postgres.id row)) t = [row].
Proof.
  induction t as [|row' t IH]; csimpl; [intros _ H; by apply elem_of_nil in H|].
  rewrite NoDup_cons. intros [Hnot Hnd]. rewrite elem_of_cons. intros [-> | Hin].
  - unfold Postgres.has_id at 1. rewrite String.eqb_refl.
    by rewrite pg_filter_absent.
  - unfold Postgres.has_id at 1. rewrite eqb_false_ne.
    + by apply IH.
    + intros Heq. apply Hnot. rewrite Heq. apply list_elem_of_fmap. by exists row.
Qed.

Lemma mongo_find_unique ds d oid :
  NoDup ((fun d => default "" (Mongo._id d)) <$> ds) →
  d ∈ ds → Mongo._id d = Some oid →
  List.find (Mongo.has_id oid) ds = Some d.
Proof.
  induction ds as [|d' ds IH]; csimpl; [intros _ H; by apply elem_of_nil in H|].
  rewrite NoDup_cons. intros [Hnot Hnd]. rewrite elem_of_cons. intros [-> | Hin] Hid.
  - by rewrite (proj2 (mongo_has_id_true oid d') Hid).
  - destruct (Mongo.has_id oid d') eqn:E; [|by apply IH].
    apply mongo_has_id_true in E. exfalso. apply Hnot.
    apply list_elem_of_fmap. exists d. by rewrite E, Hid.
Qed.

(** [getById] finds exactly the stored records, each under its id. *)
Lemma getById_stored (b : Backend) (s : state b) i r :
  sound b s →
  Store.getById (store_of b) i s = Ok (Some r)
  ↔ r ∈ stored_records b s ∧ lookup_key b i = Some (item_id r).
Proof.
  destruct b as [| | model | model]; cbn [sound store_of stored_records lookup_key].
  - intros H. cbn. unfold MemoryStore.getById.
    split.
    + intros [= Hget]. apply (indexed_lookup _ i r H) in Hget as [? <-]. done.
    + intros [Hin [= Hi]]. f_equal. by apply (indexed_lookup _ _ r H).
  - intros H. destruct s as [st fs]. cbn. unfold JsonFileStore.getById.
    cbn [fst] in H. split.
    + intros [= Hget]. apply (indexed_lookup _ i r H) in Hget as [? <-]. done.
    + intros [Hin [= Hi]]. f_equal. by apply (indexed_lookup _ _ r H).
  - intros [[Hnd Hplain] Htext]. cbn [Store.getById relational_store]. split.
    + intros Hget. pose proof (relational_getById_text _ _ _ _ Hget) as Hi.
      revert Hget. unfold Postgres.getById. rewrite pg_select by done.
      destruct (List.filter _ s) as [|row rows] eqn:E; cbn; [done|].
      intros [= <-]. apply pg_filter_elem in E as [Hin <-]. split.
      * apply list_elem_of_fmap. by exists row.
      * by rewrite row_item_id by by apply Hplain.
    + intros [Hin [= ->]]. apply list_elem_of_fmap in Hin as (row & -> & Hin).
      rewrite row_item_id by by apply Hplain.
      unfold Postgres.getById. rewrite pg_select by by apply Htext.
      by rewrite pg_filter_unique.
  - intros [[Hnd Hwf] Hcan]. cbn. unfold Mongo.getById, Mongo.buildLookup.
    split.
    + destruct (Mongo.tryParseObjectId i) as [oid|]; cbn; [|done].
      unfold Mongo.findOne.
      destruct (List.find _ _) as [d|] eqn:E; cbn; [|done].
      apply mongo_find_some in E as [Hin Hid].
      rewrite doc_item_ok by by rewrite Hid. cbn. intros [= <-]. split.
      * apply list_elem_of_fmap. by exists d.
      * rewrite doc_item_id by by apply Hwf. by rewrite Hid.
    + intros [Hin Hkey]. apply list_elem_of_fmap in Hin as (d & -> & Hin).
      rewrite Hkey. cbn. destruct (Hwf d Hin) as [[oid Hid] Hpl].
      rewrite doc_item_id by done. rewrite Hid. cbn.
      unfold Mongo.findOne. rewrite (mongo_find_unique _ d oid) by done.
      rewrite doc_item_ok by by rewrite Hid. done.
Qed.

Lemma stored_key (b : Backend) (s : state b) r :
  sound b s → r ∈ stored_records b s → lookup_key b (item_id r) = Some (item_id r).
Proof.
  destruct b as [| | model | model]; cbn [sound stored_records lookup_key]; try done.
  intros [[Hnd Hwf] Hcan] Hin. apply list_elem_of_fmap in Hin as (d & -> & Hin).
  destruct (Hwf d Hin) as [[oid Hid] Hpl].
  rewrite doc_item_id by done. rewrite Hid. cbn. by eapply Hcan.
Qed.

Lemma stored_item_ids (b : Backend) (s : state b) :
  sound b s → item_id <$> stored_records b s = stored_ids b s.
Proof.
  destruct b as [| | model | model]; cbn [sound stored_records stored_ids].
  - apply indexed_ids.
  - apply indexed_ids.
  - intros [[_ Hplain] _]. rewrite <- list_fmap_compose.
    apply list_fmap_ext. intros n row Hn. cbn.
    apply row_item_id, Hplain. by eapply list_elem_of_lookup_2.
  - intros [[_ Hwf] _]. rewrite <- list_fmap_compose.
    apply list_fmap_ext. intros n d Hn. cbn.
    apply doc_item_id, Hwf. by eapply list_elem_of_lookup_2.
Qed.

Lemma stored_ids_NoDup (b : Backend) (s : state b) :
  sound b s → NoDup (stored_ids b s).
Proof.
  destruct b as [| | model | model]; cbn [sound stored_ids].
  - by intros [? _].
  - by intros [? _].
  - by intros [[? _] _].
  - by intros [[? _] _].
Qed.

Lemma getAll_stored (b : Backend) (s : state b) :
  sound b s →
  ∃ items, Store.getAll (store_of b) s = Ok items ∧ items ≡ₚ stored_records b s.
Proof.
  destruct b as [| | model | model]; cbn [sound stored_records store_of].
  - intros _. by eexists.
  - intros _. by eexists.
  - intros [[_ Hplain] _].
    destruct (relational_getAll_sorted model s Hplain) as (l & H & Hp & _).
    by exists l.
  - intros [[_ Hwf] _].
    destruct (document_getAll_sorted model s Hwf) as (l & H & Hp & _).
    by exists l.
Qed.

(** X6. On every backend [getAll] and [getById] show the same records:
    [getAll] returns each stored record once, a record is in it exactly
    when [getById] of its id returns it, and [getById] never returns a
    record with another id than the one asked for (on the document
    adapter: than the object id the request parses to). *)
Theorem getAll_agrees_with_getById (b : Backend) (s : state b) :
  sound b s →
  ∃ items,
    Store.getAll (store_of b) s = Ok items
    ∧ NoDup (item_id <$> items)
    ∧ (∀ r, r ∈ items ↔ Store.getById (store_of b) (item_id r) s = Ok (Some r))
    ∧ (∀ i r, Store.getById (store_of b) i s = Ok (Some r) →
         r ∈ items ∧ lookup_key b i = Some (item_id r)).
Proof.
  intros Hs. destruct (getAll_stored b s Hs) as (items & Hall & Hperm).
  exists items. split; [done|]. split_and!.
  - rewrite Hperm, stored_item_ids by done. by apply stored_ids_NoDup.
  - intros r. rewrite Hperm, getById_stored by done. split.
    + intros Hin. split; [done|]. by eapply stored_key.
    + by intros [? _].
  - intros i r Hget. apply getById_stored in Hget as [Hin Hkey]; [|done].
    by rewrite Hperm.
Qed.

Lemma getAll_agrees_with_getById_witness :
  ∃ items,
    Store.getAll (store_of (Relational todo)) two_rows = Ok items
    ∧ NoDup (item_id <$> items)
    ∧ (∀ r, r ∈ items
         ↔ Store.getById (store_of (Relational todo)) (item_id r) two_rows = Ok (Some r))
    ∧ (∀ i r, Store.getById (store_of (Relational todo)) i two_rows = Ok (Some r) →
         r ∈ items ∧ lookup_key (Relational todo) i = Some (item_id r)).
Proof.
  apply (getAll_agrees_with_getById (Relational todo) two_rows).
  split; [exact two_rows_well_formed|].
  intros row Hrow. apply list_elem_of_In in Hrow.
  destruct Hrow as [<- | [<- | []]]; apply randomUUID_text.
Defined.

(* ================================================================== *)
(** * Writes are local *)
(* ================================================================== *)

Lemma pg_filter_other_map key key' (f : Postgres.CrudRow → Postgres.CrudRow)
    (t : list Postgres.CrudRow) :
  key' ≠ key →
  (∀ row, Postgres.id (f row) = Postgres.id row) →
  List.filter (Postgres.has_id key')
    ((fun row => if Postgres.has_id key row then f row else row) <$> t)
  = List.filter (Postgres.has_id key') t.
Proof.
  intros Hne Hid. induction t as [|row t IH]; csimpl; [done|].
  destruct (Postgres.has_id key row) eqn:E.
  - unfold Postgres.has_id in *. rewrite Hid. apply String.eqb_eq in E.
    rewrite E, eqb_false_ne by done. apply IH.
  - rewrite IH. done.
Qed.

Lemma pg_filter_other_removed key key' (t : list Postgres.CrudRow) :
  key' ≠ key →
  List.filter (Postgres.has_id key')
    (List.filter (fun row => negb (Postgres.has_id key row)) t)
  = List.filter (Postgres.has_id key') t.
Proof.
  intros Hne. induction t as [|row t IH]; csimpl; [done|].
  destruct (Postgres.has_id key row) eqn:E; csimpl.
  - unfold Postgres.has_id in *. apply String.eqb_eq in E.
    rewrite E, eqb_false_ne by done. apply IH.
  - by rewrite IH.
Qed.

Lemma mongo_has_id_other oid oid' d :
  oid' ≠ oid → Mongo._id d = Some oid → Mongo.has_id oid' d = false.
Proof.
  intros Hne Hid. unfold Mongo.has_id. rewrite Hid.
  apply eqb_false_ne. congruence.
Qed.

Lemma mongo_find_other_replace oid oid' new ds :
  oid' ≠ oid → Mongo._id new = Some oid →
  List.find (Mongo.has_id oid') (Mongo.replace_doc oid new ds)
  = List.find (Mongo.has_id oid') ds.
Proof.
  intros Hne Hnew. induction ds as [|d ds IH]; csimpl; [done|].
  destruct (Mongo.has_id oid d) eqn:E; csimpl.
  - apply mongo_has_id_true in E.
    by rewrite !(mongo_has_id_other oid oid') by done.
  - by rewrite IH.
Qed.

Lemma mongo_find_other_removed oid oid' ds :
  oid' ≠ oid →
  List.find (Mongo.has_id oid') (Mongo.remove_first oid ds)
  = List.find (Mongo.has_id oid') ds.
Proof.
  intros Hne. induction ds as [|d ds IH]; csimpl; [done|].
  destruct (Mongo.has_id oid d) eqn:E; csimpl.
  - apply mongo_has_id_true in E.
    by rewrite (mongo_has_id_other oid oid') by done.
  - by rewrite IH.
Qed.

Lemma mongo_find_other_app oid' ds d oid :
  oid' ≠ oid → Mongo._id d = Some oid →
  List.find (Mongo.has_id oid') (ds ++ [d]) = List.find (Mongo.has_id oid') ds.
Proof.
  intros Hne Hid. induction ds as [|d' ds IH]; csimpl.
  - by rewrite (mongo_has_id_other oid oid').
  - by rewrite IH.
Qed.

Lemma pg_getById_filter model j (t t' : Postgres.Table) :
  List.filter (Postgres.has_id j) t' = List.filter (Postgres.has_id j) t →
  Postgres.getById model j t' = Postgres.getById model j t.
Proof. intros H. unfold Postgres.getById, Postgres.select_by_id. by rewrite H. Qed.

(** [getById] answers only an id the server takes. *)
Lemma getById_takes_id (b : Backend) (s : state b) i x :
  Store.getById (store_of b) i s = Ok x → takes_id b i.
Proof.
  destruct b as [| | model | model]; cbn [takes_id store_of]; try done.
  cbn [Store.getById relational_store]. apply relational_getById_text.
Qed.

Lemma create_frame (b : Backend) (s : state b) j P o :
  lookup_key b j ≠ Some (next_id b o) →
  Store.getById (store_of b) j (after_create b P o s)
  = Store.getById (store_of b) j s.
Proof.
  unfold after_create.
  destruct b as [| | model | model]; cbn [lookup_key next_id store_of]; intros Hne.
  - cbn -[MemoryStore.create]. rewrite memory_create_eq. cbn [snd].
    unfold MemoryStore.getById. rewrite ?fresh_item_id.
    rewrite jsmap_get_set_ne; [done | congruence].
  - destruct s as [st fs]. cbn -[JsonFileStore.create].
    unfold JsonFileStore.create.
    fold (fresh_item (Uuid.randomUUID (Store.entropy o)) (Iso.nowIso (Store.clock o)) P).
    rewrite fresh_item_id.
    destruct (JsonFileStore.flush _ _ _ _) as [[[]|] fs']; cbn [fst snd];
      unfold JsonFileStore.getById; cbn [JsonFileStore.items];
      (rewrite jsmap_get_set_ne; [done | congruence]).
  - cbn [Store.getById Store.create relational_store state].
    destruct (pg_create_table model P (Store.entropy o) (Store.clock o) s)
      as [-> | [_ ->]]; [done|].
    apply pg_getById_filter.
    rewrite List.filter_app. cbn [List.filter]. unfold Postgres.has_id at 2.
    cbn [Postgres.id]. rewrite eqb_false_ne by congruence.
    by rewrite app_nil_r.
  - cbn. unfold Mongo.create, Mongo.insertOne. cbn [Mongo._id].
    destruct (Bson.key_has_nul _); cbn [snd]; [done|].
    destruct (existsb _ (Mongo.docs s)); cbn [snd]; [done|].
    destruct (negb _); cbn [snd]; [done|].
    unfold Mongo.getById, Mongo.buildLookup.
    destruct (Mongo.tryParseObjectId j) as [oid'|] eqn:Ej; [|done].
    unfold Mongo.findOne. cbn [Mongo.with_docs Mongo.docs].
    rewrite (mongo_find_other_app oid' _ _ (Mongo.generate (Store.entropy o)));
      [done | by intros -> | done].
Qed.

Lemma update_frame (b : Backend) (s : state b) i j P o :
  lookup_key b j ≠ lookup_key b i →
  Store.getById (store_of b) j (after_update b i P o s)
  = Store.getById (store_of b) j s.
Proof.
  unfold after_update.
  destruct b as [| | model | model]; cbn [lookup_key store_of]; intros Hne.
  - cbn -[MemoryStore.update]. rewrite memory_update_eq.
    destruct (JsMap.get i s); cbn [snd]; [|done].
    unfold MemoryStore.getById. rewrite jsmap_get_set_ne; [done | congruence].
  - destruct s as [st fs]. cbn -[JsonFileStore.update].
    unfold JsonFileStore.update.
    destruct (JsMap.get i (JsonFileStore.items st)); cbn [fst snd]; [|done].
    destruct (JsonFileStore.flush _ _ _ _) as [[[]|] fs']; cbn [fst snd];
      unfold JsonFileStore.getById; cbn [JsonFileStore.items];
      (rewrite jsmap_get_set_ne; [done | congruence]).
  - cbn [Store.getById Store.update relational_store state].
    destruct (pg_update_table model i P (Store.clock o) s) as [-> | [_ ->]]; [done|].
    apply pg_getById_filter.
    rewrite pg_filter_other_map; [done | congruence | done].
  - cbn. unfold Mongo.update, Mongo.getById, Mongo.buildLookup in *.
    destruct (Mongo.tryParseObjectId i) as [oid|] eqn:Ei; [|done].
    destruct (Mongo.splitStructuredPatch (schema model) P) as [set unset].
    unfold Mongo.findOneAndUpdate.
    destruct (negb (Mongo.serializable _)); [done|].
    destruct (Mongo.findOne oid s) as [old|] eqn:Ef; [|done].
    destruct (Mongo.admits s old && negb _); [done|]. cbn [snd].
    destruct (Mongo.tryParseObjectId j) as [oid'|] eqn:Ej; [|done].
    unfold Mongo.findOne in *. cbn [Mongo.with_docs Mongo.docs].
    apply mongo_find_some in Ef as [_ Hid].
    rewrite (mongo_find_other_replace oid oid'); [done | by intros -> | done].
Qed.

Lemma delete_frame (b : Backend) (s : state b) i j o :
  lookup_key b j ≠ lookup_key b i →
  Store.getById (store_of b) j (after_delete b i o s)
  = Store.getById (store_of b) j s.
Proof.
  unfold after_delete.
  destruct b as [| | model | model]; cbn [lookup_key store_of]; intros Hne.
  - cbn. unfold MemoryStore.getById. rewrite jsmap_remove_get_ne; [done | congruence].
  - destruct s as [st fs]. cbn -[JsonFileStore.delete].
    unfold JsonFileStore.delete.
    destruct (JsMap.has i (JsonFileStore.items st)).
    + destruct (JsonFileStore.flush _ _ _ _) as [[[]|] fs']; cbn [fst snd];
        unfold JsonFileStore.getById; cbn [JsonFileStore.items];
        (rewrite jsmap_remove_get_ne; [done | congruence]).
    + cbn [fst snd]. unfold JsonFileStore.getById. cbn [JsonFileStore.items].
      rewrite jsmap_remove_get_ne; [done | congruence].
  - cbn [Store.getById Store.delete relational_store state].
    destruct (pg_delete_table model i s) as [-> | [_ ->]]; [done|].
    apply pg_getById_filter.
    rewrite pg_filter_other_removed; [done | congruence].
  - cbn. unfold Mongo.delete, Mongo.getById, Mongo.buildLookup in *.
    destruct (Mongo.tryParseObjectId i) as [oid|] eqn:Ei; [|done].
    cbn [Mongo.deleteOne snd].
    destruct (Mongo.tryParseObjectId j) as [oid'|] eqn:Ej; [|done].
    unfold Mongo.findOne. cbn [Mongo.with_docs Mongo.docs].
    rewrite (mongo_find_other_removed oid oid'); [done | by intros ->].
Qed.

(** X7. A write never touches another record: after [create], [update] or
    [delete], whatever their outcome, [getById] answers as before for
    every id other than the one written. *)
Theorem writes_are_local (b : Backend) (s : state b) (i j : string)
    (P : JsValue) (o : Store.Oracle) :
  (lookup_key b j ≠ Some (next_id b o) →
     Store.getById (store_of b) j (after_create b P o s)
     = Store.getById (store_of b) j s)
  ∧ (lookup_key b j ≠ lookup_key b i →
     Store.getById (store_of b) j (after_update b i P o s)
     = Store.getById (store_of b) j s
     ∧ Store.getById (store_of b) j (after_delete b i o s)
       = Store.getById (store_of b) j s).
Proof.
  split; [apply create_frame|]. intros H. split; [by apply update_frame | by apply delete_frame].
Qed.


Lemma writes_are_local_witness :
  let i := "000000000000000000000008" in
  let o := Store.mkOracle 1793707260000 9 4242 1793707260001 in
  Store.getById (store_of (Document pair_model)) pair_id
    (after_create (Document pair_model) b3 o pairs)
  = Store.getById (store_of (Document pair_model)) pair_id pairs
  ∧ Store.getById (store_of (Document pair_model)) pair_id
      (after_update (Document pair_model) i b3 o pairs)
    = Store.getById (store_of (Document pair_model)) pair_id pairs
  ∧ Store.getById (store_of (Document pair_model)) pair_id
      (after_delete (Document pair_model) i o pairs)
    = Store.getById (store_of (Document pair_model)) pair_id pairs.
Proof.
  intros i o.
  destruct (writes_are_local (Document pair_model) pairs i pair_id b3 o)
    as [Hc Hud].
  split.
  - apply Hc. eapply bool_decide_eq_true_1. vm_compute. reflexivity.
  - apply Hud. eapply bool_decide_eq_true_1. vm_compute. reflexivity.
Defined.

(* ================================================================== *)
(** * Deleting a record *)
(* ================================================================== *)

Lemma getById_answers (b : Backend) (s : state b) i :
  sound b s → takes_id b i → ∃ x, Store.getById (store_of b) i s = Ok x.
Proof.
  destruct b as [| | model | model]; cbn [sound store_of takes_id].
  - intros _ _. by eexists.
  - intros _ _. by eexists.
  - intros _ Hi. cbn [Store.getById relational_store]. unfold Postgres.getById.
    rewrite pg_select by done.
    destruct (List.filter _ s); by eexists.
  - intros [[_ Hwf] _] _. cbn. unfold Mongo.getById.
    destruct (Mongo.buildLookup i) as [oid|]; [|by eexists].
    unfold Mongo.findOne.
    destruct (List.find _ _) as [d|] eqn:E; [|by eexists].
    apply mongo_find_some in E as [Hin Hid].
    rewrite doc_item_ok by by rewrite Hid. by eexists.
Qed.

Lemma filter_fmap_on {A B} (f : A → B) (p : B → bool) (q : A → bool) (l : list A) :
  (∀ x, x ∈ l → p (f x) = q x) →
  List.filter p (f <$> l) = f <$> List.filter q l.
Proof.
  induction l as [|x l IH]; csimpl; [done|]. intros H.
  rewrite (H x) by by left. rewrite IH by (intros y ?; apply H; by right).
  by destruct (q x).
Qed.

Lemma NoDup_fmap_eq {A B} (f : A → B) (l : list A) x y :
  NoDup (f <$> l) → x ∈ l → y ∈ l → f x = f y → x = y.
Proof.
  induction l as [|z l IH]; csimpl; [intros _ H; by apply elem_of_nil in H|].
  rewrite NoDup_cons. intros [Hz Hnd]. rewrite !elem_of_cons.
  intros [-> | Hx] [-> | Hy] Heq; [done | | | by apply IH].
  - exfalso. apply Hz. rewrite Heq. apply list_elem_of_fmap. by exists y.
  - exfalso. apply Hz. rewrite <- Heq. apply list_elem_of_fmap. by exists x.
Qed.

Lemma mongo_remove_first_filter oid ds :
  NoDup ((fun d => default "" (Mongo._id d)) <$> ds) →
  (∀ d, d ∈ ds → is_Some (Mongo._id d)) →
  Mongo.remove_first oid ds = List.filter (fun d => negb (Mongo.has_id oid d)) ds.
Proof.
  induction ds as [|d ds IH]; csimpl; [done|].
  rewrite NoDup_cons. intros [Hnot Hnd] Hsome.
  destruct (Mongo.has_id oid d) eqn:E; csimpl.
  - apply mongo_has_id_true in E. symmetry. apply filter_all.
    apply Forall_forall. intros d' Hd'. apply negb_true_iff.
    destruct (Mongo.has_id oid d') eqn:E'; [|done].
    apply mongo_has_id_true in E'. exfalso. apply Hnot.
    apply list_elem_of_fmap. exists d'. by rewrite E, E'.
  - rewrite IH; [done | done |]. intros d' ?. apply Hsome. by right.
Qed.

Lemma file_items_after_delete st fs i o :
  JsonFileStore.items (fst (after_delete File i o (st, fs)))
  = JsMap.remove i (JsonFileStore.items st).
Proof.
  unfold after_delete. cbn -[JsonFileStore.delete]. unfold JsonFileStore.delete.
  destruct (JsMap.has i (JsonFileStore.items st)); [|done].
  by destruct (JsonFileStore.flush _ _ _ _) as [[[]|] fs'].
Qed.

(** The records a store holds once [delete] is through with an id. *)
Lemma stored_after_delete (b : Backend) (s : state b) i o key :
  sound b s → takes_id b i → lookup_key b i = Some key →
  stored_records b (after_delete b i o s)
  = List.filter (fun x => negb (String.eqb key (item_id x))) (stored_records b s).
Proof.
  destruct b as [| | model | model];
    cbn [sound lookup_key stored_records takes_id]; intros Hsound Hi;
    revert Hsound; [| | unfold after_delete ..].
  - intros H [= <-]. cbn. unfold JsMap.values, JsMap.remove.
    rewrite (filter_fmap_on snd _ (fun kv => negb (String.eqb i (fst kv)))); [done|].
    intros [k x] Hin. cbn. by rewrite (indexed_item_id s k x H Hin).
  - intros H [= <-]. destruct s as [st fs]. cbn [fst] in H.
    rewrite file_items_after_delete.
    cbn [fst]. unfold JsMap.values, JsMap.remove.
    rewrite (filter_fmap_on snd _ (fun kv => negb (String.eqb i (fst kv)))); [done|].
    intros [k x] Hin. cbn. by rewrite (indexed_item_id _ k x H Hin).
  - intros [[Hnd Hplain] _] [= <-]. cbn [Store.delete store_of relational_store].
    unfold Postgres.delete. rewrite pg_delete_by_id by done. cbn [snd].
    rewrite (filter_fmap_on Postgres.rowToCrudItem _
               (fun row => negb (Postgres.has_id i row))); [done|].
    intros row Hin. rewrite row_item_id by by apply Hplain.
    unfold Postgres.has_id. by rewrite String.eqb_sym.
  - intros [[Hnd Hwf] _] Hkey. cbn. unfold Mongo.delete, Mongo.buildLookup.
    rewrite Hkey. cbn [Mongo.deleteOne snd Mongo.with_docs Mongo.docs].
    rewrite mongo_remove_first_filter; [|done|intros d ?; by apply Hwf].
    rewrite (filter_fmap_on doc_item _ (fun d => negb (Mongo.has_id key d))); [done|].
    intros d Hin. destruct (Hwf d Hin) as [[oid Hid] Hpl].
    rewrite doc_item_id by done. unfold Mongo.has_id. rewrite Hid. cbn.
    by rewrite String.eqb_sym.
Qed.

Lemma delete_existing (b : Backend) (s : state b) i o r :
  sound b s → can_write b o s →
  Store.getById (store_of b) i s = Ok (Some r) →
  Store.delete (store_of b) i o s = (Ok true, after_delete b i o s).
Proof.
  unfold after_delete.
  destruct b as [| | model | model]; cbn [sound can_write store_of].
  - intros _ _. cbn. unfold MemoryStore.getById, MemoryStore.delete, JsMap.has.
    by intros [= ->].
  - destruct s as [st fs]. intros _ Hw. cbn -[JsonFileStore.delete].
    unfold JsonFileStore.getById. intros [= Hget].
    unfold JsonFileStore.delete, JsMap.has. rewrite Hget.
    edestruct (flush_writable
                (JsonFileStore.mkStore (JsonFileStore.filePath st)
                   (JsMap.remove i (JsonFileStore.items st))) o fs Hw) as [fs' ->].
    done.
  - intros _ _. cbn [Store.getById Store.delete relational_store]. intros Hget.
    pose proof (relational_getById_text _ _ _ _ Hget) as Hi. revert Hget.
    unfold Postgres.getById, Postgres.delete.
    rewrite pg_select, pg_delete_by_id by done.
    destruct (List.filter (Postgres.has_id i) s); cbn; [done|]. done.
  - intros [[_ Hwf] _] _. cbn. unfold Mongo.getById, Mongo.delete, Mongo.buildLookup.
    destruct (Mongo.tryParseObjectId i) as [oid|]; cbn; [|done].
    unfold Mongo.findOne.
    destruct (List.find _ _) as [d|] eqn:E; cbn; [|done]. intros _.
    apply List.find_some in E as [Hin Hid].
    assert (existsb (Mongo.has_id oid) (Mongo.docs s) = true) as ->; [|done].
    apply existsb_exists. by exists d.
Qed.

Lemma deleted_gone (b : Backend) (s : state b) i o r :
  sound b s →
  Store.getById (store_of b) i s = Ok (Some r) →
  Store.getById (store_of b) i (after_delete b i o s) = Ok None.
Proof.
  intros Hs Hget.
  destruct (sound_kept b s i JNull o Hs) as (_ & _ & Hs').
  pose proof (getById_takes_id b s i _ Hget) as Hi.
  pose proof (proj1 (getById_stored b s i r Hs) Hget) as [Hr Hkey].
  pose proof (stored_after_delete b s i o _ Hs Hi Hkey) as Hleft.
  destruct (getById_answers b _ i Hs' Hi) as [[x|] Hx]; [|done].
  apply (getById_stored b _ i x Hs') in Hx as [Hin Hkey'].
  rewrite Hleft in Hin. apply list_elem_of_In, List.filter_In in Hin as [_ Hne].
  rewrite Hkey in Hkey'. injection Hkey' as Heq.
  by rewrite Heq, String.eqb_refl in Hne.
Qed.

(** X8. Deleting a stored record returns [true] and removes it and nothing
    else: [getById] of its id is absent afterwards, and [getAll] returns
    the records it returned before, without the deleted one. *)
Theorem delete_removes_record (b : Backend) (s : state b) (i : string)
    (o : Store.Oracle) (r : CrudItem) :
  sound b s → can_write b o s →
  Store.getById (store_of b) i s = Ok (Some r) →
  Store.delete (store_of b) i o s = (Ok true, after_delete b i o s)
  ∧ Store.getById (store_of b) i (after_delete b i o s) = Ok None
  ∧ ∃ items items',
      Store.getAll (store_of b) s = Ok items
      ∧ Store.getAll (store_of b) (after_delete b i o s) = Ok items'
      ∧ ∀ x, x ∈ items' ↔ x ∈ items ∧ x ≠ r.
Proof.
  intros Hs Hw Hget.
  destruct (sound_kept b s i JNull o Hs) as (_ & _ & Hs').
  pose proof (getById_takes_id b s i _ Hget) as Hi.
  pose proof (proj1 (getById_stored b s i r Hs) Hget) as [Hr Hkey].
  pose proof (stored_after_delete b s i o _ Hs Hi Hkey) as Hleft.
  split; [by eapply delete_existing|]. split; [by eapply deleted_gone|].
  destruct (getAll_stored b s Hs) as (items & Hall & Hperm).
  destruct (getAll_stored b _ Hs') as (items' & Hall' & Hperm').
  exists items, items'. split; [done|]. split; [done|].
  intros x. rewrite Hperm', Hperm, Hleft.
  rewrite list_elem_of_In, List.filter_In, <- list_elem_of_In.
  rewrite negb_true_iff, String.eqb_neq. split.
  - intros [Hin Hne]. split; [done|]. by intros ->.
  - intros [Hin Hne]. split; [done|]. intros Heq. apply Hne.
    eapply (NoDup_fmap_eq item_id (stored_records b s)); try done.
    rewrite stored_item_ids by done. by apply stored_ids_NoDup.
Qed.

Lemma delete_removes_record_witness :
  Store.delete (store_of (Document pair_model)) pair_id at_noon pairs
  = (Ok true, after_delete (Document pair_model) pair_id at_noon pairs)
  ∧ Store.getById (store_of (Document pair_model)) pair_id
      (after_delete (Document pair_model) pair_id at_noon pairs) = Ok None.
Proof.
  assert (sound (Document pair_model) pairs) as Hs.
  { split; [exact pairs_well_formed|]. intros d oid Hd Hid.
    apply list_elem_of_singleton in Hd as ->. injection Hid as <-.
    vm_compute. reflexivity. }
  destruct (delete_removes_record (Document pair_model) pairs pair_id at_noon
              pair_item Hs I) as (H1 & H2 & _).
  - vm_compute. reflexivity.
  - split; [exact H1 | exact H2].
Defined.

(* ================================================================== *)
(** * The routes *)
(* ================================================================== *)

Lemma trimEnd_spaceless s : spaceless s → JsString.trimEnd s = s.
Proof.
  unfold spaceless. induction s as [|c s IH]; cbn; [done|].
  rewrite Forall_cons. intros [Hc Hs]. rewrite IH by done.
  destruct s; [by rewrite Hc | done].
Qed.

Lemma trim_spaceless s : spaceless s → JsString.trim s = s.
Proof.
  intros H. unfold JsString.trim.
  assert (JsString.trimStart s = s) as ->; [|by apply trimEnd_spaceless].
  destruct s as [|c s]; [done|]. cbn.
  unfold spaceless in H. cbn in H. apply Forall_cons in H as [-> _]. done.
Qed.








Lemma filter_nil_neg {A} (p : A → bool) (l : list A) :
  List.filter p l = [] → List.filter (fun x => negb (p x)) l = l.
Proof.
  induction l as [|x l IH]; cbn; [done|].
  destruct (p x); cbn; [done|]. intros H. by rewrite IH.
Qed.

Lemma filter_nil_map {A} (p : A → bool) (f : A → A) (l : list A) :
  List.filter p l = [] → (fun x => if p x then f x else x) <$> l = l.
Proof.
  induction l as [|x l IH]; csimpl; [done|].
  destruct (p x); [done|]. intros H. by rewrite IH.
Qed.

Lemma length_zero_nil {A} (l : list A) : (0 <? List.length l)%nat = false → l = [].
Proof. by destruct l. Qed.

(** [delete] answering [false] has changed nothing. *)
Lemma delete_false_unchanged (b : Backend) (s : state b) i o s' :
  Store.delete (store_of b) i o s = (Ok false, s') → s' = s.
Proof.
  destruct b as [| | model | model]; cbn [store_of].
  - cbn. unfold JsMap.has. destruct (JsMap.get i s) eqn:E; [done|].
    intros [= <-]. by apply jsmap_remove_absent.
  - destruct s as [st fs]. cbn -[JsonFileStore.delete].
    unfold JsonFileStore.delete, JsMap.has.
    destruct (JsMap.get i (JsonFileStore.items st)) eqn:E.
    + by destruct (JsonFileStore.flush _ _ _ _) as [[[]|] fs'].
    + cbn. intros [= <-]. by rewrite jsmap_remove_absent, file_store_eta.
  - cbn [Store.delete relational_store].
    unfold Postgres.delete, Postgres.delete_by_id, Postgres.bind_text.
    destruct (has_nul i); cbn; [done|].
    intros [= Hlen <-]. apply length_zero_nil in Hlen.
    by apply filter_nil_neg.
  - cbn. unfold Mongo.delete.
    destruct (Mongo.buildLookup i) as [oid|]; [|by intros [= <-]].
    cbn [Mongo.deleteOne]. intros [= Hex <-].
    by rewrite mongo_remove_first_absent, mongo_with_docs_same.
Qed.

(** [update] answering absent has changed nothing. *)
Lemma update_absent_unchanged (b : Backend) (s : state b) i P o s' :
  unwraps_safely b s →
  Store.update (store_of b) i P o s = (Ok None, s') → s' = s.
Proof.
  destruct b as [| | model | model]; cbn [store_of unwraps_safely].
  - intros _. cbn -[MemoryStore.update]. rewrite memory_update_eq.
    destruct (JsMap.get i s); [done|]. by intros [= <-].
  - intros _. destruct s as [st fs]. cbn -[JsonFileStore.update].
    unfold JsonFileStore.update.
    destruct (JsMap.get i (JsonFileStore.items st)).
    + by destruct (JsonFileStore.flush _ _ _ _) as [[[]|] fs'].
    + cbn. by intros [= <-].
  - intros _. cbn [Store.update relational_store].
    unfold Postgres.update, Postgres.update_merge, Postgres.bind_text.
    destruct (has_nul i); cbn; [done|].
    destruct (Postgres.bind_jsonb _) as [[]|m]; cbn; [|done].
    destruct (List.filter (Postgres.has_id i) s) eqn:E; cbn; [|done].
    intros [= <-]. by apply filter_nil_map.
  - intros Hsafe. cbn. unfold Mongo.update.
    destruct (Mongo.buildLookup i) as [oid|]; [|by intros [= <-]].
    pose proof (apply_update_lookup model P o) as Hlook. unfold update_spec in Hlook.
    destruct (Mongo.splitStructuredPatch (schema model) P) as [set unset].
    unfold Mongo.findOneAndUpdate.
    destruct (negb (Mongo.serializable _)); [done|].
    destruct (Mongo.findOne oid s) as [old|] eqn:Ef.
    2:{ unfold Mongo.driver_result. destruct (Mongo.wraps_result s); cbn;
        by intros [= <-]. }
    destruct (Mongo.admits s old && negb _); [done|].
    unfold Mongo.driver_result.
    apply mongo_find_some in Ef as [Hin Hid].
    destruct (Mongo.wraps_result s) eqn:Ew.
    + cbn [Mongo.unwrapFindOneAndUpdateResult].
      rewrite doc_item_ok; [done|].
      unfold Mongo.apply_update. cbn [Mongo._id]. by rewrite Hid.
    + destruct Hsafe as [? | [Hkey Hdocs]]; [done|].
      cbn [Mongo.unwrapFindOneAndUpdateResult].
      rewrite (Hlook old "value"), decide_False by done.
      rewrite (Hdocs old Hin).
      rewrite doc_item_ok; [done|].
      unfold Mongo.apply_update. cbn [Mongo._id]. by rewrite Hid.
Qed.

(** X9. A request that is turned down, with 400 or with 404, has left the
    store as it was. *)
Theorem rejected_request_leaves_store (b : Backend) (model : ModelDefinition)
    (route : Router.Route) (req : Router.Request) (o : Store.Oracle)
    (s s' : state b) (resp : Router.Response) :
  unwraps_safely b s →
  Router.handle model (store_of b) route req o s = (Ok resp, s') →
  rejected resp →
  s' = s.
Proof.
  intros Hsafe Hh Hrej. unfold rejected in Hrej.
  destruct route; cbn [Router.handle] in Hh.
  - unfold Router.get_all in Hh.
    destruct (Store.getAll (store_of b) s); by injection Hh as _ <-.
  - unfold Router.get_by_id in Hh.
    destruct (Router.extractIdFromRequest req); [|by injection Hh as _ <-].
    destruct (Store.getById (store_of b) _ s) as [[?|]|]; by injection Hh as _ <-.
  - unfold Router.post in Hh. cbv zeta in Hh.
    destruct (0 <? _)%nat; [by injection Hh as _ <-|].
    destruct (Store.create (store_of b) _ o s) as [[newItem|m] s1]; [|done].
    injection Hh as <- <-. cbn in Hrej. by destruct Hrej.
  - unfold Router.put in Hh. cbv zeta in Hh.
    destruct (Router.extractIdFromRequest req) as [id|]; [|by injection Hh as _ <-].
    destruct (0 <? _)%nat; [by injection Hh as _ <-|].
    destruct (Store.update (store_of b) id _ o s) as [[[item|]|m] s1] eqn:E; [| |done].
    + injection Hh as <- <-. cbn in Hrej. by destruct Hrej.
    + injection Hh as _ <-. by eapply update_absent_unchanged.
  - unfold Router.delete in Hh.
    destruct (Router.extractIdFromRequest req) as [id|]; [|by injection Hh as _ <-].
    destruct (Store.delete (store_of b) id o s) as [[[]|m] s1] eqn:E; [| |done].
    + injection Hh as <- <-. cbn in Hrej. by destruct Hrej.
    + injection Hh as _ <-. by eapply delete_false_unchanged.
Qed.

Lemma pairs_unwrap_safely : unwraps_safely (Document pair_model) pairs.
Proof.
  right. split.
  - intros H. apply list_elem_of_In in H. cbn in H.
    destruct H as [H | [H | []]]; discriminate H.
  - intros d Hd. apply list_elem_of_singleton in Hd as ->. reflexivity.
Qed.

Lemma rejected_request_leaves_store_witness :
  let req := request_for "000000000000000000000008" b3 in
  snd (Router.handle pair_model (store_of (Document pair_model)) Router.Put req
         at_noon pairs) = pairs.
Proof.
  intros req.
  assert (fst (Router.handle pair_model (store_of (Document pair_model)) Router.Put
                 req at_noon pairs) = Ok Router.notFound) as Hfst
    by (vm_compute; reflexivity).
  apply (rejected_request_leaves_store (Document pair_model) pair_model Router.Put
           req at_noon pairs _ Router.notFound).
  - exact pairs_unwrap_safely.
  - destruct (Router.handle _ _ _ _ _ _) as [resp s']. cbn [fst snd] in *.
    by rewrite Hfst.
  - right. reflexivity.
Defined.




Lemma trimEnd_idempotent s : JsString.trimEnd (JsString.trimEnd s) = JsString.trimEnd s.
Proof.
  induction s as [|c s IH]; cbn; [done|].
  destruct (JsString.trimEnd s) as [|c' kept] eqn:E.
  - destruct (JsString.is_space c) eqn:Ec; cbn; [done|]. by rewrite Ec.
  - cbn. cbn in IH. by rewrite IH.
Qed.

Lemma trimStart_head s :
  match JsString.trimStart s with
  | EmptyString => True
  | String c _ => JsString.is_space c = false
  end.
Proof.
  induction s as [|c s IH]; cbn; [done|].
  destruct (JsString.is_space c) eqn:E; [done|]. done.
Qed.

Lemma trimEnd_head c s :
  JsString.is_space c = false →
  ∃ kept, JsString.trimEnd (String c s) = String c kept.
Proof.
  intros Hc. cbn. destruct (JsString.trimEnd s); [|by eexists].
  rewrite Hc. by eexists.
Qed.

Lemma trim_idempotent s : JsString.trim (JsString.trim s) = JsString.trim s.
Proof.
  unfold JsString.trim. pose proof (trimStart_head s) as H.
  destruct (JsString.trimStart s) as [|c t]; [done|].
  destruct (trimEnd_head c t H) as [kept Hk]. rewrite Hk.
  cbn [JsString.trimStart]. rewrite H. rewrite <- Hk. apply trimEnd_idempotent.
Qed.

(** X11. White space around the id of a request is ignored: a route answers
    the request as it answers the one with the trimmed id, and an id
    that is blank is turned down with 400 before the store is asked. *)
Theorem request_id_is_trimmed {S : Type} (model : ModelDefinition)
    (store : Store.CrudStore S) (route : Router.Route) (raw : string)
    (body : JsValue) (o : Store.Oracle) (s : S) :
  Router.handle model store route (request_for raw body) o s
  = Router.handle model store route (request_for (JsString.trim raw) body) o s
  ∧ (JsString.trim raw = "" → route ≠ Router.GetAll → route ≠ Router.Post →
     Router.handle model store route (request_for raw body) o s
     = (Ok Router.handleInvalidId, s)).
Proof.
  assert (Router.extractIdFromRequest (request_for raw body)
          = Router.extractIdFromRequest (request_for (JsString.trim raw) body)) as Hid.
  { cbn. unfold Router.parseId. cbv zeta. by rewrite trim_idempotent. }
  split.
  - destruct route; cbn [Router.handle]; try done.
    + unfold Router.get_by_id. by rewrite Hid.
    + unfold Router.put. by rewrite Hid.
    + unfold Router.delete. by rewrite Hid.
  - intros Hblank Hr1 Hr2.
    assert (Router.extractIdFromRequest (request_for raw body) = None) as Hnone.
    { cbn. unfold Router.parseId. cbv zeta. by rewrite Hblank. }
    destruct route; cbn [Router.handle]; try done.
    + unfold Router.get_by_id. by rewrite Hnone.
    + unfold Router.put. by rewrite Hnone.
    + unfold Router.delete. by rewrite Hnone.
Qed.

Lemma request_id_is_trimmed_witness :
  Router.handle pair_model (store_of (Document pair_model)) Router.Delete
    (request_for "   " JUndefined) at_noon pairs
  = (Ok Router.handleInvalidId, pairs).
Proof.
  apply (request_id_is_trimmed pair_model (store_of (Document pair_model))
           Router.Delete "   " JUndefined at_noon pairs); [reflexivity | done | done].
Defined.

(* ================================================================== *)
(** * Names derived from a model *)
(* ================================================================== *)

Ltac each_ascii c :=
  destruct c as [[] [] [] [] [] [] [] []]; vm_compute; reflexivity.

Lemma keep_ident_lower c :
  Postgres.keep_ident (Mongo.to_lower c) = Mongo.keep_lower_ident (Mongo.to_lower c).
Proof. each_ascii c. Qed.

Lemma keep_ident_is_ident c : Postgres.is_ident_char (Postgres.keep_ident c) = true.
Proof. each_ascii c. Qed.

Lemma keep_ident_start c :
  Postgres.is_ident_start (Postgres.keep_ident (Mongo.to_lower c)) = negb (is_digit c).
Proof. each_ascii c. Qed.

Lemma keep_ident_plain c :
  Postgres.is_ident_char c = true →
  Postgres.keep_ident (Mongo.to_lower c) = Mongo.to_lower c.
Proof. destruct c as [[] [] [] [] [] [] [] []]; vm_compute; done. Qed.

Lemma map_chars_app f a b :
  Mongo.map_chars f (a ++ b) = Mongo.map_chars f a ++ Mongo.map_chars f b.
Proof.
  induction a as [|c a IH]; [done|].
  change (String c a ++ b) with (String c (a ++ b)). cbn [Mongo.map_chars].
  by rewrite IH.
Qed.

Lemma map_chars_ext_lower (f g : ascii → ascii) s :
  (∀ c, f (Mongo.to_lower c) = g (Mongo.to_lower c)) →
  Mongo.map_chars f (Mongo.map_chars Mongo.to_lower s)
  = Mongo.map_chars g (Mongo.map_chars Mongo.to_lower s).
Proof. intros H. induction s as [|c s IH]; cbn; [done|]. by rewrite H, IH. Qed.

Lemma table_name_unfold model :
  Postgres.modelToTableName model
  = Mongo.map_chars Postgres.keep_ident (Mongo.map_chars Mongo.to_lower (name model)) ++ "s".
Proof. unfold Postgres.modelToTableName. cbv zeta. by rewrite map_chars_app. Qed.

Lemma table_name_is_collection_name model :
  Postgres.modelToTableName model = Mongo.modelToCollectionName model.
Proof.
  rewrite table_name_unfold. unfold Mongo.modelToCollectionName. cbv zeta.
  rewrite map_chars_app. f_equal.
  apply map_chars_ext_lower, keep_ident_lower.
Qed.

Lemma all_chars_app p a b :
  Postgres.all_chars p (a ++ b) = Postgres.all_chars p a && Postgres.all_chars p b.
Proof.
  induction a as [|c a IH]; [done|].
  change (String c a ++ b) with (String c (a ++ b)). cbn [Postgres.all_chars].
  by rewrite IH, andb_assoc.
Qed.

Lemma all_chars_keep_ident s :
  Postgres.all_chars Postgres.is_ident_char (Mongo.map_chars Postgres.keep_ident s) = true.
Proof. induction s as [|c s IH]; cbn; [done|]. by rewrite keep_ident_is_ident, IH. Qed.

Lemma table_name_plain model : plain_name (Postgres.modelToTableName model).
Proof.
  unfold plain_name, Postgres.modelToTableName. cbv zeta. apply all_chars_keep_ident.
Qed.

Lemma table_name_simple model :
  simple_identifier (Postgres.modelToTableName model)
  = negb (starts_with_digit (name model)).
Proof.
  rewrite table_name_unfold. destruct (name model) as [|c n]; [done|].
  cbn [Mongo.map_chars starts_with_digit].
  match goal with
  | |- context [String ?x ?a ++ ?b] =>
      change (String x a ++ b) with (String x (a ++ b))
  end.
  cbn [simple_identifier].
  by rewrite keep_ident_start, all_chars_app, all_chars_keep_ident, andb_true_r.
Qed.

Lemma safeIdentifier_simple s :
  Postgres.safeIdentifier s
  = if simple_identifier s then Ok (quoted s)
    else Err ("Invalid SQL identifier: " ++ s ++
              ". Use letters, numbers, and underscores only (must not start with a number).").
Proof. destruct s as [|c s]; [done|]. cbn. by destruct (_ && _). Qed.

(** X12. The names an adapter derives from a model agree: the table of the
    relational adapter and the collection of the document adapter have
    the same name, made of lower-case letters, digits and underscores,
    and for a model name of letters, digits and underscores that name is
    the base path of the model's routes without its slash. *)
Theorem model_names_agree (model : ModelDefinition) :
  Postgres.modelToTableName model = Mongo.modelToCollectionName model
  ∧ plain_name (Postgres.modelToTableName model)
  ∧ (plain_name (name model) →
     Router.getCrudBasePath (name model) = "/" ++ Postgres.modelToTableName model).
Proof.
  split; [apply table_name_is_collection_name|]. split; [apply table_name_plain|].
  unfold plain_name, Router.getCrudBasePath. rewrite table_name_unfold.
  intros H.
  assert (Mongo.map_chars Postgres.keep_ident (Mongo.map_chars Mongo.to_lower (name model))
          = Mongo.map_chars Mongo.to_lower (name model)) as ->; [|done].
  induction (name model) as [|c n IH]; [done|].
  cbn [Postgres.all_chars Mongo.map_chars] in *.
  apply andb_true_iff in H as [Hc Hn].
  by rewrite keep_ident_plain, IH.
Qed.

Lemma model_names_agree_witness :
  Router.getCrudBasePath (name todo) = "/" ++ Postgres.modelToTableName todo.
Proof.
  apply (model_names_agree todo). reflexivity.
Defined.

(** X13. [getCrudStore] of the relational adapter hands out a store exactly
    when the configured schema is a simple identifier and the model's
    name does not start with a digit; otherwise it throws before any
    statement is sent. The name its statements use is the schema and the
    table, each in double quotes and each free of quotes itself. *)
Theorem table_identifier_is_safe (cfg : Factory.PostgresDbConfig)
    (model : ModelDefinition) :
  (simple_identifier (PostgresAdapter.schema_of cfg) = true →
   starts_with_digit (name model) = false →
   PostgresAdapter.storeForModel cfg model
   = Ok (quoted (PostgresAdapter.schema_of cfg) ++ "."
         ++ quoted (Postgres.modelToTableName model))
   ∧ plain_name (PostgresAdapter.schema_of cfg)
   ∧ plain_name (Postgres.modelToTableName model))
  ∧ (simple_identifier (PostgresAdapter.schema_of cfg) = false
     ∨ starts_with_digit (name model) = true →
     ∃ m, PostgresAdapter.storeForModel cfg model = Err m).
Proof.
  unfold PostgresAdapter.storeForModel. cbv zeta.
  rewrite !safeIdentifier_simple, table_name_simple. split.
  - intros Hs Hd. rewrite Hs, Hd. cbn [negb]. split; [done|].
    split; [|apply table_name_plain].
    unfold plain_name. destruct (PostgresAdapter.schema_of cfg) as [|c s]; [done|].
    cbn [simple_identifier Postgres.all_chars] in *.
    apply andb_true_iff in Hs as [Hc ->].
    unfold Postgres.is_ident_char. by rewrite Hc.
  - intros [Hs | Hd].
    + rewrite Hs. by eexists.
    + rewrite Hd. cbn [negb]. destruct (simple_identifier _); by eexists.
Qed.

Lemma table_identifier_is_safe_witness :
  PostgresAdapter.storeForModel local_pg todo
  = Ok (quoted "public" ++ "." ++ quoted "todos")
  ∧ ∃ m, PostgresAdapter.storeForModel local_pg (mkModel "3d" []) = Err m.
Proof.
  split.
  - apply (table_identifier_is_safe local_pg todo); reflexivity.
  - apply (table_identifier_is_safe local_pg (mkModel "3d" [])). right. reflexivity.
Defined.

(* ================================================================== *)
(** * What the factory hands to an adapter *)
(* ================================================================== *)

Lemma falsy_false_value (s : option string) :
  Factory.falsy s = false → ∃ v, s = Some v ∧ v ≠ "".
Proof.
  destruct s as [v|]; cbn; [|done]. intros H. exists v. split; [done|].
  by apply String.eqb_neq.
Qed.

(** X14. An adapter the factory has constructed was given what the
    configuration and the environment settle on, the configuration
    first: the relational and document adapters never get an empty
    connection string or database name, and the file adapter gets the
    configured directory or [.railnode/db]. *)
Theorem constructed_adapter_is_configured (root : string)
    (cfg : option Factory.DbConfig) (env : gmap string string)
    (a : Factory.DbAdapter) :
  Factory.createDbAdapter root cfg env = Ok a → configured_as root cfg env a.
Proof.
  unfold Factory.createDbAdapter. cbv zeta.
  destruct (Factory.strict_eq _ "memory"); [by intros [= <-]|].
  destruct (Factory.strict_eq _ "json"); [by intros [= <-]|].
  destruct (Factory.strict_eq _ "postgres").
  { destruct (Factory.falsy _) eqn:E; [done|]. intros [= <-].
    apply falsy_false_value in E as (v & E & Hv).
    unfold configured_as, resolved. cbn [Factory.pgc_connectionString Factory.pgc_schema].
    assert ((cfg ≫= fun c => config_value c PostgresConnection)
            = (cfg ≫= Factory.postgres) ≫= Factory.pg_connectionString) as ->
      by by destruct cfg.
    cbn [env_var]. rewrite E. by cbn. }
  destruct (Factory.strict_eq _ "mongodb"); [|by intros [= <-]].
  destruct (Factory.falsy _) eqn:E1; [done|].
  destruct (Factory.falsy (Factory.coalesce _ (env !! "MONGODB_DB"))) eqn:E2; [done|].
  intros [= <-].
  apply falsy_false_value in E1 as (v1 & E1 & Hv1).
  apply falsy_false_value in E2 as (v2 & E2 & Hv2).
  unfold configured_as, resolved.
  cbn [Factory.mgc_connectionString Factory.mgc_dbName Factory.mgc_collectionPrefix].
  assert ((cfg ≫= fun c => config_value c MongoConnection)
          = (cfg ≫= Factory.mongodb) ≫= Factory.mg_connectionString) as ->
    by by destruct cfg.
  assert ((cfg ≫= fun c => config_value c MongoDatabase)
          = (cfg ≫= Factory.mongodb) ≫= Factory.mg_dbName) as ->
    by by destruct cfg.
  cbn [env_var]. rewrite E1, E2. by cbn.
Qed.

Lemma constructed_adapter_is_configured_witness :
  let env : gmap string string := {[ "DATABASE_URL" := "postgres://db/app" ]} in
  let cfg := Factory.mkConfig (JStr "postgres") None None None in
  configured_as "/srv/app" (Some cfg) env
    (Factory.PostgresDbAdapter (Factory.mkPgCfg "postgres://db/app" None)).
Proof.
  intros env cfg.
  apply (constructed_adapter_is_configured "/srv/app" (Some cfg) env).
  vm_compute. reflexivity.
Defined.

(** X15. A setting given in the configuration makes its environment variable
    irrelevant, also when it is given as the empty string: the factory
    then reports the setting as missing whatever the environment
    holds. *)
Theorem configured_setting_masks_environment (root : string)
    (cfg : Factory.DbConfig) (env : gmap string string) (m : Setting)
    (v x : string) :
  config_value cfg m = Some v →
  Factory.createDbAdapter root (Some cfg) (<[env_var m := x]> env)
  = Factory.createDbAdapter root (Some cfg) env
  ∧ (v = "" → Factory.adapter cfg = JStr (setting_adapter m) →
     earlier_settings_resolved cfg env m →
     ∃ msg, Factory.createDbAdapter root (Some cfg) (<[env_var m := x]> env)
            = Err msg).
Proof.
  intros Hv.
  assert (Factory.createDbAdapter root (Some cfg) (<[env_var m := x]> env)
          = Factory.createDbAdapter root (Some cfg) env) as Heq.
  { unfold Factory.createDbAdapter. cbv zeta. cbn [fmap option_fmap option_map mbind option_bind].
    destruct m; cbn [config_value env_var] in *.
    - rewrite Hv. cbn [Factory.coalesce].
      by rewrite !(lookup_insert_ne env "DATABASE_URL") by done.
    - rewrite Hv. cbn [Factory.coalesce].
      by rewrite !(lookup_insert_ne env "MONGODB_URI") by done.
    - rewrite Hv. cbn [Factory.coalesce].
      by rewrite !(lookup_insert_ne env "MONGODB_DB") by done. }
  split; [done|]. intros -> Hkind Hearlier. rewrite Heq.
  unfold Factory.createDbAdapter. cbv zeta.
  cbn [fmap option_fmap option_map mbind option_bind]. rewrite Hkind.
  destruct m; cbn [config_value env_var setting_adapter earlier_settings_resolved] in *.
  - cbn. rewrite Hv. cbn. by eexists.
  - cbn. rewrite Hv. cbn. by eexists.
  - cbn -[Factory.falsy Factory.coalesce]. rewrite Hearlier, Hv. cbn. by eexists.
Qed.

Lemma configured_setting_masks_environment_witness :
  ∃ msg,
    Factory.createDbAdapter "/srv/app" (Some blank_pg_config)
      (<["DATABASE_URL" := "postgres://db/app"]> ∅)
    = Err msg.
Proof.
  apply (configured_setting_masks_environment "/srv/app" blank_pg_config ∅
           PostgresConnection "" "postgres://db/app"); reflexivity || exact I.
Defined.

(* ================================================================== *)
(** * Persistence of the file store *)
(* ================================================================== *)

Lemma as_json_obj item : Json.normalize (JObj item) = JObj (as_json item).
Proof. by rewrite normalize_obj. Qed.

Lemma stringify_index index :
  Json.stringify (JsonFileStore.persisted_data index)
  = Json.Parseable
      (JObj {[ "items" := JArr ((fun item => JObj (as_json item)) <$> JsMap.values index) ]}).
Proof.
  unfold Json.stringify, JsonFileStore.persisted_data. f_equal.
  rewrite normalize_obj. f_equal.
  rewrite map_fmap_singleton.
  rewrite map_filter_singleton_True by done.
  assert (Json.normalize (JArr (JObj <$> JsMap.values index))
          = JArr ((fun item => JObj (as_json item)) <$> JsMap.values index)) as ->;
    [|done].
  cbn [Json.normalize]. f_equal.
  induction (JsMap.values index) as [|item l IH]; [done|].
  cbn [fmap list_fmap List.map Json.is_undefined] in *.
  by rewrite IH.
Qed.

Lemma as_json_header item k : has_header item k → has_header (as_json item) k.
Proof.
  intros (H1 & [c H2] & [u H3]). unfold has_header, as_json.
  rewrite !to_jsonb_lookup, H1, H2, H3. cbn. eauto.
Qed.

Lemma header_isCrudItem item k :
  has_header item k → JsonFileStore.isCrudItem (JObj item) = true.
Proof.
  intros (H1 & [c H2] & [u H3]).
  unfold JsonFileStore.isCrudItem, js_get. cbn [JsonFileStore.isRecord truthy
    typeof_object andb negb own_props].
  by rewrite H1, H2, H3.
Qed.

Lemma index_entries_as_json index :
  indexed index →
  index_entry <$> ((fun item => JObj (as_json item)) <$> JsMap.values index)
  = (fun kv => (fst kv, as_json (snd kv))) <$> index.
Proof.
  intros [_ Hh]. unfold JsMap.values. rewrite <- !list_fmap_compose.
  apply list_fmap_ext. intros n [k item] Hn. cbn [fst snd compose].
  unfold index_entry. cbn [own_props].
  apply list_elem_of_lookup_2 in Hn.
  pose proof (as_json_header _ _ (Hh k item Hn)) as (H1 & _).
  unfold item_id. by rewrite H1.
Qed.

(** What a process finds when it opens a file the store has flushed. *)
Lemma reopen_after_flush st o fs clk :
  indexed (JsonFileStore.items st) →
  writable (JsonFileStore.filePath st) o fs →
  ∃ fs',
    JsonFileStore.flush st (Store.pid o) (Store.wclock o) fs = (Some tt, fs')
    ∧ JsonFileStore.createJsonFileStore (JsonFileStore.filePath st) clk fs'
      = (JsonFileStore.mkStore (JsonFileStore.filePath st)
           ((fun kv => (fst kv, as_json (snd kv))) <$> JsonFileStore.items st), fs').
Proof.
  intros Hix Hw.
  destruct (flush_atomic (JsonFileStore.filePath st) (JsonFileStore.items st) o fs Hw)
    as (fs' & Hflush & (fs1 & fs2 & _ & _ & _ & _ & Hfile & _)).
  rewrite file_store_eta in Hflush. exists fs'. split; [done|].
  rewrite stringify_index in Hfile.
  rewrite (load_items _ _ _ _ Hfile).
  - by rewrite index_entries_as_json.
  - apply Forall_forall. intros v Hv.
    apply list_elem_of_fmap in Hv as (item & -> & Hitem).
    unfold JsMap.values in Hitem. apply list_elem_of_fmap in Hitem as ([k x] & -> & Hin).
    eapply header_isCrudItem, as_json_header, Hix, Hin.
  - rewrite index_entries_as_json by done. rewrite <- list_fmap_compose.
    apply Hix.
Qed.

Lemma values_as_json (index : list (string * CrudItem)) :
  JsMap.values ((fun kv => (fst kv, as_json (snd kv))) <$> index)
  = as_json <$> JsMap.values index.
Proof. unfold JsMap.values. by rewrite <- !list_fmap_compose. Qed.

Lemma file_after_create st fs P o :
  writable (JsonFileStore.filePath st) o fs →
  ∃ st' fs',
    after_create File P o (st, fs) = (st', fs')
    ∧ JsonFileStore.filePath st' = JsonFileStore.filePath st
    ∧ JsonFileStore.flush st' (Store.pid o) (Store.wclock o) fs = (Some tt, fs').
Proof.
  intros Hw. unfold after_create. cbn -[JsonFileStore.create].
  unfold JsonFileStore.create.
  set (st' := JsonFileStore.mkStore _ _).
  destruct (flush_writable st' o fs Hw) as [fs' Hf]. rewrite Hf.
  by exists st', fs'.
Qed.

Lemma file_after_update st fs i P o :
  writable (JsonFileStore.filePath st) o fs →
  is_Some (JsonFileStore.getById i st) →
  ∃ st' fs',
    after_update File i P o (st, fs) = (st', fs')
    ∧ JsonFileStore.filePath st' = JsonFileStore.filePath st
    ∧ JsonFileStore.flush st' (Store.pid o) (Store.wclock o) fs = (Some tt, fs').
Proof.
  intros Hw [existing Hget]. unfold after_update. cbn -[JsonFileStore.update].
  unfold JsonFileStore.update. unfold JsonFileStore.getById in Hget. rewrite Hget.
  set (st' := JsonFileStore.mkStore _ _).
  destruct (flush_writable st' o fs Hw) as [fs' Hf]. rewrite Hf.
  by exists st', fs'.
Qed.

Lemma file_after_delete st fs i o :
  writable (JsonFileStore.filePath st) o fs →
  is_Some (JsonFileStore.getById i st) →
  ∃ st' fs',
    after_delete File i o (st, fs) = (st', fs')
    ∧ JsonFileStore.filePath st' = JsonFileStore.filePath st
    ∧ JsonFileStore.flush st' (Store.pid o) (Store.wclock o) fs = (Some tt, fs').
Proof.
  intros Hw [existing Hget]. unfold after_delete. cbn -[JsonFileStore.delete].
  unfold JsonFileStore.delete, JsMap.has. unfold JsonFileStore.getById in Hget.
  rewrite Hget.
  set (st' := JsonFileStore.mkStore _ _).
  destruct (flush_writable st' o fs Hw) as [fs' Hf]. rewrite Hf.
  by exists st', fs'.
Qed.

Lemma reopened_after_write clk o st fs st' fs' :
  indexed (JsonFileStore.items st') →
  JsonFileStore.filePath st' = JsonFileStore.filePath st →
  writable (JsonFileStore.filePath st) o fs →
  JsonFileStore.flush st' (Store.pid o) (Store.wclock o) fs = (Some tt, fs') →
  JsonFileStore.getAll (reopened clk (st', fs'))
  = as_json <$> JsonFileStore.getAll st'.
Proof.
  intros Hix Hpath Hw Hflush. rewrite <- Hpath in Hw.
  destruct (reopen_after_flush st' o fs clk Hix Hw) as (fs2 & Hf2 & Hopen).
  rewrite Hflush in Hf2. injection Hf2 as <-.
  unfold reopened. cbn [fst snd]. rewrite Hopen. cbn [fst].
  unfold JsonFileStore.getAll. cbn [JsonFileStore.items]. apply values_as_json.
Qed.

(** X16. What the file store has written survives a restart: after a
    [create], an [update] or a [delete] that went through, a store
    constructed on the same path holds the same records in the same
    order, each as its JSON round trip. *)
Theorem file_store_survives_restart (s : state File) (o : Store.Oracle)
    (clk : Z) (i : string) (P : JsValue) :
  sound File s → can_write File o s →
  JsonFileStore.getAll (reopened clk (after_create File P o s))
  = as_json <$> JsonFileStore.getAll (fst (after_create File P o s))
  ∧ (is_Some (JsonFileStore.getById i (fst s)) →
     JsonFileStore.getAll (reopened clk (after_update File i P o s))
     = as_json <$> JsonFileStore.getAll (fst (after_update File i P o s))
     ∧ JsonFileStore.getAll (reopened clk (after_delete File i o s))
       = as_json <$> JsonFileStore.getAll (fst (after_delete File i o s))).
Proof.
  intros Hs Hw. destruct (sound_kept File s i P o Hs) as (Hc & Hu & Hd).
  destruct s as [st fs]. cbn [can_write sound fst snd] in *. split.
  - destruct (file_after_create st fs P o Hw) as (st' & fs' & Heq & Hpath & Hflush).
    rewrite Heq in *. by eapply reopened_after_write.
  - intros Hsome. split.
    + destruct (file_after_update st fs i P o Hw Hsome)
        as (st' & fs' & Heq & Hpath & Hflush).
      rewrite Heq in *. by eapply reopened_after_write.
    + destruct (file_after_delete st fs i o Hw Hsome)
        as (st' & fs' & Heq & Hpath & Hflush).
      rewrite Heq in *. by eapply reopened_after_write.
Qed.

Lemma file_store_survives_restart_witness :
  let s := JsonFileStore.createJsonFileStore todo_path 0 mixed_disk in
  JsonFileStore.getAll (reopened 1 (after_create File buy_milk at_noon s))
  = as_json <$> JsonFileStore.getAll (fst (after_create File buy_milk at_noon s)).
Proof.
  intros s.
  apply (file_store_survives_restart s at_noon 1 "a" buy_milk).
  - apply initial_sound. by exists todo_path, 0%Z, mixed_disk.
  - vm_compute. reflexivity.
Defined.

(** * When the file cannot be rewritten *)

Lemma flush_fails st o fs :
  ¬ writable (JsonFileStore.filePath st) o fs →
  ∃ fs',
    JsonFileStore.flush st (Store.pid o) (Store.wclock o) fs = (None, fs')
    ∧ ∀ content,
        fs !! JsonFileStore.filePath st = Some (Fs.File content) →
        fs' !! JsonFileStore.filePath st = Some (Fs.File content).
Proof.
  unfold writable, JsonFileStore.flush. intros Hw.
  rewrite (atomicWriteJson_success _ JNull
             (JsonFileStore.persisted_data (JsonFileStore.items st))) in Hw.
  rewrite atomicWriteJson_steps in *.
  set (path := JsonFileStore.filePath st) in *.
  set (tmp := JsonFileStore.tempPath path (Store.pid o) (Store.wclock o)) in *.
  assert (tmp ≠ path) as Hne by apply tempPath_ne.
  unfold Fs.mkdirSync in *.
  destruct (fs !! Path.dirname path) as [[c|]|] eqn:Ed.
  - by eexists.
  - unfold Fs.writeFileSync in *.
    destruct (fs !! tmp) as [[c|]|] eqn:Et.
    + unfold Fs.renameSync in *. rewrite lookup_insert_eq in *.
      rewrite lookup_insert_ne in * by done.
      destruct (fs !! path) as [[c'|]|] eqn:Ep; cbn [fst] in Hw; try done.
      eexists. split; [done|]. intros content [=].
    + eexists. split; [done|]. done.
    + unfold Fs.renameSync in *. rewrite lookup_insert_eq in *.
      rewrite lookup_insert_ne in * by done.
      destruct (fs !! path) as [[c'|]|] eqn:Ep; cbn [fst] in Hw; try done.
      eexists. split; [done|]. intros content [=].
  - unfold Fs.writeFileSync in *.
    assert (∀ content, fs !! path = Some (Fs.File content) → Path.dirname path ≠ path)
      as Hdir.
    { intros content Hp Heq. rewrite Heq in Ed. by rewrite Ed in Hp. }
    destruct (<[Path.dirname path:=Fs.Dir]> fs !! tmp) as [[c|]|] eqn:Et.
    + unfold Fs.renameSync in *. rewrite lookup_insert_eq in *.
      rewrite (lookup_insert_ne _ tmp path) in * by done.
      destruct (<[Path.dirname path:=Fs.Dir]> fs !! path) as [[c'|]|] eqn:Ep;
        cbn [fst] in Hw; try done.
      eexists. split; [done|]. intros content Hp.
      rewrite lookup_insert_ne in Ep by by eapply Hdir. by rewrite Hp in Ep.
    + eexists. split; [done|]. intros content Hp.
      rewrite lookup_insert_ne by by eapply Hdir. done.
    + unfold Fs.renameSync in *. rewrite lookup_insert_eq in *.
      rewrite (lookup_insert_ne _ tmp path) in * by done.
      destruct (<[Path.dirname path:=Fs.Dir]> fs !! path) as [[c'|]|] eqn:Ep;
        cbn [fst] in Hw; try done.
      eexists. split; [done|]. intros content Hp.
      rewrite lookup_insert_ne in Ep by by eapply Hdir. by rewrite Hp in Ep.
Qed.

(** X17. When the file cannot be rewritten, [create] and [delete] of the file
    store throw, but only after they changed the index: the new record
    is there for [getById], the deleted one is gone, while the file keeps
    the content it had. *)
Theorem failed_write_changes_index_only (s : state File) (o : Store.Oracle)
    (P : JsValue) (i : string) :
  ¬ can_write File o s →
  (∃ s' r,
     Store.create (store_of File) P o s = (Err fs_error, s')
     ∧ Store.getById (store_of File) (next_id File o) s' = Ok (Some r)
     ∧ (target_is_file s →
        snd s' !! JsonFileStore.filePath (fst s)
        = snd s !! JsonFileStore.filePath (fst s)))
  ∧ (is_Some (JsonFileStore.getById i (fst s)) →
     ∃ s',
       Store.delete (store_of File) i o s = (Err fs_error, s')
       ∧ Store.getById (store_of File) i s' = Ok None
       ∧ (target_is_file s →
          snd s' !! JsonFileStore.filePath (fst s)
          = snd s !! JsonFileStore.filePath (fst s))).
Proof.
  destruct s as [st fs]. cbn [can_write fst snd store_of next_id]. intros Hw. split.
  - cbn -[JsonFileStore.create]. unfold JsonFileStore.create.
    fold (fresh_item (Uuid.randomUUID (Store.entropy o)) (Iso.nowIso (Store.clock o)) P).
    rewrite fresh_item_id.
    set (st' := JsonFileStore.mkStore _ _).
    destruct (flush_fails st' o fs Hw) as (fs' & Hf & Hkeep). rewrite Hf.
    eexists (st', fs'), _. split; [done|]. split.
    + cbn. unfold JsonFileStore.getById. cbn [JsonFileStore.items].
      by rewrite jsmap_get_set_eq.
    + intros [content Hc]. cbn [fst snd] in *. rewrite Hc. by apply Hkeep.
  - intros [existing Hget]. unfold JsonFileStore.getById in Hget.
    cbn -[JsonFileStore.delete]. unfold JsonFileStore.delete, JsMap.has.
    rewrite Hget.
    set (st' := JsonFileStore.mkStore _ _).
    destruct (flush_fails st' o fs Hw) as (fs' & Hf & Hkeep). rewrite Hf.
    eexists (st', fs'). split; [done|]. split.
    + cbn. unfold JsonFileStore.getById. cbn [JsonFileStore.items].
      by rewrite jsmap_remove_get_eq.
    + intros [content Hc]. cbn [fst snd] in *. rewrite Hc. by apply Hkeep.
Qed.

Lemma failed_write_changes_index_only_witness :
  let s := JsonFileStore.createJsonFileStore todo_path 0 blocked_disk in
  ∃ s',
    Store.delete (store_of File) "a" at_noon s = (Err fs_error, s')
    ∧ Store.getById (store_of File) "a" s' = Ok None
    ∧ snd s' !! todo_path = snd s !! todo_path.
Proof.
  intros s.
  destruct (failed_write_changes_index_only s at_noon JNull "a") as [_ Hdel].
  - vm_compute. discriminate.
  - destruct Hdel as (s' & H1 & H2 & H3).
    + vm_compute. by eexists.
    + exists s'. split; [exact H1|]. split; [exact H2|].
      apply H3. vm_compute. by eexists.
Defined.

(* ================================================================== *)
(** * Driver versions *)
(* ================================================================== *)

Lemma update_as_wrapped model (c : Mongo.Collection) i P o :
  value_free model c →
  fst (Store.update (document_store model) i P o c)
  = fst (Store.update (document_store model) i P o (with_wrapping true c))
  ∧ Mongo.docs (snd (Store.update (document_store model) i P o c))
    = Mongo.docs (snd (Store.update (document_store model) i P o (with_wrapping true c))).
Proof.
  intros [Hkey Hdocs]. cbn [Store.update document_store]. unfold Mongo.update.
  destruct (Mongo.buildLookup i) as [oid|]; [|done].
  pose proof (apply_update_lookup model P o) as Hlook. unfold update_spec in Hlook.
  destruct (Mongo.splitStructuredPatch (schema model) P) as [set unset].
  unfold Mongo.findOneAndUpdate, Mongo.findOne, Mongo.admits, Mongo.driver_result.
  cbn [with_wrapping Mongo.docs Mongo.validator Mongo.wraps_result].
  destruct (negb (Mongo.serializable _)); [done|].
  destruct (List.find (Mongo.has_id oid) (Mongo.docs c)) as [old|] eqn:Ef.
  - destruct (_ && _); [done|].
    apply mongo_find_some in Ef as [Hin _].
    destruct (Mongo.wraps_result c); [done|].
    cbn [Mongo.unwrapFindOneAndUpdateResult fst snd].
    rewrite (Hlook old "value"), decide_False by done.
    by rewrite (Hdocs old Hin).
  - by destruct (Mongo.wraps_result c).
Qed.

(** X18. For a schema of ordinary names (no name is a path, so that no
    update can create a sub-document), [update] of the document adapter
    does not depend on the driver version: whether the driver wraps the
    result of [findOneAndUpdate] or hands back the document itself, the
    answer and the stored documents are the same, as long as no field
    is called [value]. *)
Theorem update_reads_either_result_shape (model : ModelDefinition)
    (c : Mongo.Collection) (i : string) (P : JsValue) (o : Store.Oracle)
    (w : bool) :
  ordinary (Document model) →
  value_free model c →
  fst (Store.update (document_store model) i P o (with_wrapping w c))
  = fst (Store.update (document_store model) i P o c)
  ∧ Mongo.docs (snd (Store.update (document_store model) i P o (with_wrapping w c)))
    = Mongo.docs (snd (Store.update (document_store model) i P o c)).
Proof.
  intros _ Hfree.
  destruct (update_as_wrapped model c i P o Hfree) as [H1 H2].
  destruct (update_as_wrapped model (with_wrapping w c) i P o Hfree) as [H3 H4].
  change (with_wrapping true (with_wrapping w c)) with (with_wrapping true c) in *.
  split; congruence.
Qed.

Lemma update_reads_either_result_shape_witness :
  fst (Store.update (document_store pair_model) pair_id b3 at_noon (with_wrapping true pairs))
  = fst (Store.update (document_store pair_model) pair_id b3 at_noon pairs).
Proof.
  apply (update_reads_either_result_shape pair_model pairs pair_id b3 at_noon true).
  { reflexivity. }
  split.
  - intros H. apply list_elem_of_In in H. cbn in H.
    destruct H as [H | [H | []]]; discriminate H.
  - intros d Hd. apply list_elem_of_singleton in Hd as ->. reflexivity.
Defined.

(* ================================================================== *)
(** * The registry *)
(* ================================================================== *)

Lemma first_seen_elem names n : n ∈ first_seen names ↔ n ∈ names.
Proof.
  induction names as [|n0 names IH]; cbn [first_seen]; [done|].
  rewrite !elem_of_cons, list_elem_of_In, List.filter_In, <- list_elem_of_In, IH.
  rewrite negb_true_iff, String.eqb_neq.
  destruct (decide (n = n0)) as [-> | Hne]; [tauto|]. split; [tauto|].
  intros [? | ?]; [done|]. right. split; [done|]. congruence.
Qed.

Lemma filter_absent_string n (l : list string) :
  n ∉ l → List.filter (fun n' => negb (String.eqb n n')) l = l.
Proof.
  intros H. apply filter_all. apply Forall_forall. intros n' Hn'.
  apply negb_true_iff, String.eqb_neq. by intros ->.
Qed.

Lemma first_seen_snoc names n :
  first_seen (names ++ [n])
  = if decide (n ∈ names) then first_seen names else (first_seen names ++ [n])%list.
Proof.
  induction names as [|n0 names IH]; cbn [first_seen app].
  - by rewrite decide_False by apply not_elem_of_nil.
  - rewrite IH. destruct (decide (n ∈ names)) as [Hin | Hnin].
    + rewrite decide_True by by right. done.
    + destruct (decide (n = n0)) as [-> | Hne].
      * rewrite decide_True by by left.
        rewrite List.filter_app. cbn [List.filter].
        rewrite String.eqb_refl. cbn [negb]. by rewrite app_nil_r.
      * rewrite decide_False by (rewrite elem_of_cons; tauto).
        rewrite List.filter_app. cbn [List.filter].
        rewrite eqb_false_ne by done. done.
Qed.

Lemma last_defined_snoc models m0 m :
  last_defined (models ++ [m0]) m
  ↔ m = m0 ∨ (last_defined models m ∧ name m ≠ name m0).
Proof.
  unfold last_defined. split.
  - intros (before & after & Heq & Hlast).
    destruct after as [|a after _] using rev_ind.
    + apply app_inj_tail in Heq as [_ ->]. by left.
    + rewrite app_comm_cons, app_assoc in Heq.
      apply app_inj_tail in Heq as [-> ->]. right.
      rewrite fmap_app, not_elem_of_app in Hlast. destruct Hlast as [H1 H2].
      split; [by exists before, after|].
      intros Heq. apply H2. rewrite Heq. cbn. apply list_elem_of_here.
  - intros [-> | [(before & after & -> & Hlast) Hne]].
    + exists models, []. split; [done|]. cbn. apply not_elem_of_nil.
    + exists before, (after ++ [m0])%list. split; [by rewrite <- app_assoc|].
      rewrite fmap_app, not_elem_of_app. split; [done|].
      cbn. rewrite list_elem_of_singleton. done.
Qed.

Lemma register_all_snoc models m0 :
  Registry.register_all (models ++ [m0])
  = Registry.registerModel m0 (Registry.register_all models).
Proof. unfold Registry.register_all. by rewrite fold_left_app. Qed.

(** What holds of the registry after any sequence of definitions. *)
Lemma registry_invariant models :
  let st := Registry.register_all models in
  NoDup (JsMap.keys st)
  ∧ (∀ k m, (k, m) ∈ st → name m = k)
  ∧ JsMap.keys st = first_seen (name <$> models)
  ∧ ∀ m, m ∈ Registry.getModels st ↔ last_defined models m.
Proof.
  induction models as [|m0 models IH] using rev_ind.
  - cbn. split_and!; [apply NoDup_nil_2 | intros ? ? H; by apply elem_of_nil in H | done |].
    intros m. split.
    + intros H. by apply elem_of_nil in H.
    + intros (before & after & Heq & _). by destruct before.
  - cbv zeta in *. destruct IH as (Hnd & Hkeyed & Hkeys & Hmem).
    rewrite register_all_snoc. unfold Registry.registerModel.
    set (st := Registry.register_all models) in *.
    assert (∀ k m, (k, m) ∈ JsMap.set (name m0) m0 st →
                   (k, m) = (name m0, m0) ∨ ((k, m) ∈ st ∧ k ≠ name m0)) as Hset.
    { intros k m Hin. destruct (decide (k = name m0)) as [-> | Hne].
      - left. f_equal.
        assert (NoDup (JsMap.keys (JsMap.set (name m0) m0 st))) as Hnd'
          by by apply jsmap_set_NoDup.
        pose proof (jsmap_elem_get _ _ _ Hnd' Hin) as Hget.
        rewrite jsmap_get_set_eq in Hget. by injection Hget.
      - right. split; [|done].
        apply jsmap_set_elem in Hin as [[= -> _] | Hin]; done. }
    split_and!.
    + by apply jsmap_set_NoDup.
    + intros k m Hin. apply Hset in Hin as [[= -> ->] | [Hin _]]; [done|]. by apply Hkeyed.
    + rewrite jsmap_keys_set, fmap_app. cbn [fmap list_fmap].
      rewrite first_seen_snoc, <- Hkeys. unfold JsMap.has.
      destruct (JsMap.get (name m0) st) as [m|] eqn:Eg.
      * rewrite decide_True; [done|].
        apply first_seen_elem. rewrite <- Hkeys.
        apply jsmap_get_some_elem in Eg. unfold JsMap.keys.
        apply list_elem_of_fmap. by exists (name m0, m).
      * rewrite decide_False; [done|].
        rewrite <- first_seen_elem, <- Hkeys. by apply jsmap_get_none.
    + intros m. rewrite last_defined_snoc, <- Hmem.
      unfold Registry.getModels, JsMap.values. rewrite !list_elem_of_fmap. split.
      * intros ([k m'] & -> & Hin). cbn.
        apply Hset in Hin as [[= -> ->] | [Hin Hne]]; [by left|]. right. split.
        -- by exists (k, m').
        -- rewrite (Hkeyed k m' Hin). done.
      * intros [-> | [([k m'] & -> & Hin) Hne]].
        -- exists (name m0, m0). split; [done|].
           apply jsmap_get_some_elem. apply jsmap_get_set_eq.
        -- exists (k, m'). split; [done|]. cbn in Hne.
           apply jsmap_get_some_elem. rewrite jsmap_get_set_ne.
           ++ by apply jsmap_elem_get.
           ++ rewrite <- (Hkeyed k m' Hin). congruence.
Qed.

(** X19. The registry keeps one definition per model name, the last one, at
    the place where the name was first defined; and [generateCrudRoutes]
    mounts one router per name, in that order. *)
Theorem registry_keeps_last_definition (models : list ModelDefinition) :
  name <$> Registry.getModels (Registry.register_all models)
  = first_seen (name <$> models)
  ∧ (∀ m, m ∈ Registry.getModels (Registry.register_all models)
          ↔ last_defined models m)
  ∧ fst <$> CrudGenerator.generateCrudRoutes (Registry.register_all models)
    = Router.getCrudBasePath <$> first_seen (name <$> models).
Proof.
  destruct (registry_invariant models) as (Hnd & Hkeyed & Hkeys & Hmem).
  assert (name <$> Registry.getModels (Registry.register_all models)
          = first_seen (name <$> models)) as Hnames.
  { rewrite <- Hkeys. unfold Registry.getModels, JsMap.values, JsMap.keys.
    rewrite <- list_fmap_compose. apply list_fmap_ext. intros n [k m] Hn. cbn.
    apply Hkeyed. by eapply list_elem_of_lookup_2. }
  split; [done|]. split; [done|].
  unfold CrudGenerator.generateCrudRoutes. rewrite <- Hnames.
  by rewrite <- !list_fmap_compose.
Qed.

(* ================================================================== *)
(** * The stores of the memory adapter *)
(* ================================================================== *)

Lemma getCrudStore_get model (st : MemoryDbAdapter.State) h :
  JsMap.get h (snd (MemoryDbAdapter.getCrudStore model st))
  = match JsMap.get h st with
    | Some s => Some s
    | None => if String.eqb h (MemoryDbAdapter.store_key model)
              then Some MemoryStore.empty else None
    end.
Proof.
  unfold MemoryDbAdapter.getCrudStore. cbv zeta.
  destruct (JsMap.get (MemoryDbAdapter.store_key model) st) as [s|] eqn:E; cbn [snd].
  - destruct (JsMap.get h st) eqn:Eh; [done|].
    rewrite eqb_false_ne; [done|]. intros ->. by rewrite E in Eh.
  - destruct (String.eqb h (MemoryDbAdapter.store_key model)) eqn:Ek.
    + apply String.eqb_eq in Ek as ->. by rewrite jsmap_get_set_eq, E.
    + apply String.eqb_neq in Ek. rewrite jsmap_get_set_ne by done.
      by destruct (JsMap.get h st).
Qed.

(** X20. The memory adapter keeps one store per lower-cased model name:
    models whose names differ only in case are served by the same store,
    so a record created for one is listed for the other; asking for a
    store again never resets it; and a call on one store leaves the
    records of every other store alone. *)
Theorem memory_adapter_stores_by_lowercase_name (m1 m2 : ModelDefinition)
    (st : MemoryDbAdapter.State) (P : JsValue) (clock : Z) (entropy : N) :
  let h1 := fst (MemoryDbAdapter.getCrudStore m1 st) in
  let st1 := snd (MemoryDbAdapter.getCrudStore m1 st) in
  let st2 := snd (MemoryDbAdapter.on_store h1
                    (MemoryStore.create P clock entropy) st1) in
  let h2 := fst (MemoryDbAdapter.getCrudStore m2 st2) in
  let st3 := snd (MemoryDbAdapter.getCrudStore m2 st2) in
  (∀ h, MemoryDbAdapter.records h st1 = MemoryDbAdapter.records h st)
  ∧ (MemoryDbAdapter.store_key m1 = MemoryDbAdapter.store_key m2 →
     h2 = h1 ∧ st3 = st2
     ∧ fresh_item (Uuid.randomUUID entropy) (Iso.nowIso clock) P
       ∈ MemoryDbAdapter.records h2 st3)
  ∧ (MemoryDbAdapter.store_key m1 ≠ MemoryDbAdapter.store_key m2 →
     MemoryDbAdapter.records h2 st3 = MemoryDbAdapter.records h2 st).
Proof.
  intros h1 st1 st2 h2 st3.
  assert (h1 = MemoryDbAdapter.store_key m1) as Hh1.
  { unfold h1, MemoryDbAdapter.getCrudStore. cbv zeta. by destruct (JsMap.get _ st). }
  assert (h2 = MemoryDbAdapter.store_key m2) as Hh2.
  { unfold h2, MemoryDbAdapter.getCrudStore. cbv zeta. by destruct (JsMap.get _ st2). }
  assert (∀ h, MemoryDbAdapter.records h st1 = MemoryDbAdapter.records h st) as Hrec1.
  { intros h. unfold MemoryDbAdapter.records, st1. rewrite getCrudStore_get.
    destruct (JsMap.get h st); [done|]. by destruct (String.eqb _ _). }
  assert (∃ s, JsMap.get h1 st1 = Some s) as [s Hs].
  { unfold st1. rewrite getCrudStore_get, Hh1, String.eqb_refl.
    destruct (JsMap.get _ st); by eexists. }
  assert (st2 = JsMap.set h1 (snd (MemoryStore.create P clock entropy s)) st1) as Hst2.
  { unfold st2, MemoryDbAdapter.on_store. rewrite Hs.
    by destruct (MemoryStore.create P clock entropy s). }
  split; [done|]. split.
  - intros Hkey. assert (h2 = h1) as Hh by congruence.
    assert (st3 = st2) as Hst3.
    { unfold st3, MemoryDbAdapter.getCrudStore. cbv zeta.
      rewrite <- Hh2, Hh, Hst2, jsmap_get_set_eq. done. }
    split; [done|]. split; [done|].
    rewrite Hst3, Hh. unfold MemoryDbAdapter.records.
    rewrite Hst2, jsmap_get_set_eq. rewrite memory_create_eq. cbn [snd].
    unfold MemoryStore.getAll, JsMap.values. apply list_elem_of_fmap.
    eexists (_, _). split; [done|].
    apply jsmap_get_some_elem, jsmap_get_set_eq.
  - intros Hkey. assert (h2 ≠ h1) as Hh by congruence.
    unfold MemoryDbAdapter.records at 1. unfold st3. rewrite getCrudStore_get.
    rewrite <- Hh2, String.eqb_refl, Hst2.
    rewrite jsmap_get_set_ne by done.
    fold (MemoryDbAdapter.records h2 st). rewrite <- (Hrec1 h2).
    unfold MemoryDbAdapter.records. by destruct (JsMap.get h2 st1).
Qed.

Lemma memory_adapter_stores_by_lowercase_name_witness :
  let upper := mkModel "TODO" [] in
  let st1 := snd (MemoryDbAdapter.getCrudStore todo MemoryDbAdapter.init) in
  let st2 := snd (MemoryDbAdapter.on_store "todo"
                    (MemoryStore.create buy_milk 0 7) st1) in
  fst (MemoryDbAdapter.getCrudStore upper st2) = "todo"
  ∧ fresh_item (Uuid.randomUUID 7) (Iso.nowIso 0) buy_milk
    ∈ MemoryDbAdapter.records "todo" (snd (MemoryDbAdapter.getCrudStore upper st2)).
Proof.
  intros upper st1 st2.
  destruct (memory_adapter_stores_by_lowercase_name todo upper MemoryDbAdapter.init
              buy_milk 0 7) as (_ & Hsame & _).
  destruct (Hsame eq_refl) as (H1 & _ & H3). split; [exact H1 | exact H3].
Defined.

(* ================================================================== *)
(** * The [.env] file *)
(* ================================================================== *)

Lemma append_cons c a b : String c a ++ b = String c (a ++ b).
Proof. reflexivity. Qed.

Lemma append_empty b : "" ++ b = b.
Proof. reflexivity. Qed.

Lemma append_length a b :
  String.length (a ++ b) = (String.length a + String.length b)%nat.
Proof.
  induction a as [|c a IH]; [done|]. rewrite append_cons. cbn. by rewrite IH.
Qed.

Lemma substring_full s : String.substring 0 (String.length s) s = s.
Proof. induction s as [|c s IH]; cbn; [done|]. by rewrite IH. Qed.

Lemma substring_prefix_app k r :
  String.substring 0 (String.length k) (k ++ r) = k.
Proof.
  induction k as [|c k IH]; [by destruct r|]. rewrite append_cons. cbn. by rewrite IH.
Qed.

Lemma substring_skip k n m r :
  String.substring (String.length k + n) m (k ++ r) = String.substring n m r.
Proof. induction k as [|c k IH]; [done|]. rewrite append_cons. cbn. apply IH. Qed.

Lemma slice_prefix_app k r : JsString.slice 0 (String.length k) (k ++ r) = k.
Proof. unfold JsString.slice. rewrite Nat.sub_0_r. apply substring_prefix_app. Qed.

Lemma sliceFrom_app k r : JsString.sliceFrom (String.length k) (k ++ r) = r.
Proof.
  unfold JsString.sliceFrom, JsString.slice.
  rewrite append_length.
  replace (String.length k + String.length r - String.length k)%nat
    with (String.length r) by lia.
  pose proof (substring_skip k 0 (String.length r) r) as H.
  rewrite Nat.add_0_r in H. rewrite H. apply substring_full.
Qed.

Lemma prefix_cons a b s1 s2 :
  String.prefix (String a s1) (String b s2)
  = if Ascii.eqb a b then String.prefix s1 s2 else false.
Proof.
  cbn. destruct (ascii_dec a b) as [-> | Hne].
  - by rewrite Ascii.eqb_refl.
  - apply Ascii.eqb_neq in Hne. by rewrite Hne.
Qed.

Lemma prefix_app p r : String.prefix p (p ++ r) = true.
Proof.
  induction p as [|c p IH]; [by destruct r|].
  by rewrite append_cons, prefix_cons, Ascii.eqb_refl.
Qed.

Lemma prefix_before p k e r :
  e ∉ list_ascii_of_string p →
  String.prefix p (k ++ String e r) = true → String.prefix p k = true.
Proof.
  revert k. induction p as [|a p IH]; intros k He H; [by destruct k|].
  cbn [list_ascii_of_string] in He. apply not_elem_of_cons in He as [Hae He].
  destruct k as [|b k].
  - rewrite append_empty, prefix_cons in H.
    rewrite (proj2 (Ascii.eqb_neq a e)) in H by congruence. done.
  - rewrite append_cons, prefix_cons in H. rewrite prefix_cons.
    destruct (Ascii.eqb a b); [|done]. by apply IH.
Qed.

Lemma prefix_chars p k c :
  String.prefix p k = true →
  c ∈ list_ascii_of_string p → c ∈ list_ascii_of_string k.
Proof.
  revert k. induction p as [|a p IH]; intros k H Hc.
  - by apply elem_of_nil in Hc.
  - destruct k as [|b k]; [done|]. rewrite prefix_cons in H.
    destruct (Ascii.eqb a b) eqn:E; [|done]. apply Ascii.eqb_eq in E as ->.
    cbn [list_ascii_of_string] in *. apply elem_of_cons in Hc as [-> | Hc].
    + apply list_elem_of_here.
    + apply list_elem_of_further. by apply IH.
Qed.

Lemma indexOf_first e k r :
  e ∉ list_ascii_of_string k →
  JsString.indexOf e (k ++ String e r) = Some (String.length k).
Proof.
  induction k as [|c k IH]; intros He.
  - rewrite append_empty. cbn. by rewrite Ascii.eqb_refl.
  - cbn [list_ascii_of_string] in He. apply not_elem_of_cons in He as [Hne He].
    rewrite append_cons. cbn [JsString.indexOf String.length].
    rewrite (proj2 (Ascii.eqb_neq e c)) by done. by rewrite IH.
Qed.

Lemma trimEnd_app a b :
  b ≠ "" → JsString.trimEnd b = b → JsString.trimEnd (a ++ b) = a ++ b.
Proof.
  intros Hb Hfix. induction a as [|c a IH]; [done|].
  rewrite append_cons. cbn [JsString.trimEnd]. rewrite IH.
  destruct a as [|c' a]; [|done]. rewrite append_empty. by destruct b.
Qed.

Lemma trimEnd_in_quotes q v :
  JsString.is_space q = false →
  JsString.trimEnd (in_quotes q v) = in_quotes q v.
Proof.
  intros Hq. unfold in_quotes. rewrite <- append_cons.
  apply trimEnd_app; [done|]. cbn. by rewrite Hq.
Qed.

Lemma stripQuotes_in_quotes q v :
  q = Env.dquote ∨ q = "'"%char → Env.stripQuotes (in_quotes q v) = v.
Proof.
  intros Hq.
  assert (JsString.is_space q = false) as Hsp by by destruct Hq as [-> | ->].
  assert (JsString.trim (in_quotes q v) = in_quotes q v) as Htrim.
  { unfold JsString.trim.
    assert (JsString.trimStart (in_quotes q v) = in_quotes q v) as ->
      by (unfold in_quotes; cbn [JsString.trimStart]; by rewrite Hsp).
    by apply trimEnd_in_quotes. }
  assert (Env.wrapped_in q (in_quotes q v) = true) as Hwrapped.
  { unfold Env.wrapped_in, JsString.startsWith, JsString.endsWith, in_quotes.
    rewrite prefix_cons, Ascii.eqb_refl.
    replace (String.prefix "" (v ++ String q "")) with true
      by by destruct (v ++ String q "").
    rewrite <- append_cons, append_length. cbn [String.length andb].
    replace (1 <=? S (String.length v) + 1)%nat with true
      by (symmetry; apply Nat.leb_le; lia).
    replace (S (String.length v) + 1 - 1)%nat
      with (String.length (String q v) + 0)%nat by (cbn; lia).
    rewrite substring_skip. cbn. by rewrite Ascii.eqb_refl. }
  unfold Env.stripQuotes. cbv zeta. rewrite Htrim.
  assert (Env.wrapped_in Env.dquote (in_quotes q v)
          || Env.wrapped_in "'" (in_quotes q v) = true) as ->.
  { destruct Hq as [-> | ->]; rewrite Hwrapped; [done | apply orb_true_r]. }
  unfold JsString.slice, in_quotes. rewrite <- append_cons at 1.
  rewrite append_length. cbn [String.length String.substring].
  replace (S (String.length v) + 1 - 1 - 1)%nat with (String.length v) by lia.
  apply substring_prefix_app.
Qed.

Lemma parse_definition exported k text :
  env_key k →
  JsString.trimEnd (k ++ "=" ++ text) = k ++ "=" ++ text →
  Env.parseEnvLine (env_line exported k text) = Some (k, Env.stripQuotes text).
Proof.
  intros (Hne & _ & Hspace & Heq & Hhash) Hend.
  destruct k as [|c k]; [done|].
  assert (JsString.is_space c = false) as Hc
    by (unfold spaceless in Hspace; cbn in Hspace; by apply Forall_cons in Hspace as [? _]).
  assert (JsString.startsWith "export " (String c k ++ "=" ++ text) = false) as Hexp.
  { unfold JsString.startsWith.
    destruct (String.prefix "export " (String c k ++ "=" ++ text)) eqn:E; [|done].
    change ("=" ++ text) with (String "=" text) in E.
    apply prefix_before in E.
    - apply (prefix_chars _ _ " "%char) in E.
      + unfold spaceless in Hspace. rewrite Forall_forall in Hspace.
        by apply Hspace in E.
      + cbn. rewrite !elem_of_cons. tauto.
    - intros H. apply list_elem_of_In in H. cbn in H.
      repeat (destruct H as [H | H]; [discriminate H|]). done. }
  assert (JsString.startsWith "#" (String c k ++ "=" ++ text) = false) as Hhash'.
  { unfold JsString.startsWith in *. rewrite append_cons, prefix_cons.
    rewrite prefix_cons in Hhash. destruct (Ascii.eqb "#" c); [|done].
    by destruct k. }
  assert (JsString.trim (env_line exported (String c k) text)
          = env_line exported (String c k) text) as Htrim.
  { unfold JsString.trim, env_line.
    assert (JsString.trimStart ((if exported then "export " else "")
                                ++ String c k ++ "=" ++ text)
            = (if exported then "export " else "") ++ String c k ++ "=" ++ text) as ->.
    { destruct exported; [done|]. rewrite append_empty, append_cons.
      cbn [JsString.trimStart]. by rewrite Hc. }
    apply trimEnd_app; [by rewrite append_cons | done]. }
  assert (String.eqb (env_line exported (String c k) text) ""
          || JsString.startsWith "#" (env_line exported (String c k) text) = false)
    as Hfirst.
  { unfold env_line. destruct exported; [done|].
    rewrite append_empty, Hhash'. by rewrite append_cons. }
  assert ((if JsString.startsWith "export " (env_line exported (String c k) text)
           then JsString.sliceFrom (String.length "export ")
                  (env_line exported (String c k) text)
           else env_line exported (String c k) text)
          = String c k ++ "=" ++ text) as Hrest.
  { unfold env_line. destruct exported.
    - unfold JsString.startsWith. by rewrite prefix_app, sliceFrom_app.
    - by rewrite append_empty, Hexp. }
  unfold Env.parseEnvLine. cbv zeta. rewrite Htrim, Hfirst, Hrest.
  change ("=" ++ text) with (String "=" text).
  rewrite indexOf_first by done. cbn [String.length].
  change (S (String.length k)) with (String.length (String c k)).
  rewrite !slice_prefix_app, !(trim_spaceless _ Hspace).
  assert (String.eqb (String c k) "" = false) as -> by done.
  change (String "=" text) with ("=" ++ text).
  replace (String c k ++ "=" ++ text) with ((String c k ++ "=") ++ text).
  - replace (String.length (String c k) + 1)%nat with (String.length (String c k ++ "="))
      by (rewrite append_length; done).
    by rewrite sliceFrom_app.
  - rewrite !append_cons. f_equal. clear. induction k as [|a k IH]; [done|].
    rewrite !append_cons. by f_equal.
Qed.

(** X21. After a variable name of ASCII characters (not empty, without
    white space or [=], not starting with [#]), a value written between
    quotes in a [.env] line is read back as it stands, white space, [=]
    and [#] included, whether or not the line starts with [export ]. *)
Theorem quoted_value_is_read_verbatim (exported : bool) (k v : string) (q : ascii) :
  env_key k →
  q = Env.dquote ∨ q = "'"%char →
  Env.parseEnvLine (env_line exported k (in_quotes q v)) = Some (k, v).
Proof.
  intros Hk Hq.
  assert (JsString.is_space q = false) as Hsp by by destruct Hq as [-> | ->].
  rewrite (parse_definition exported k (in_quotes q v) Hk).
  - by rewrite (stripQuotes_in_quotes q v Hq).
  - destruct Hk as [Hne _]. destruct k as [|c k]; [done|].
    apply trimEnd_app; [done|]. apply trimEnd_app; [done|].
    by apply trimEnd_in_quotes.
Qed.

Lemma quoted_value_is_read_verbatim_witness :
  Env.parseEnvLine (env_line true "DATABASE_URL" (in_quotes Env.dquote " a=b #c "))
  = Some ("DATABASE_URL", " a=b #c ").
Proof.
  apply (quoted_value_is_read_verbatim true "DATABASE_URL" " a=b #c " Env.dquote).
  - split; [done|]. split; [reflexivity|].
    split; [by repeat constructor|]. split; [|reflexivity].
    intros H. apply list_elem_of_In in H. cbn in H.
    repeat (destruct H as [H | H]; [discriminate H|]). done.
  - by left.
Defined.


